(** * BibleVerseViewer: a shallow embedding of [bible_viewer.c]

    The development follows the C source function by function.

    - A [char] is an [ascii]; a buffer is a [list ascii].  Where the C code
      treats a buffer as a NUL-terminated string ([strlen], [strchr],
      [strcmp], [atoi]) the model reads it up to the first NUL ([c_str]).
    - Unsigned machine integers are [Z] (field values) or [nat] (positions
      in a buffer); the 32-bit file offset has its wrap-around written out.
    - An array with an explicit [count] field is a list, the count being
      its length.
    - An open file is its contents together with the bytes not yet read;
      the SD card is a record of the two persisted files.
    - A [while] loop whose trip count is not structurally bounded runs on
      fuel; its totality lemma shows that the fuel handed to it by the
      modelled function is never exhausted. *)

From Stdlib Require Import Ascii String.
From Stdlib Require Import List ZArith Lia Bool Arith Sorted.
Import ListNotations.

(* ================================================================== *)
(** * Characters and C strings *)
(* ================================================================== *)

Definition NUL : ascii := "000"%char.
Definition LF  : ascii := "010"%char.
Definition CR  : ascii := "013"%char.
Definition SPC : ascii := " "%char.
Definition PIPE : ascii := "|"%char.
Definition EQS : ascii := "="%char.
Definition SLASH : ascii := "/"%char.

(** A string literal of the source, as the bytes it denotes. *)
Definition lit (s : string) : list ascii := list_ascii_of_string s.

(** The C string held in a buffer: everything before the first NUL. *)
Fixpoint c_str (buf : list ascii) : list ascii :=
  match buf with
  | [] => []
  | a :: rest => if Ascii.eqb a NUL then [] else a :: c_str rest
  end.

(** [strchr s c] for [c <> NUL]: position of the first [c] in the C string. *)
Fixpoint strchr (s : list ascii) (c : ascii) : option nat :=
  match s with
  | [] => None
  | a :: rest =>
      if Ascii.eqb a c then Some 0
      else if Ascii.eqb a NUL then None
      else option_map S (strchr rest c)
  end.

(** [strrchr s c] for [c <> NUL]: position of the last [c] in the C string. *)
Fixpoint strrchr (s : list ascii) (c : ascii) : option nat :=
  match s with
  | [] => None
  | a :: rest =>
      if Ascii.eqb a NUL then None
      else match strrchr rest c with
           | Some p => Some (S p)
           | None => if Ascii.eqb a c then Some 0 else None
           end
  end.

Fixpoint bytes_eqb (a b : list ascii) : bool :=
  match a, b with
  | [], [] => true
  | x :: a', y :: b' => Ascii.eqb x y && bytes_eqb a' b'
  | _, _ => false
  end.

(** [strcmp(a, b) == 0]. *)
Definition str_eq (a b : list ascii) : bool :=
  bytes_eqb (c_str a) (c_str b).

(* ================================================================== *)
(** * Constants of the source *)
(* ================================================================== *)

Definition MAX_SEARCH_LEN : nat := 64.
Definition MAX_SEARCH_RESULTS : nat := 50.
Definition MAX_BOOKMARKS : nat := 75.
Definition MAX_VERSES : nat := 600.
Definition WRAP_MAX_LINES : nat := 8.
Definition WRAP_LINE_LEN : nat := 32.
Definition REF_LEN : nat := 24.
Definition LINE_BUF_LEN : nat := 320.
Definition API_TRANS_COUNT : nat := 9.
Definition BIBLE_BOOKS_COUNT : nat := 66.

Definition DATA_DIR : list ascii := lit "/ext/apps_data/bible_viewer".

(** [uint32_t] arithmetic wraps modulo 2^32. *)
Definition u32 (z : Z) : Z := (z mod 2 ^ 32)%Z.
Definition u16 (z : Z) : Z := (z mod 2 ^ 16)%Z.

(* ================================================================== *)
(** * Data model *)
(* ================================================================== *)

Inductive FontChoice : Set :=
| FONT_SECONDARY | FONT_SMALL | FONT_MEDIUM | FONT_LARGE | FONT_XLARGE.

Definition FONT_COUNT : Z := 5.

Definition font_to_int (f : FontChoice) : Z :=
  match f with
  | FONT_SECONDARY => 0 | FONT_SMALL => 1 | FONT_MEDIUM => 2
  | FONT_LARGE => 3 | FONT_XLARGE => 4
  end%Z.

(** The cast [(FontChoice)v], used by the source only for [0 <= v < 5]. *)
Definition font_of_int (v : Z) : FontChoice :=
  match v with
  | 1 => FONT_SMALL | 2 => FONT_MEDIUM | 3 => FONT_LARGE | 4 => FONT_XLARGE
  | _ => FONT_SECONDARY
  end%Z.

Record WrapState : Set := mkWrap {
  lines : list (list ascii);        (* lines[0 .. count) *)
  scroll : Z
}.

Record SearchHits : Set := mkHits {
  hits_idx : list Z;                (* idx[0 .. count) *)
  hits_sel : Z
}.

Record BookmarkList : Set := mkBmarks {
  bm_idx : list Z;                  (* idx[0 .. count) *)
  bm_sel : Z
}.

Record VerseIndex : Set := mkVerseIndex {
  offset : Z;                       (* uint32_t *)
  ref : list ascii
}.

Record VerseFile : Set := mkVerseFile {
  label : list ascii;
  path : list ascii
}.

(** An open [File*]: what is on the card and what is still ahead of the
    read position. *)
Record File : Set := mkFile {
  contents : list ascii;
  unread : list ascii
}.

(** The part of the SD card the modelled functions touch. *)
Record Storage : Set := mkStorage {
  sd_writable : bool;               (* FSOM_CREATE_ALWAYS succeeds *)
  bm_file : option (list ascii);    (* BM_PATH *)
  settings_file : option (list ascii) (* SETTINGS_PATH *)
}.

Record App : Set := mkApp {
  storage : Storage;
  index : list VerseIndex;          (* index[0 .. verse_count) *)
  vfiles : list VerseFile;          (* vfiles[0 .. vfile_count) *)
  vfile_sel : Z;
  vfile : option File;
  search_buf : list ascii;
  search_len : Z;
  hits : SearchHits;
  bmarks : BookmarkList;
  font_choice : FontChoice;
  daily_verse_idx : Z;
  daily_verse_day : Z;
  api_trans_sel : Z;
  api_menu_sel : Z;
  api_menu_scroll : Z;
  api_book_sel : Z;
  api_chapter_sel : Z;
  api_verse_sel : Z
}.

Definition verse_count (app : App) : nat := length (index app).
Definition vfile_count (app : App) : nat := length (vfiles app).

Definition set_storage (app : App) (v : Storage) : App :=
  mkApp v (index app) (vfiles app) (vfile_sel app) (vfile app)
        (search_buf app) (search_len app) (hits app) (bmarks app)
        (font_choice app) (daily_verse_idx app) (daily_verse_day app)
        (api_trans_sel app) (api_menu_sel app) (api_menu_scroll app)
        (api_book_sel app) (api_chapter_sel app) (api_verse_sel app).

Definition set_index (app : App) (v : list VerseIndex) : App :=
  mkApp (storage app) v (vfiles app) (vfile_sel app) (vfile app)
        (search_buf app) (search_len app) (hits app) (bmarks app)
        (font_choice app) (daily_verse_idx app) (daily_verse_day app)
        (api_trans_sel app) (api_menu_sel app) (api_menu_scroll app)
        (api_book_sel app) (api_chapter_sel app) (api_verse_sel app).

Definition set_vfile_sel (app : App) (v : Z) : App :=
  mkApp (storage app) (index app) (vfiles app) v (vfile app)
        (search_buf app) (search_len app) (hits app) (bmarks app)
        (font_choice app) (daily_verse_idx app) (daily_verse_day app)
        (api_trans_sel app) (api_menu_sel app) (api_menu_scroll app)
        (api_book_sel app) (api_chapter_sel app) (api_verse_sel app).

Definition set_vfile (app : App) (v : option File) : App :=
  mkApp (storage app) (index app) (vfiles app) (vfile_sel app) v
        (search_buf app) (search_len app) (hits app) (bmarks app)
        (font_choice app) (daily_verse_idx app) (daily_verse_day app)
        (api_trans_sel app) (api_menu_sel app) (api_menu_scroll app)
        (api_book_sel app) (api_chapter_sel app) (api_verse_sel app).

Definition set_hits (app : App) (v : SearchHits) : App :=
  mkApp (storage app) (index app) (vfiles app) (vfile_sel app) (vfile app)
        (search_buf app) (search_len app) v (bmarks app)
        (font_choice app) (daily_verse_idx app) (daily_verse_day app)
        (api_trans_sel app) (api_menu_sel app) (api_menu_scroll app)
        (api_book_sel app) (api_chapter_sel app) (api_verse_sel app).

Definition set_bmarks (app : App) (v : BookmarkList) : App :=
  mkApp (storage app) (index app) (vfiles app) (vfile_sel app) (vfile app)
        (search_buf app) (search_len app) (hits app) v
        (font_choice app) (daily_verse_idx app) (daily_verse_day app)
        (api_trans_sel app) (api_menu_sel app) (api_menu_scroll app)
        (api_book_sel app) (api_chapter_sel app) (api_verse_sel app).

Definition set_font_choice (app : App) (v : FontChoice) : App :=
  mkApp (storage app) (index app) (vfiles app) (vfile_sel app) (vfile app)
        (search_buf app) (search_len app) (hits app) (bmarks app)
        v (daily_verse_idx app) (daily_verse_day app)
        (api_trans_sel app) (api_menu_sel app) (api_menu_scroll app)
        (api_book_sel app) (api_chapter_sel app) (api_verse_sel app).

Definition set_daily_verse_idx (app : App) (v : Z) : App :=
  mkApp (storage app) (index app) (vfiles app) (vfile_sel app) (vfile app)
        (search_buf app) (search_len app) (hits app) (bmarks app)
        (font_choice app) v (daily_verse_day app)
        (api_trans_sel app) (api_menu_sel app) (api_menu_scroll app)
        (api_book_sel app) (api_chapter_sel app) (api_verse_sel app).

Definition set_daily_verse_day (app : App) (v : Z) : App :=
  mkApp (storage app) (index app) (vfiles app) (vfile_sel app) (vfile app)
        (search_buf app) (search_len app) (hits app) (bmarks app)
        (font_choice app) (daily_verse_idx app) v
        (api_trans_sel app) (api_menu_sel app) (api_menu_scroll app)
        (api_book_sel app) (api_chapter_sel app) (api_verse_sel app).

Definition set_api_trans_sel (app : App) (v : Z) : App :=
  mkApp (storage app) (index app) (vfiles app) (vfile_sel app) (vfile app)
        (search_buf app) (search_len app) (hits app) (bmarks app)
        (font_choice app) (daily_verse_idx app) (daily_verse_day app)
        v (api_menu_sel app) (api_menu_scroll app)
        (api_book_sel app) (api_chapter_sel app) (api_verse_sel app).

Definition set_api_book_sel (app : App) (v : Z) : App :=
  mkApp (storage app) (index app) (vfiles app) (vfile_sel app) (vfile app)
        (search_buf app) (search_len app) (hits app) (bmarks app)
        (font_choice app) (daily_verse_idx app) (daily_verse_day app)
        (api_trans_sel app) (api_menu_sel app) (api_menu_scroll app)
        v (api_chapter_sel app) (api_verse_sel app).

Definition set_api_chapter_sel (app : App) (v : Z) : App :=
  mkApp (storage app) (index app) (vfiles app) (vfile_sel app) (vfile app)
        (search_buf app) (search_len app) (hits app) (bmarks app)
        (font_choice app) (daily_verse_idx app) (daily_verse_day app)
        (api_trans_sel app) (api_menu_sel app) (api_menu_scroll app)
        (api_book_sel app) v (api_verse_sel app).

Definition set_api_verse_sel (app : App) (v : Z) : App :=
  mkApp (storage app) (index app) (vfiles app) (vfile_sel app) (vfile app)
        (search_buf app) (search_len app) (hits app) (bmarks app)
        (font_choice app) (daily_verse_idx app) (daily_verse_day app)
        (api_trans_sel app) (api_menu_sel app) (api_menu_scroll app)
        (api_book_sel app) (api_chapter_sel app) v.

(* ================================================================== *)
(** * SD card I/O: [build_index] *)
(* ================================================================== *)

(** [storage_file_seek(f, off, true)]. *)
Definition storage_file_seek (f : File) (off : Z) : File :=
  mkFile (contents f) (skipn (Z.to_nat off) (contents f)).

(** The inner byte loop of [build_index]:
    [while(li < sizeof(line) - 1)], with [li = length line].  Returns the
    line buffer, the [eof] flag, the running offset and the bytes left. *)
Fixpoint index_read_line (rest line : list ascii) (offset : Z)
  : list ascii * bool * Z * list ascii :=
  if LINE_BUF_LEN - 1 <=? length line then (line, false, offset, rest)
  else
    match rest with
    | [] => (line, true, offset, [])
    | ch :: rest' =>
        let offset := u32 (offset + 1) in
        if Ascii.eqb ch CR then index_read_line rest' line offset
        else if Ascii.eqb ch LF then (line, false, offset, rest')
        else index_read_line rest' (line ++ [ch]) offset
    end.

(** The outer loop [while(app->verse_count < MAX_VERSES)]. *)
Fixpoint index_loop (fuel : nat) (rest : list ascii) (offset : Z)
         (idx : list VerseIndex) : option (list VerseIndex * list ascii) :=
  match fuel with
  | O => None
  | S fuel' =>
      if MAX_VERSES <=? length idx then Some (idx, rest)
      else
        let line_start := offset in
        let '(line, eof, offset', rest') := index_read_line rest [] offset in
        match line with
        | [] => if eof then Some (idx, rest')
                else index_loop fuel' rest' offset' idx        (* blank line *)
        | _ :: _ =>
            match strchr line PIPE with
            | None => if eof then Some (idx, rest')
                      else index_loop fuel' rest' offset' idx
            | Some p =>
                let rlen := if REF_LEN <=? p then REF_LEN - 1 else p in
                let idx' := idx ++ [mkVerseIndex line_start (firstn rlen line)] in
                if eof then Some (idx', rest')
                else index_loop fuel' rest' offset' idx'
            end
        end
  end.

Definition build_index (app : App) : bool * App :=
  match vfile app with
  | None => (false, set_index app [])
  | Some f =>
      let f0 := storage_file_seek f 0 in
      match index_loop (S (length (unread f0))) (unread f0) 0 [] with
      | Some (idx, rest) =>
          let app' := set_vfile (set_index app idx) (Some (mkFile (contents f) rest)) in
          (0 <? length idx, app')
      | None => (false, set_index app [])
      end
  end.

(** [read_line]: one line from the open file at the current position,
    [\r] dropped, the terminating [\n] consumed but not stored.  The
    returned count [li] is the length of the line. *)
Fixpoint read_line_loop (rest line : list ascii) (buf_sz : nat)
  : list ascii * list ascii :=
  if buf_sz - 1 <=? length line then (line, rest)
  else
    match rest with
    | [] => (line, [])
    | ch :: rest' =>
        if Ascii.eqb ch CR then read_line_loop rest' line buf_sz
        else if Ascii.eqb ch LF then (line, rest')
        else read_line_loop rest' (line ++ [ch]) buf_sz
    end.

Definition read_line (f : File) (buf_sz : nat) : list ascii * File :=
  let '(line, rest) := read_line_loop (unread f) [] buf_sz in
  (line, mkFile (contents f) rest).

(** [parse_line] with all three output buffers present, each of at
    least one byte as in its call: [None] is the [false] result. *)
Definition parse_line (line : list ascii) (ref_sz book_sz text_sz : nat)
  : option (list ascii * list ascii * list ascii) :=
  match strchr line PIPE with
  | None => None
  | Some p1 =>
      let after1 := skipn (S p1) line in
      match strchr after1 PIPE with
      | None => None
      | Some blen =>
          let rlen := p1 in
          let after2 := skipn (S blen) after1 in
          let tlen := length (c_str after2) in
          Some (firstn (Nat.min rlen (ref_sz - 1)) line,
                firstn (Nat.min blen (book_sz - 1)) after1,
                firstn (Nat.min tlen (text_sz - 1)) after2)
      end
  end.

(** [read_verse_text]: the text of verse [idx], by seeking to its offset. *)
Definition read_verse_text (app : App) (idx : Z) (buf_sz : nat)
  : option (list ascii) * App :=
  match vfile app with
  | None => (None, app)
  | Some f =>
      if (Z.of_nat (verse_count app) <=? idx)%Z then (None, app)
      else
        match nth_error (index app) (Z.to_nat idx) with
        | None => (None, app)
        | Some vi =>
            let f1 := storage_file_seek f (offset vi) in
            let '(line, f2) := read_line f1 LINE_BUF_LEN in
            let app' := set_vfile app (Some f2) in
            match parse_line line REF_LEN 32 buf_sz with
            | Some (_, _, text) => (Some text, app')
            | None => (None, app')
            end
        end
  end.

(* ================================================================== *)
(** * General utilities: [icontains] and [word_wrap] *)
(* ================================================================== *)

(** [if(a >= 'A' && a <= 'Z') a += 32;] *)
Definition to_lower (a : ascii) : ascii :=
  let n := nat_of_ascii a in
  if (65 <=? n) && (n <=? 90) then ascii_of_nat (n + 32) else a.

(** The inner [for(j)] loop; [h] is [hay + i]. *)
Fixpoint match_here (h needle : list ascii) : bool :=
  match needle with
  | [] => true
  | b :: needle' =>
      match h with
      | [] => false
      | a :: h' =>
          if Ascii.eqb (to_lower a) (to_lower b) then match_here h' needle'
          else false
      end
  end.

(** The outer [for(i = 0; i <= hlen - nlen; i++)] loop; [steps] counts the
    positions still to try and [h] is [hay + i]. *)
Fixpoint icontains_loop (steps : nat) (h needle : list ascii) : bool :=
  match steps with
  | O => false
  | S steps' =>
      if match_here h needle then true
      else match h with
           | [] => false
           | _ :: h' => icontains_loop steps' h' needle
           end
  end.

Definition icontains (hay needle : list ascii) : bool :=
  let h := c_str hay in
  let n := c_str needle in
  match n with
  | [] => false
  | _ :: _ =>
      if length h <? length n then false
      else icontains_loop (length h - length n + 1) h n
  end.

(** [while(brk > 0 && text[pos + brk] != ' ') brk--;] with [s = text + pos]. *)
Fixpoint scan_break (s : list ascii) (brk : nat) : nat :=
  match brk with
  | O => O
  | S brk' => if Ascii.eqb (nth brk s NUL) SPC then brk else scan_break s brk'
  end.

(** [brk = cols; while(...) brk--; if(!brk) brk = cols;] *)
Definition break_at (s : list ascii) (cols : nat) : nat :=
  let brk := scan_break s cols in
  if brk =? 0 then cols else brk.

(** [if(pos < len && text[pos] == ' ') pos++;] *)
Definition skip_space (s : list ascii) : list ascii :=
  match s with
  | c :: s' => if Ascii.eqb c SPC then s' else s
  | [] => []
  end.

(** The [while(pos < len && w->count < WRAP_MAX_LINES)] loop of
    [word_wrap]; [s] is [text + pos] and [slots] is
    [WRAP_MAX_LINES - w->count]. *)
Fixpoint wrap_loop (slots : nat) (s : list ascii) (cols : nat)
  : list (list ascii) :=
  match slots with
  | O => []
  | S slots' =>
      match s with
      | [] => []
      | _ :: _ =>
          if length s <=? cols then [s]
          else
            let brk := break_at s cols in
            firstn brk s :: wrap_loop slots' (skip_space (skipn brk s)) cols
      end
  end.

Definition clamp_cols (cols : Z) : nat :=
  let cols := if (cols <? 1)%Z then 1%Z else cols in
  let cols := if (Z.of_nat WRAP_LINE_LEN <? cols)%Z then Z.of_nat WRAP_LINE_LEN else cols in
  Z.to_nat cols.

Definition word_wrap (text : list ascii) (cols : Z) : WrapState :=
  mkWrap (wrap_loop WRAP_MAX_LINES (c_str text) (clamp_cols cols)) 0.

(** Wrapped lines put back into one text, a single space between
    consecutive lines. *)
Fixpoint join_lines (ls : list (list ascii)) : list ascii :=
  match ls with
  | [] => []
  | [l] => l
  | l :: ls' => l ++ SPC :: join_lines ls'
  end.

(* ================================================================== *)
(** * Search *)
(* ================================================================== *)

(** The [while(verse_num < verse_count && hits.count < MAX_SEARCH_RESULTS)]
    loop of [do_search].  [verse_num] stays below [verse_count], a
    [uint16_t], so its increment never wraps. *)
Fixpoint search_loop (fuel : nat) (rest : list ascii) (verse_num : Z)
         (found : list Z) (vcount : Z) (needle : list ascii)
  : option (list Z * list ascii) :=
  match fuel with
  | O => None
  | S fuel' =>
      if (verse_num <? vcount)%Z && (length found <? MAX_SEARCH_RESULTS) then
        let '(line, rest1) := read_line_loop rest [] LINE_BUF_LEN in
        match line with
        | [] =>
            (* one more byte, to tell a blank line from EOF *)
            match rest1 with
            | [] => Some (found, [])
            | _ :: rest2 => search_loop fuel' rest2 verse_num found vcount needle
            end
        | _ :: _ =>
            let found' := if icontains line needle then found ++ [verse_num]
                          else found in
            search_loop fuel' rest1 (verse_num + 1)%Z found' vcount needle
        end
      else Some (found, rest)
  end.

Definition do_search (app : App) : App :=
  let app := set_hits app (mkHits [] 0) in
  if (search_len app =? 0)%Z then app
  else
    match vfile app with
    | None => app
    | Some f =>
        let f0 := storage_file_seek f 0 in
        match search_loop (S (length (unread f0))) (unread f0) 0
                          [] (Z.of_nat (verse_count app)) (search_buf app) with
        | Some (found, rest) =>
            set_vfile (set_hits app (mkHits found 0))
                      (Some (mkFile (contents f) rest))
        | None => app
        end
    end.

(** The lines to which the loop of [do_search] gives the ordinals
    0, 1, 2, ...: what its successive [read_line] calls return, blank
    results (and the byte read after each) left out. *)
Fixpoint counted_lines_loop (fuel : nat) (rest : list ascii)
  : list (list ascii) :=
  match fuel with
  | O => []
  | S fuel' =>
      let '(line, rest1) := read_line_loop rest [] LINE_BUF_LEN in
      match line with
      | [] => match rest1 with
              | [] => []
              | _ :: rest2 => counted_lines_loop fuel' rest2
              end
      | _ :: _ => line :: counted_lines_loop fuel' rest1
      end
  end.

Definition counted_lines (file : list ascii) : list (list ascii) :=
  counted_lines_loop (S (length file)) file.

(** A corpus given line by line, every line closed by [\n]. *)
Definition corpus_of_lines (ls : list (list ascii)) : list ascii :=
  concat (map (fun l => l ++ [LF]) ls).

(** A line that [read_line] returns as it stands: not blank, free of
    [\r] and [\n], shorter than the line buffer. *)
Definition whole_line (l : list ascii) : Prop :=
  l <> [] /\ Forall (fun c => c <> CR /\ c <> LF) l /\ length l < LINE_BUF_LEN - 1.

(** [q] occurs in [line] up to ASCII case. *)
Definition contains_ci (line q : list ascii) : Prop :=
  exists pre mid post,
    line = pre ++ mid ++ post /\ map to_lower mid = map to_lower q.

(* ================================================================== *)
(** * The C library's number conversions *)
(* ================================================================== *)

(** [isspace] and [isdigit] in the C locale. *)
Definition is_space (c : ascii) : bool :=
  let n := nat_of_ascii c in (n =? 32) || ((9 <=? n) && (n <=? 13)).

Definition is_digit (c : ascii) : bool :=
  let n := nat_of_ascii c in (48 <=? n) && (n <=? 57).

Fixpoint skip_spaces (s : list ascii) : list ascii :=
  match s with
  | c :: s' => if is_space c then skip_spaces s' else s
  | [] => []
  end.

(** Value of the longest run of decimal digits at the head of [s]. *)
Fixpoint digits_value (s : list ascii) (acc : Z) : Z :=
  match s with
  | c :: s' =>
      if is_digit c
      then digits_value s' (acc * 10 + (Z.of_nat (nat_of_ascii c) - 48))%Z
      else acc
  | [] => acc
  end.

(** [atoi]: white space, an optional sign, decimal digits; anything after
    them is ignored and no digits at all give 0.  [int] is 32 bits wide;
    values beyond its range, which ISO C leaves undefined, saturate as
    they do in an [atoi] that is [(int)strtol(s, NULL, 10)]. *)
Definition atoi (s : list ascii) : Z :=
  let s := skip_spaces (c_str s) in
  let v := match s with
           | c :: s' =>
               if Ascii.eqb c "-" then (- digits_value s' 0)%Z
               else if Ascii.eqb c "+" then digits_value s' 0
               else digits_value s 0
           | [] => 0%Z
           end in
  Z.max (- 2 ^ 31) (Z.min (2 ^ 31 - 1) v).

(** [strtoul(s, NULL, 10)] for a 32-bit [unsigned long]: the same syntax,
    the result saturating at [ULONG_MAX] and a minus sign negating it
    modulo 2^32. *)
Definition strtoul (s : list ascii) : Z :=
  let s := skip_spaces (c_str s) in
  let sat v := Z.min (2 ^ 32 - 1) v in
  match s with
  | c :: s' =>
      if Ascii.eqb c "-" then
        let v := digits_value s' 0 in
        if (2 ^ 32 - 1 <? v)%Z then (2 ^ 32 - 1)%Z else u32 (- v)
      else if Ascii.eqb c "+" then sat (digits_value s' 0)
      else sat (digits_value s 0)
  | [] => 0%Z
  end.

Definition digit_char (d : Z) : ascii := ascii_of_nat (48 + Z.to_nat d).

Fixpoint utoa_loop (fuel : nat) (n : Z) (acc : list ascii) : list ascii :=
  match fuel with
  | O => acc
  | S fuel' =>
      let acc' := digit_char (n mod 10) :: acc in
      if (n <? 10)%Z then acc' else utoa_loop fuel' (n / 10) acc'
  end.

(** What [printf] writes for [%u] and [%lu] (and for [%d] of a value that
    is not negative): the decimal digits of a 32-bit unsigned value, which
    are ten at most. *)
Definition utoa (n : Z) : list ascii := utoa_loop 10 (u32 n) [].

(** [len = snprintf(buf, size, ...); if(len > 0) storage_file_write(f, buf, len);]
    for the formatted text [s].  A text that does not fit is cut to
    [size - 1] bytes and a NUL; the bytes the C code would then read past
    the end of [buf] are left out.  No caller in the source reaches that
    case for the values its fields can hold. *)
Definition snprintf_write (size : nat) (s : list ascii) : list ascii :=
  if length s <? size then s else firstn (size - 1) s ++ [NUL].

(* ================================================================== *)
(** * Bookmarks *)
(* ================================================================== *)

Definition set_bm_file (st : Storage) (data : list ascii) : Storage :=
  mkStorage (sd_writable st) (Some data) (settings_file st).

Definition set_settings_file (st : Storage) (data : list ascii) : Storage :=
  mkStorage (sd_writable st) (bm_file st) (Some data).

(** The bytes [bmarks_save] writes: one ["%u\n"] record per bookmark. *)
Definition bmarks_text (idx : list Z) : list ascii :=
  concat (map (fun v => snprintf_write 8 (utoa v ++ [LF])) idx).

Definition bmarks_save (app : App) : App :=
  if sd_writable (storage app)
  then set_storage app (set_bm_file (storage app) (bmarks_text (bm_idx (bmarks app))))
  else app.

(** One parsed bookmark line: [v = (uint16_t)atoi(buf); if(v < verse_count) ...]. *)
Definition bmarks_push (buf : list ascii) (idx : list Z) (vcount : Z) : list Z :=
  let v := u16 (atoi buf) in
  if (v <? vcount)%Z then idx ++ [v] else idx.

(** The [while(app->bmarks.count < MAX_BOOKMARKS)] loop of [bmarks_load],
    one byte of the file per iteration; [bi = length buf] and
    [sizeof(buf) - 1 = 7]. *)
Fixpoint bmarks_loop (rest buf : list ascii) (idx : list Z) (vcount : Z)
  : list Z :=
  if MAX_BOOKMARKS <=? length idx then idx
  else
    match rest with
    | [] => if 0 <? length buf then bmarks_push buf idx vcount else idx
    | ch :: rest' =>
        if Ascii.eqb ch LF || Ascii.eqb ch CR then
          if 0 <? length buf
          then bmarks_loop rest' [] (bmarks_push buf idx vcount) vcount
          else bmarks_loop rest' buf idx vcount
        else if length buf <? 7 then bmarks_loop rest' (buf ++ [ch]) idx vcount
        else bmarks_loop rest' buf idx vcount
    end.

Definition bmarks_load (app : App) : App :=
  let sel := bm_sel (bmarks app) in
  match bm_file (storage app) with
  | None => set_bmarks app (mkBmarks [] sel)
  | Some data =>
      set_bmarks app
        (mkBmarks (bmarks_loop data [] [] (Z.of_nat (verse_count app))) sel)
  end.

Definition is_bookmarked (app : App) (vi : Z) : bool :=
  existsb (Z.eqb vi) (bm_idx (bmarks app)).

(** The removal in [toggle_bmark]: the first [i] with [idx[i] == vi] is
    found and the entries after it move down by one. *)
Fixpoint remove_first (vi : Z) (idx : list Z) : option (list Z) :=
  match idx with
  | [] => None
  | x :: idx' =>
      if (x =? vi)%Z then Some idx'
      else option_map (cons x) (remove_first vi idx')
  end.

Definition toggle_bmark (app : App) (vi : Z) : App :=
  let bm := bmarks app in
  match remove_first vi (bm_idx bm) with
  | Some idx' => bmarks_save (set_bmarks app (mkBmarks idx' (bm_sel bm)))
  | None =>
      if length (bm_idx bm) <? MAX_BOOKMARKS
      then bmarks_save (set_bmarks app (mkBmarks (bm_idx bm ++ [vi]) (bm_sel bm)))
      else app
  end.

(* ================================================================== *)
(** * Settings *)
(* ================================================================== *)

(** Translation codes of [API_TRANSLATIONS]. *)
Definition API_TRANSLATIONS : list (list ascii) :=
  [lit "web"; lit "kjv"; lit "asv"; lit "bbe"; lit "darby"; lit "dra";
   lit "ylt"; lit "webbe"; lit "oeb-us"].

(** [slash = strrchr(path, '/'); fname = slash ? slash + 1 : path]. *)
Definition basename (p : list ascii) : list ascii :=
  match strrchr p SLASH with
  | Some i => c_str (skipn (S i) p)
  | None => c_str p
  end.

Definition empty_vfile : VerseFile := mkVerseFile [] [].

(** One [key=value] record, formatted through the 96-byte [buf]. *)
Definition setting_record (key : string) (value : list ascii) : list ascii :=
  snprintf_write 96 (lit key ++ value ++ [LF]).

(** The bytes [settings_save] writes. *)
Definition settings_text (app : App) : list ascii :=
  let fname := basename (path (nth (Z.to_nat (vfile_sel app)) (vfiles app) empty_vfile)) in
  setting_record "verse_file=" fname ++
  setting_record "font_size=" (utoa (font_to_int (font_choice app))) ++
  setting_record "api_trans=" (nth (Z.to_nat (api_trans_sel app)) API_TRANSLATIONS []) ++
  setting_record "api_book=" (utoa (api_book_sel app)) ++
  setting_record "api_chapter=" (utoa (api_chapter_sel app)) ++
  setting_record "api_verse=" (utoa (api_verse_sel app)) ++
  setting_record "daily_idx=" (utoa (daily_verse_idx app)) ++
  setting_record "daily_day=" (utoa (daily_verse_day app)).

Definition settings_save (app : App) : App :=
  if sd_writable (storage app)
  then set_storage app (set_settings_file (storage app) (settings_text app))
  else app.

(** The inner byte loop of [settings_load], [sizeof(line) - 1 = 95].
    Returns the line, the [done] flag and the bytes left. *)
Fixpoint settings_read_line (rest line : list ascii)
  : list ascii * bool * list ascii :=
  if 95 <=? length line then (line, false, rest)
  else
    match rest with
    | [] => (line, true, [])
    | ch :: rest' =>
        if Ascii.eqb ch CR then settings_read_line rest' line
        else if Ascii.eqb ch LF then (line, false, rest')
        else settings_read_line rest' (line ++ [ch])
    end.

(** First slot [i] for which [test] holds of entry [i]; the [for] loops
    with [break] of [settings_load]. *)
Fixpoint find_slot {A : Type} (test : A -> bool) (l : list A) (i : Z) : option Z :=
  match l with
  | [] => None
  | x :: l' => if test x then Some i else find_slot test l' (i + 1)%Z
  end.

(** What [settings_load] does with one non-empty line. *)
Definition apply_setting (app : App) (line : list ascii) : App :=
  match strchr line EQS with
  | None => app
  | Some p =>
      let key := firstn p line in
      let val := skipn (S p) line in
      if str_eq key (lit "verse_file") then
        match find_slot (fun vf => str_eq (basename (path vf)) val) (vfiles app) 0 with
        | Some i => set_vfile_sel app i
        | None => app
        end
      else if str_eq key (lit "font_size") then
        let v := atoi val in
        if (0 <=? v)%Z && (v <? FONT_COUNT)%Z
        then set_font_choice app (font_of_int v) else app
      else if str_eq key (lit "api_trans") then
        match find_slot (fun code => str_eq val code) API_TRANSLATIONS 0 with
        | Some i => set_api_trans_sel app i
        | None => app
        end
      else if str_eq key (lit "api_book") then
        let v := atoi val in
        if (0 <=? v)%Z && (v <? Z.of_nat BIBLE_BOOKS_COUNT)%Z
        then set_api_book_sel app v else app
      else if str_eq key (lit "api_chapter") then
        let v := atoi val in
        if (1 <=? v)%Z && (v <=? 150)%Z then set_api_chapter_sel app v else app
      else if str_eq key (lit "api_verse") then
        let v := atoi val in
        if (1 <=? v)%Z && (v <=? 176)%Z then set_api_verse_sel app v else app
      else if str_eq key (lit "daily_idx") then
        let v := atoi val in
        if (0 <=? v)%Z && (v <? Z.of_nat MAX_VERSES)%Z
        then set_daily_verse_idx app v else app
      else if str_eq key (lit "daily_day") then
        set_daily_verse_day app (strtoul val)
      else app
  end.

(** The [while(!done)] loop of [settings_load]. *)
Fixpoint settings_loop (fuel : nat) (rest : list ascii) (app : App)
  : option App :=
  match fuel with
  | O => None
  | S fuel' =>
      let '(line, done, rest') := settings_read_line rest [] in
      let app' := match line with
                  | [] => app
                  | _ :: _ => apply_setting app line
                  end in
      if done then Some app' else settings_loop fuel' rest' app'
  end.

(** [settings_load] once the settings file is open, [data] being what
    the file holds. *)
Definition settings_load_bytes (app : App) (data : list ascii) : App :=
  match settings_loop (S (length data)) data app with
  | Some app' => app'
  | None => app
  end.

Definition settings_load (app : App) : App :=
  match settings_file (storage app) with
  | None => app
  | Some data => settings_load_bytes app data
  end.

(** The state [bible_viewer_app] holds when it calls [settings_load]:
    zeroed by [memset], the corpus table filled in by
    [discover_verse_files]. *)
Definition startup_app (st : Storage) (files : list VerseFile) : App :=
  mkApp st [] files 0 None [] 0 (mkHits [] 0) (mkBmarks [] 0)
        FONT_SECONDARY 0 0 0 0 0 0 0 0.
(* ================================================================== *)
(** * Book, chapter and verse bounds *)
(* ================================================================== *)

Record BibleBook : Set := mkBook {
  name : list ascii;
  chapters : Z
}.

Definition BIBLE_BOOKS : list BibleBook :=
  [mkBook (lit "Genesis") 50; mkBook (lit "Exodus") 40;
   mkBook (lit "Leviticus") 27; mkBook (lit "Numbers") 36;
   mkBook (lit "Deuteronomy") 34; mkBook (lit "Joshua") 24;
   mkBook (lit "Judges") 21; mkBook (lit "Ruth") 4;
   mkBook (lit "1 Samuel") 31; mkBook (lit "2 Samuel") 24;
   mkBook (lit "1 Kings") 22; mkBook (lit "2 Kings") 25;
   mkBook (lit "1 Chronicles") 29; mkBook (lit "2 Chronicles") 36;
   mkBook (lit "Ezra") 10; mkBook (lit "Nehemiah") 13;
   mkBook (lit "Esther") 10; mkBook (lit "Job") 42;
   mkBook (lit "Psalms") 150; mkBook (lit "Proverbs") 31;
   mkBook (lit "Ecclesiastes") 12; mkBook (lit "Song of Solomon") 8;
   mkBook (lit "Isaiah") 66; mkBook (lit "Jeremiah") 52;
   mkBook (lit "Lamentations") 5; mkBook (lit "Ezekiel") 48;
   mkBook (lit "Daniel") 12; mkBook (lit "Hosea") 14;
   mkBook (lit "Joel") 3; mkBook (lit "Amos") 9;
   mkBook (lit "Obadiah") 1; mkBook (lit "Jonah") 4;
   mkBook (lit "Micah") 7; mkBook (lit "Nahum") 3;
   mkBook (lit "Habakkuk") 3; mkBook (lit "Zephaniah") 3;
   mkBook (lit "Haggai") 2; mkBook (lit "Zechariah") 14;
   mkBook (lit "Malachi") 4; mkBook (lit "Matthew") 28;
   mkBook (lit "Mark") 16; mkBook (lit "Luke") 24;
   mkBook (lit "John") 21; mkBook (lit "Acts") 28;
   mkBook (lit "Romans") 16; mkBook (lit "1 Corinthians") 16;
   mkBook (lit "2 Corinthians") 13; mkBook (lit "Galatians") 6;
   mkBook (lit "Ephesians") 6; mkBook (lit "Philippians") 4;
   mkBook (lit "Colossians") 4; mkBook (lit "1 Thessalonians") 5;
   mkBook (lit "2 Thessalonians") 3; mkBook (lit "1 Timothy") 6;
   mkBook (lit "2 Timothy") 4; mkBook (lit "Titus") 3;
   mkBook (lit "Philemon") 1; mkBook (lit "Hebrews") 13;
   mkBook (lit "James") 5; mkBook (lit "1 Peter") 5;
   mkBook (lit "2 Peter") 3; mkBook (lit "1 John") 5;
   mkBook (lit "2 John") 1; mkBook (lit "3 John") 1;
   mkBook (lit "Jude") 1; mkBook (lit "Revelation") 22]%Z.

(** Verse counts for every chapter of every book, one entry per chapter. *)
Definition VERSE_COUNTS : list Z :=
  [(* Genesis *)
   31; 25; 24; 26; 32; 22; 24; 22; 29; 32;
   32; 20; 18; 24; 21; 16; 27; 33; 38; 18;
   34; 24; 20; 67; 34; 35; 46; 22; 35; 43;
   55; 32; 20; 31; 29; 43; 36; 30; 23; 23;
   57; 38; 34; 34; 28; 34; 31; 22; 33; 26;
   (* Exodus *)
   22; 25; 22; 31; 23; 30; 25; 32; 35; 29;
   10; 51; 22; 31; 27; 36; 16; 27; 25; 26;
   36; 31; 33; 18; 40; 37; 21; 43; 46; 38;
   18; 35; 23; 35; 35; 38; 29; 31; 43; 38;
   (* Leviticus *)
   17; 16; 17; 35; 19; 30; 38; 36; 24; 20;
   47; 8; 59; 57; 33; 34; 16; 30; 24; 16;
   15; 49; 52; 45; 23; 26; 20;
   (* Numbers *)
   54; 34; 51; 49; 31; 27; 89; 26; 23; 36;
   35; 16; 33; 45; 41; 50; 13; 32; 22; 29;
   35; 41; 30; 25; 18; 65; 23; 31; 40; 16;
   54; 42; 56; 29; 34; 13;
   (* Deuteronomy *)
   46; 37; 29; 49; 33; 25; 26; 20; 29; 22;
   32; 32; 18; 29; 23; 22; 20; 22; 21; 20;
   23; 30; 25; 22; 19; 19; 26; 68; 29; 20;
   30; 52; 29; 12;
   (* Joshua *)
   18; 24; 17; 24; 15; 27; 26; 35; 27; 43;
   23; 24; 33; 15; 63; 10; 18; 28; 51; 9;
   45; 34; 16; 33;
   (* Judges *)
   36; 23; 31; 24; 31; 40; 25; 35; 57; 18;
   40; 15; 25; 20; 20; 31; 13; 31; 30; 48;
   25;
   (* Ruth *)
   22; 23; 18; 22;
   (* 1 Samuel *)
   28; 36; 21; 22; 12; 21; 17; 22; 27; 27;
   15; 25; 23; 52; 35; 23; 58; 30; 24; 42;
   15; 23; 29; 22; 44; 25; 12; 25; 11; 31;
   13;
   (* 2 Samuel *)
   27; 32; 39; 12; 25; 23; 29; 18; 13; 19;
   27; 31; 39; 33; 37; 23; 29; 33; 43; 26;
   22; 51; 39; 25;
   (* 1 Kings *)
   53; 46; 28; 34; 18; 38; 51; 66; 28; 29;
   43; 33; 34; 31; 34; 34; 24; 46; 21; 43;
   29; 53;
   (* 2 Kings *)
   18; 25; 27; 44; 27; 33; 20; 29; 37; 36;
   21; 21; 25; 29; 38; 20; 41; 37; 37; 21;
   26; 20; 37; 20; 30;
   (* 1 Chronicles *)
   54; 55; 24; 43; 26; 81; 40; 40; 44; 14;
   47; 40; 14; 17; 29; 43; 27; 17; 19; 8;
   30; 19; 32; 31; 31; 32; 34; 21; 30;
   (* 2 Chronicles *)
   17; 18; 17; 22; 14; 42; 22; 18; 31; 19;
   23; 16; 22; 15; 19; 14; 19; 34; 11; 37;
   20; 12; 21; 27; 28; 23; 9; 27; 36; 27;
   21; 33; 25; 33; 27; 23;
   (* Ezra *)
   11; 70; 13; 24; 17; 22; 28; 36; 15; 44;
   (* Nehemiah *)
   11; 20; 32; 23; 19; 19; 73; 18; 38; 39;
   36; 47; 31;
   (* Esther *)
   22; 23; 15; 17; 14; 14; 10; 17; 32; 3;
   (* Job *)
   22; 13; 26; 21; 27; 30; 21; 22; 35; 22;
   20; 25; 28; 22; 35; 22; 16; 21; 29; 29;
   34; 30; 17; 25; 6; 14; 23; 28; 25; 31;
   40; 22; 33; 37; 16; 33; 24; 41; 30; 24;
   34; 17;
   (* Psalms *)
   6; 12; 8; 8; 12; 10; 17; 9; 20; 18;
   7; 8; 6; 7; 5; 11; 15; 50; 14; 9;
   13; 31; 6; 10; 22; 12; 14; 9; 11; 12;
   24; 11; 22; 22; 28; 12; 40; 22; 13; 17;
   13; 11; 5; 20; 28; 22; 35; 22; 46; 18;
   16; 18; 12; 5; 12; 20; 12; 23; 11; 13;
   12; 9; 9; 5; 8; 28; 22; 35; 45; 48;
   43; 13; 31; 7; 10; 10; 9; 8; 18; 19;
   2; 29; 18; 7; 8; 9; 4; 8; 5; 6;
   5; 6; 8; 8; 3; 18; 3; 3; 21; 26;
   9; 8; 24; 13; 10; 7; 12; 15; 21; 10;
   20; 14; 9; 6; 7; 23; 11; 13; 176; 9;
   8; 9; 4; 8; 5; 6; 5; 3; 8; 8;
   3; 18; 3; 3; 21; 26; 9; 8; 24; 13;
   10; 7; 12; 15; 21; 10; 20; 14; 9; 6;
   (* Proverbs *)
   33; 22; 35; 27; 23; 35; 27; 36; 18; 32;
   31; 28; 25; 35; 33; 33; 28; 24; 29; 30;
   31; 29; 35; 34; 28; 28; 27; 28; 27; 33;
   31;
   (* Ecclesiastes *)
   18; 26; 22; 16; 20; 12; 29; 17; 18; 20;
   10; 14;
   (* Song of Solomon *)
   17; 17; 11; 16; 16; 13; 13; 14;
   (* Isaiah *)
   31; 22; 26; 6; 30; 13; 25; 22; 21; 34;
   16; 6; 22; 32; 9; 14; 14; 7; 25; 6;
   17; 25; 18; 23; 12; 21; 13; 29; 24; 33;
   9; 20; 24; 17; 10; 22; 38; 22; 8; 31;
   29; 25; 28; 28; 25; 13; 15; 22; 26; 11;
   23; 15; 12; 17; 13; 12; 21; 14; 21; 22;
   11; 12; 19; 12; 25; 24;
   (* Jeremiah *)
   19; 37; 25; 31; 31; 30; 34; 22; 26; 25;
   23; 17; 27; 22; 21; 21; 27; 23; 15; 18;
   14; 30; 40; 10; 38; 24; 22; 17; 32; 24;
   40; 44; 26; 22; 19; 32; 21; 28; 18; 16;
   18; 22; 13; 30; 5; 28; 7; 47; 39; 46;
   64; 34;
   (* Lamentations *)
   22; 22; 66; 22; 22;
   (* Ezekiel *)
   28; 10; 27; 17; 17; 14; 27; 18; 11; 22;
   25; 28; 23; 23; 8; 63; 24; 32; 14; 49;
   32; 31; 49; 27; 17; 21; 36; 26; 21; 26;
   18; 32; 33; 31; 15; 38; 28; 23; 29; 49;
   26; 20; 27; 31; 25; 24; 23; 35;
   (* Daniel *)
   21; 49; 30; 37; 31; 28; 28; 27; 27; 21;
   45; 13;
   (* Hosea *)
   11; 23; 5; 19; 15; 11; 16; 14; 17; 15;
   12; 14; 16; 9;
   (* Joel *)
   20; 32; 21;
   (* Amos *)
   15; 16; 15; 13; 27; 14; 17; 14; 15;
   (* Obadiah *)
   21;
   (* Jonah *)
   17; 10; 10; 11;
   (* Micah *)
   16; 13; 12; 13; 15; 16; 20;
   (* Nahum *)
   15; 13; 19;
   (* Habakkuk *)
   17; 20; 19;
   (* Zephaniah *)
   18; 15; 20;
   (* Haggai *)
   15; 23;
   (* Zechariah *)
   21; 13; 10; 14; 11; 15; 14; 23; 17; 12;
   17; 14; 9; 21;
   (* Malachi *)
   14; 17; 18; 6;
   (* Matthew *)
   25; 23; 17; 25; 48; 34; 29; 34; 38; 42;
   30; 50; 58; 36; 39; 28; 27; 35; 30; 34;
   46; 46; 39; 51; 46; 75; 66; 20;
   (* Mark *)
   45; 28; 35; 41; 43; 56; 37; 38; 50; 52;
   33; 44; 37; 72; 47; 20;
   (* Luke *)
   80; 52; 38; 44; 39; 49; 50; 56; 62; 42;
   54; 59; 35; 35; 32; 31; 37; 43; 48; 47;
   38; 71; 56; 53;
   (* John *)
   51; 25; 36; 54; 47; 71; 53; 59; 41; 42;
   57; 50; 38; 31; 27; 33; 26; 40; 42; 31;
   25;
   (* Acts *)
   26; 47; 26; 37; 42; 15; 60; 40; 43; 48;
   30; 25; 52; 28; 41; 40; 34; 28; 41; 38;
   40; 30; 35; 27; 27; 32; 44; 31;
   (* Romans *)
   32; 29; 31; 25; 21; 23; 25; 39; 33; 21;
   36; 21; 14; 26; 33; 24;
   (* 1 Corinthians *)
   31; 16; 23; 21; 13; 20; 40; 13; 27; 33;
   34; 31; 13; 40; 58; 24;
   (* 2 Corinthians *)
   24; 17; 18; 18; 21; 18; 16; 24; 15; 18;
   33; 21; 14;
   (* Galatians *)
   24; 21; 29; 31; 26; 18;
   (* Ephesians *)
   23; 22; 21; 28; 30; 14;
   (* Philippians *)
   30; 30; 21; 23;
   (* Colossians *)
   29; 23; 25; 18;
   (* 1 Thessalonians *)
   10; 20; 13; 18; 28;
   (* 2 Thessalonians *)
   12; 17; 18;
   (* 1 Timothy *)
   20; 15; 16; 16; 25; 21;
   (* 2 Timothy *)
   18; 26; 17; 22;
   (* Titus *)
   16; 15; 15;
   (* Philemon *)
   25;
   (* Hebrews *)
   14; 18; 19; 16; 14; 20; 28; 13; 28; 39;
   40; 29; 25;
   (* James *)
   27; 26; 18; 17; 20;
   (* 1 Peter *)
   25; 25; 22; 19; 14;
   (* 2 Peter *)
   21; 22; 18;
   (* 1 John *)
   10; 29; 24; 21; 21;
   (* 2 John *)
   13;
   (* 3 John *)
   14;
   (* Jude *)
   25;
   (* Revelation *)
   20; 29; 22; 11; 14; 17; 17; 13; 21; 11;
   19; 17; 18; 20; 8; 21; 18; 24; 21; 15;
   27; 21]%Z.

(** Start index in [VERSE_COUNTS] of the first chapter of each book. *)
Definition VERSE_COUNT_OFFSET : list Z :=
  [0; 50; 90; 117; 153; 187; 211; 232; 236; 267;
   291; 313; 338; 367; 403; 413; 426; 436; 478; 628;
   659; 671; 679; 745; 797; 802; 850; 862; 876; 879;
   888; 889; 893; 900; 903; 906; 909; 911; 925; 929;
   957; 973; 997; 1018; 1046; 1062; 1078; 1091; 1097; 1103;
   1107; 1111; 1116; 1119; 1125; 1129; 1132; 1133; 1146; 1151;
   1156; 1159; 1164; 1165; 1166; 1167]%Z.


Definition book_chapters (book : Z) : Z :=
  chapters (nth (Z.to_nat book) BIBLE_BOOKS (mkBook [] 0)).

(** Number of verses in a book (0-based) and chapter (1-based). *)
Definition book_chapter_verses (book chapter : Z) : Z :=
  nth (Z.to_nat (nth (Z.to_nat book) VERSE_COUNT_OFFSET 0%Z + chapter - 1))
      VERSE_COUNTS 0%Z.

(** The clamp that follows a book or chapter change in [on_api_menu]. *)
Definition clamp_verse (app : App) : App :=
  if (book_chapter_verses (api_book_sel app) (api_chapter_sel app) <? api_verse_sel app)%Z
  then set_api_verse_sel app (book_chapter_verses (api_book_sel app) (api_chapter_sel app))
  else app.

Definition clamp_chapter (app : App) : App :=
  if (book_chapters (api_book_sel app) <? api_chapter_sel app)%Z
  then set_api_chapter_sel app (book_chapters (api_book_sel app))
  else app.

(** [on_api_menu], [case InputKeyLeft]. *)
Definition api_menu_left (app : App) : App :=
  match api_menu_sel app with
  | 1 => (* Book: prev *)
      let app := if (0 <? api_book_sel app)%Z
                 then set_api_book_sel app (api_book_sel app - 1)
                 else set_api_book_sel app (Z.of_nat BIBLE_BOOKS_COUNT - 1) in
      clamp_verse (clamp_chapter app)
  | 2 => (* Chapter: prev *)
      let app := if (1 <? api_chapter_sel app)%Z
                 then set_api_chapter_sel app (api_chapter_sel app - 1)
                 else set_api_chapter_sel app (book_chapters (api_book_sel app)) in
      clamp_verse app
  | 3 => (* Verse: prev *)
      if (1 <? api_verse_sel app)%Z
      then set_api_verse_sel app (api_verse_sel app - 1)
      else set_api_verse_sel app
             (book_chapter_verses (api_book_sel app) (api_chapter_sel app))
  | _ => app
  end%Z.

(** [on_api_menu], [case InputKeyRight]. *)
Definition api_menu_right (app : App) : App :=
  match api_menu_sel app with
  | 1 => (* Book: next *)
      let app := if (api_book_sel app <? Z.of_nat BIBLE_BOOKS_COUNT - 1)%Z
                 then set_api_book_sel app (api_book_sel app + 1)
                 else set_api_book_sel app 0 in
      clamp_verse (clamp_chapter app)
  | 2 => (* Chapter: next *)
      let app := if (api_chapter_sel app <? book_chapters (api_book_sel app))%Z
                 then set_api_chapter_sel app (api_chapter_sel app + 1)
                 else set_api_chapter_sel app 1 in
      clamp_verse app
  | 3 => (* Verse: next *)
      if (api_verse_sel app <? book_chapter_verses (api_book_sel app) (api_chapter_sel app))%Z
      then set_api_verse_sel app (api_verse_sel app + 1)
      else set_api_verse_sel app 1
  | _ => app
  end%Z.

(* ================================================================== *)
(** * Concrete corpora used in the examples *)
(* ================================================================== *)

Definition genesis_line1 : list ascii := lit "Gen 1:1|Genesis|In the beginning...".
Definition genesis_line2 : list ascii := lit "Gen 1:2|Genesis|And the earth...".

(** Three physical lines, the second one blank. *)
Definition genesis_file : list ascii :=
  genesis_line1 ++ [LF] ++ [LF] ++ genesis_line2 ++ [LF].

(** A line without a delimiter ahead of one well-formed record. *)
Definition junk_file : list ascii :=
  lit "junk" ++ [LF] ++ lit "Gen 1:1|Genesis|In the beginning" ++ [LF].

(** One physical line of 322 bytes: a record whose text holds a [|]
    after byte 319. *)
Definition long_line : list ascii :=
  lit "Ref|Book|" ++ repeat "x"%char 310 ++ lit "a|b".

Definition long_line_file : list ascii := long_line ++ [LF].

Definition open_file (data : list ascii) : File := mkFile data data.

Definition blank_storage : Storage := mkStorage true None None.

(** An application state with [data] as its open corpus. *)
Definition app_with_corpus (data : list ascii) : App :=
  set_vfile (startup_app blank_storage []) (Some (open_file data)).

Definition set_search (app : App) (q : list ascii) : App :=
  mkApp (storage app) (index app) (vfiles app) (vfile_sel app) (vfile app)
        q (Z.of_nat (length (c_str q))) (hits app) (bmarks app)
        (font_choice app) (daily_verse_idx app) (daily_verse_day app)
        (api_trans_sel app) (api_menu_sel app) (api_menu_scroll app)
        (api_book_sel app) (api_chapter_sel app) (api_verse_sel app).

Definition set_api_menu_sel (app : App) (v : Z) : App :=
  mkApp (storage app) (index app) (vfiles app) (vfile_sel app) (vfile app)
        (search_buf app) (search_len app) (hits app) (bmarks app)
        (font_choice app) (daily_verse_idx app) (daily_verse_day app)
        (api_trans_sel app) v (api_menu_scroll app)
        (api_book_sel app) (api_chapter_sel app) (api_verse_sel app).

(** The picker on Genesis 1:1, as [on_main_menu] leaves it on first use. *)
Definition genesis_1_1 : App :=
  set_api_verse_sel (set_api_chapter_sel (startup_app blank_storage []) 1) 1.

(* ================================================================== *)
(** * Statements about the picker *)
(* ================================================================== *)

(** Every book has a chapter and every chapter a verse: checked over the
    whole of the tables. *)
Definition bounds_table_ok : bool :=
  forallb
    (fun b =>
       let book := Z.of_nat b in
       (1 <=? book_chapters book)%Z &&
       forallb (fun c => (1 <=? book_chapter_verses book (Z.of_nat c))%Z)
               (seq 1 (Z.to_nat (book_chapters book))))
    (seq 0 BIBLE_BOOKS_COUNT).


(** What a picker state looks like after the book was changed to [book']. *)
Definition book_changed (app app' : App) (book' : Z) : Prop :=
  api_book_sel app' = book' /\
  api_chapter_sel app' = Z.min (api_chapter_sel app) (book_chapters book') /\
  api_verse_sel app' =
    Z.min (api_verse_sel app) (book_chapter_verses book' (api_chapter_sel app')) /\
  (1 <= api_chapter_sel app' <= book_chapters book')%Z /\
  (1 <= api_verse_sel app' <= book_chapter_verses book' (api_chapter_sel app'))%Z.


(* ================================================================== *)
(** * Statements about the bookmark store *)
(* ================================================================== *)

(** Four records, one per line. *)
Definition psalm_file : list ascii :=
  lit "Ps 23:1|Psalms|The LORD is my shepherd; I shall not want." ++ [LF] ++
  lit "Ps 23:2|Psalms|He maketh me to lie down in green pastures" ++ [LF] ++
  lit "Ps 23:3|Psalms|He restoreth my soul" ++ [LF] ++
  lit "Ps 23:4|Psalms|Yea, though I walk through the valley" ++ [LF].

(** The state after start-up on a card holding [corpus] and the bookmark
    file [bm]: the index is built, then the bookmarks are loaded. *)
Definition app_started (corpus bm : list ascii) : App :=
  let app := set_vfile (startup_app (mkStorage true (Some bm) None) [])
                       (Some (open_file corpus)) in
  bmarks_load (snd (build_index app)).

Definition toggles (app : App) (xs : list Z) : App :=
  fold_left toggle_bmark xs app.



(** [psalm_file] indexed and ready for a search for [q]. *)
Definition psalm_search (q : list ascii) : App :=
  set_search (snd (build_index (app_with_corpus psalm_file))) q.

(* ================================================================== *)
(** * Statements about the settings store *)
(* ================================================================== *)

(** A settings file given line by line, every line closed by [\n]. *)
Definition settings_file_of (ls : list (list ascii)) : list ascii :=
  concat (map (fun l => l ++ [LF]) ls).

(** A line without [\r] and [\n] that fits the 96-byte line buffer. *)
Definition plain_line (l : list ascii) : Prop :=
  Forall (fun c => c <> CR /\ c <> LF) l /\ length l < 95.

Definition no_eol (l : list ascii) : bool :=
  forallb (fun c => negb (Ascii.eqb c CR) && negb (Ascii.eqb c LF)) l.

Definition corpus_name (vf : VerseFile) : list ascii := basename (path vf).

(** The settings are in their ranges: the selected corpus is one of the
    discovered files, which have distinct names, and its name has no line
    terminator and fits the 64-byte [fname] of [discover_verse_files];
    the translation and the book index their tables; chapter, verse and
    daily-verse index are within the bounds [settings_load] enforces; the
    day counter is a [uint32_t]. *)
Record settings_valid (app : App) : Prop := mkValid {
  valid_sel : (0 <= vfile_sel app < Z.of_nat (vfile_count app))%Z;
  valid_names : NoDup (map corpus_name (vfiles app));
  valid_name :
    plain_line (corpus_name (nth (Z.to_nat (vfile_sel app)) (vfiles app) empty_vfile)) /\
    length (corpus_name (nth (Z.to_nat (vfile_sel app)) (vfiles app) empty_vfile)) <= 63;
  valid_trans : (0 <= api_trans_sel app < Z.of_nat API_TRANS_COUNT)%Z;
  valid_book : (0 <= api_book_sel app < Z.of_nat BIBLE_BOOKS_COUNT)%Z;
  valid_chapter : (1 <= api_chapter_sel app <= 150)%Z;
  valid_verse : (1 <= api_verse_sel app <= 176)%Z;
  valid_daily_idx : (0 <= daily_verse_idx app < Z.of_nat MAX_VERSES)%Z;
  valid_daily_day : (0 <= daily_verse_day app < 2 ^ 32)%Z
}.

(** A persisted [key=value] line whose value is outside the range of its
    key: a number out of bounds, a corpus name that no discovered file
    has, a translation code that is not in the table. *)
Inductive out_of_range (files : list VerseFile) : list ascii -> Prop :=
| bad_font val :
    ~ (0 <= atoi val < FONT_COUNT)%Z ->
    out_of_range files (lit "font_size=" ++ val)
| bad_book val :
    ~ (0 <= atoi val < Z.of_nat BIBLE_BOOKS_COUNT)%Z ->
    out_of_range files (lit "api_book=" ++ val)
| bad_chapter val :
    ~ (1 <= atoi val <= 150)%Z ->
    out_of_range files (lit "api_chapter=" ++ val)
| bad_verse val :
    ~ (1 <= atoi val <= 176)%Z ->
    out_of_range files (lit "api_verse=" ++ val)
| bad_daily_idx val :
    ~ (0 <= atoi val < Z.of_nat MAX_VERSES)%Z ->
    out_of_range files (lit "daily_idx=" ++ val)
| bad_corpus val :
    Forall (fun vf => c_str (corpus_name vf) <> c_str val) files ->
    out_of_range files (lit "verse_file=" ++ val)
| bad_trans val :
    Forall (fun code => c_str val <> c_str code) API_TRANSLATIONS ->
    out_of_range files (lit "api_trans=" ++ val).

(** The fields [settings_save] writes. *)
Definition same_settings (a b : App) : Prop :=
  vfile_sel a = vfile_sel b /\
  font_choice a = font_choice b /\
  api_trans_sel a = api_trans_sel b /\
  api_book_sel a = api_book_sel b /\
  api_chapter_sel a = api_chapter_sel b /\
  api_verse_sel a = api_verse_sel b /\
  daily_verse_idx a = daily_verse_idx b /\
  daily_verse_day a = daily_verse_day b.

(** The loop body of [settings_load] for one line: an empty line is
    passed over. *)
Definition after_line (app : App) (line : list ascii) : App :=
  match line with
  | [] => app
  | _ :: _ => apply_setting app line
  end.

(** The lines of the file [settings_save] writes. *)
Definition settings_lines (app : App) : list (list ascii) :=
  [lit "verse_file=" ++
     corpus_name (nth (Z.to_nat (vfile_sel app)) (vfiles app) empty_vfile);
   lit "font_size=" ++ utoa (font_to_int (font_choice app));
   lit "api_trans=" ++ nth (Z.to_nat (api_trans_sel app)) API_TRANSLATIONS [];
   lit "api_book=" ++ utoa (api_book_sel app);
   lit "api_chapter=" ++ utoa (api_chapter_sel app);
   lit "api_verse=" ++ utoa (api_verse_sel app);
   lit "daily_idx=" ++ utoa (daily_verse_idx app);
   lit "daily_day=" ++ utoa (daily_verse_day app)].

(** A card with three corpora and a state whose settings have all been
    changed from their defaults. *)
Definition three_corpora : list VerseFile :=
  [mkVerseFile (lit "KJV (English)") (DATA_DIR ++ lit "/verses_en.txt");
   mkVerseFile (lit "Luther 1912 (DE)") (DATA_DIR ++ lit "/verses_de.txt");
   mkVerseFile (lit "Custom (fr)") (DATA_DIR ++ lit "/verses_fr.txt")].

Definition configured_app : App :=
  mkApp blank_storage [] three_corpora 2 None [] 0 (mkHits [] 0) (mkBmarks [] 0)
        FONT_LARGE 123 4294967295 7 0 0 18 119 176.

(* ================================================================== *)
(** * Statements about the offset counter *)
(* ================================================================== *)

(** Three records; between the first and the second, [n] carriage
    returns, which the line reader drops while the offset counts them. *)
Definition padded_file (n : nat) : list ascii :=
  lit "a|b" ++ LF :: repeat CR n ++ lit "c|d" ++ LF :: lit "e|f" ++ [LF].

(** 4 GiB less four bytes. *)
Definition wrap_gap : nat := Z.to_nat (2 ^ 32 - 4).

(* ================================================================== *)
(** * Statements about wrapping, the picker and the loaded settings *)
(* ================================================================== *)

(** [pieces ls s rest]: the text [s] is the lines [ls] in their order,
    each followed by nothing or by one space, and then [rest]. *)
Inductive pieces : list (list ascii) -> list ascii -> list ascii -> Prop :=
| pieces_nil rest : pieces [] rest rest
| pieces_tight l ls s rest :
    pieces ls s rest -> pieces (l :: ls) (l ++ s) rest
| pieces_space l ls s rest :
    pieces ls s rest -> pieces (l :: ls) (l ++ SPC :: s) rest.

(** A picker state that names a verse of the tables. *)
Definition valid_picker (app : App) : Prop :=
  (0 <= api_book_sel app < Z.of_nat BIBLE_BOOKS_COUNT)%Z /\
  (1 <= api_chapter_sel app <= book_chapters (api_book_sel app))%Z /\
  (1 <= api_verse_sel app <=
     book_chapter_verses (api_book_sel app) (api_chapter_sel app))%Z.

(** [b] differs from [a] in persisted settings only, and each setting
    that differs is within the range [settings_load] checks. *)
Record loaded_from (a b : App) : Prop := mkLoaded {
  loaded_storage : storage b = storage a;
  loaded_index : index b = index a;
  loaded_vfiles : vfiles b = vfiles a;
  loaded_vfile : vfile b = vfile a;
  loaded_search : search_buf b = search_buf a /\ search_len b = search_len a;
  loaded_hits : hits b = hits a;
  loaded_bmarks : bmarks b = bmarks a;
  loaded_menu : api_menu_sel b = api_menu_sel a /\
                api_menu_scroll b = api_menu_scroll a;
  loaded_sel : vfile_sel b = vfile_sel a \/
               (0 <= vfile_sel b < Z.of_nat (vfile_count a))%Z;
  loaded_trans : api_trans_sel b = api_trans_sel a \/
                 (0 <= api_trans_sel b < Z.of_nat API_TRANS_COUNT)%Z;
  loaded_book : api_book_sel b = api_book_sel a \/
                (0 <= api_book_sel b < Z.of_nat BIBLE_BOOKS_COUNT)%Z;
  loaded_chapter : api_chapter_sel b = api_chapter_sel a \/
                   (1 <= api_chapter_sel b <= 150)%Z;
  loaded_verse : api_verse_sel b = api_verse_sel a \/
                 (1 <= api_verse_sel b <= 176)%Z;
  loaded_daily_idx : daily_verse_idx b = daily_verse_idx a \/
                     (0 <= daily_verse_idx b < Z.of_nat MAX_VERSES)%Z;
  loaded_daily_day : daily_verse_day b = daily_verse_day a \/
                     (0 <= daily_verse_day b < 2 ^ 32)%Z
}.

(* ================================================================== *)
(** * Statements about the settings file, the corpus and the search *)
(* ================================================================== *)

(** The keys [settings_load] knows. *)
Definition SETTINGS_KEYS : list (list ascii) :=
  [lit "verse_file"; lit "font_size"; lit "api_trans"; lit "api_book";
   lit "api_chapter"; lit "api_verse"; lit "daily_idx"; lit "daily_day"].

(** A line that has no [=], or whose key is none of the eight. *)
Definition unknown_line (line : list ascii) : Prop :=
  match strchr line EQS with
  | None => True
  | Some p => Forall (fun k => c_str (firstn p line) <> k) SETTINGS_KEYS
  end.

(** A field of a record: free of the delimiter and of NUL. *)
Definition field (s : list ascii) : Prop :=
  Forall (fun a => a <> PIPE /\ a <> NUL) s.

(** Byte position at which line [i] of a corpus starts. *)
Definition line_start (ls : list (list ascii)) (i : nat) : Z :=
  Z.of_nat (length (corpus_of_lines (firstn i ls))).

(** The index entries of the lines [ls], the first of which starts at
    byte [off]: one entry for every line that holds a delimiter. *)
Fixpoint index_entries (off : Z) (ls : list (list ascii)) : list VerseIndex :=
  match ls with
  | [] => []
  | l :: ls' =>
      let next := (off + Z.of_nat (length l) + 1)%Z in
      match strchr l PIPE with
      | Some p =>
          mkVerseIndex off (firstn (if REF_LEN <=? p then REF_LEN - 1 else p) l)
            :: index_entries next ls'
      | None => index_entries next ls'
      end
  end.

(** The ordinals, counted from [vn], of the lines that contain [q]. *)
Fixpoint matching_ids (vn : Z) (ls : list (list ascii)) (q : list ascii)
  : list Z :=
  match ls with
  | [] => []
  | l :: ls' =>
      if icontains l q then vn :: matching_ids (vn + 1) ls' q
      else matching_ids (vn + 1) ls' q
  end.

(** The text field of what [parse_line] returns. *)
Definition text_of (r : option (list ascii * list ascii * list ascii))
  : option (list ascii) :=
  match r with
  | Some (_, _, text) => Some text
  | None => None
  end.

(** The four records of [psalm_file]. *)
Definition psalm_lines : list (list ascii) :=
  [lit "Ps 23:1|Psalms|The LORD is my shepherd; I shall not want.";
   lit "Ps 23:2|Psalms|He maketh me to lie down in green pastures";
   lit "Ps 23:3|Psalms|He restoreth my soul";
   lit "Ps 23:4|Psalms|Yea, though I walk through the valley"].

(* ================================================================== *)
(** * Random and daily verse *)
(* ================================================================== *)

(** [rng_next]: [x ^= x << 13; x ^= x >> 17; x ^= x << 5] on a
    [uint32_t]; the new state is also the value returned. *)
Definition rng_next (s : Z) : Z :=
  let x := s in
  let x := Z.lxor x (u32 (Z.shiftl x 13)) in
  let x := Z.lxor x (Z.shiftr x 17) in
  let x := Z.lxor x (u32 (Z.shiftl x 5)) in
  x.

(** [(uint16_t)(rng_next(&app->rng) % app->verse_count)]: the verse
    drawn and the new generator state. *)
Definition random_verse (rng : Z) (vcount : Z) : Z * Z :=
  let x := rng_next rng in (u16 (x mod vcount), x).

(** [on_main_menu], [case MenuDaily], up to the call of [open_verse]:
    [tick] and [tick'] are what the two calls of [furi_get_tick]
    return, [rng] is the generator state.  The verse to open is
    [daily_verse_idx] of the state returned. *)
Definition menu_daily (app : App) (rng tick tick' : Z) : App * Z :=
  let today := (tick / (1000 * 60 * 60 * 24))%Z in
  if negb (today =? daily_verse_day app)%Z ||
     (Z.of_nat (verse_count app) <=? daily_verse_idx app)%Z
  then
    let '(v, rng') := random_verse (Z.lxor rng tick') (Z.of_nat (verse_count app)) in
    let app := set_daily_verse_idx app v in
    let app := set_daily_verse_day app today in
    (settings_save app, rng')
  else (app, rng).

(* ================================================================== *)
(** * Bible API: the request *)
(* ================================================================== *)

Definition PLUS : ascii := "+"%char.

(** The loop of [api_url_encode]; [room] is [dst_sz - 1 - di]. *)
Fixpoint url_encode_loop (src : list ascii) (room : nat) : list ascii :=
  match src with
  | [] => []
  | c :: src' =>
      if Ascii.eqb c NUL then []
      else match room with
           | O => []
           | S room' =>
               (if Ascii.eqb c SPC then PLUS else c) :: url_encode_loop src' room'
           end
  end.

(** [api_url_encode(src, dst, dst_sz)], for [dst_sz >= 1] as in its one
    call: the C string left in [dst]. *)
Definition api_url_encode (src : list ascii) (dst_sz : nat) : list ascii :=
  url_encode_loop src (dst_sz - 1).

(** The C string [snprintf(buf, size, ...)] leaves in [buf], of
    [size >= 1] bytes, when the formatted text is [s]. *)
Definition snprintf_str (size : nat) (s : list ascii) : list ascii :=
  firstn (size - 1) s.

(** [api_fetch_quick]: the query ["%s %u:%u"] built from the picker. *)
Definition api_quick_query (app : App) : list ascii :=
  snprintf_str 64
    (c_str (name (nth (Z.to_nat (api_book_sel app)) BIBLE_BOOKS (mkBook [] 0)))
       ++ SPC :: utoa (api_chapter_sel app)
       ++ ":"%char :: utoa (api_verse_sel app)).

Definition API_BASE_URL : list ascii := lit "https://bible-api.com/".

(** [api_do_request]: the URL ["%s%s?translation=%s"] for a query. *)
Definition api_request_url (query : list ascii) (trans_sel : Z) : list ascii :=
  snprintf_str 200
    (API_BASE_URL ++ api_url_encode query 96 ++ lit "?translation="
       ++ c_str (nth (Z.to_nat trans_sel) API_TRANSLATIONS [])).

(** A space becomes a plus sign, any other character stays. *)
Definition plus_for_space (c : ascii) : ascii :=
  if Ascii.eqb c SPC then PLUS else c.

(** No book name is longer than 15 characters or holds a NUL; no
    translation code is longer than 6 or holds a NUL or a space; no
    book has more than 150 chapters and no chapter more than 176
    verses. *)
Definition name_table_ok : bool :=
  forallb (fun b => (length (name b) <=? 15) &&
                    forallb (fun c => negb (Ascii.eqb c NUL)) (name b) &&
                    (chapters b <=? 150)%Z)
          BIBLE_BOOKS &&
  forallb (fun code => (length code <=? 6) &&
                       forallb (fun c => negb (Ascii.eqb c NUL) &&
                                         negb (Ascii.eqb c SPC)) code)
          API_TRANSLATIONS &&
  forallb (fun v => (v <=? 176)%Z) VERSE_COUNTS.

(* ================================================================== *)
(** * Bible API: the response *)
(* ================================================================== *)

Definition QUOTE : ascii := ascii_of_nat 34.
Definition BACKSLASH : ascii := ascii_of_nat 92.

(** Does the C string [s] begin with [pat]? *)
Fixpoint starts_with (s pat : list ascii) : bool :=
  match pat with
  | [] => true
  | b :: pat' =>
      match s with
      | a :: s' => Ascii.eqb a b && starts_with s' pat'
      | [] => false
      end
  end.

(** [strstr(s, pat)] on C strings without their NUL: the part of [s]
    from the first occurrence of [pat] on. *)
Fixpoint strstr (s pat : list ascii) : option (list ascii) :=
  match s with
  | [] => if starts_with [] pat then Some [] else None
  | _ :: s' => if starts_with s pat then Some s else strstr s' pat
  end.

(** [while((p = strstr(p, pat)) != NULL) { found = p; p += plen; }] *)
Fixpoint find_last (fuel : nat) (p pat : list ascii)
         (found : option (list ascii)) : option (option (list ascii)) :=
  match fuel with
  | O => None
  | S fuel' =>
      match strstr p pat with
      | None => Some found
      | Some m => find_last fuel' (skipn (length pat) m) pat (Some m)
      end
  end.

(** The copying loop of [json_extract_str]: [out] is [out[0 .. wi)]. *)
Fixpoint unescape (s out : list ascii) (escaped : bool) (out_sz : nat)
  : list ascii :=
  match s with
  | [] => out
  | c :: s' =>
      if negb (length out <? out_sz - 1) then out
      else if escaped then
        let out' :=
          if Ascii.eqb c "n" || Ascii.eqb c "r" then out ++ [SPC]
          else if Ascii.eqb c QUOTE then out ++ [QUOTE]
          else if Ascii.eqb c BACKSLASH then out ++ [BACKSLASH]
          else if length out <? out_sz - 2 then out ++ [BACKSLASH; c]
          else out in
        unescape s' out' false out_sz
      else if Ascii.eqb c BACKSLASH then unescape s' out true out_sz
      else if Ascii.eqb c QUOTE then out
      else unescape s' (out ++ [c]) false out_sz
  end.

Definition is_blank (c : ascii) : bool :=
  Ascii.eqb c SPC || Ascii.eqb c LF || Ascii.eqb c CR.

(** [while(wi > 0 && (out[wi-1] == ' ' || ...)) out[--wi] = '\0';] on
    the reversed text. *)
Fixpoint drop_blanks (r : list ascii) : list ascii :=
  match r with
  | c :: r' => if is_blank c then drop_blanks r' else r
  | [] => []
  end.

Definition trim_end (out : list ascii) : list ascii :=
  rev (drop_blanks (rev out)).

(** The pattern in the 64-byte [pat]: a quote, the key, a quote, a
    colon and a quote. *)
Definition json_pattern (key : list ascii) : list ascii :=
  snprintf_str 64 (QUOTE :: c_str key ++ [QUOTE; ":"%char; QUOTE]).

(** The value that starts at [start]: unescaped, cut to the buffer,
    trailing blanks removed. *)
Definition json_value (start : list ascii) (out_sz : nat) : list ascii :=
  trim_end (unescape start [] false out_sz).

(** [json_extract_str] with its three pointers not NULL: [Some] of the
    C string left in [out] when the result is [true]. *)
Definition json_extract_str (json key : list ascii) (out_sz : nat)
  : option (list ascii) :=
  if out_sz <? 2 then None
  else
    let pat := json_pattern key in
    let s := c_str json in
    match find_last (S (length s)) s pat None with
    | Some (Some found) =>
        let text := json_value (skipn (length pat) found) out_sz in
        if 0 <? length text then Some text else None
    | _ => None
    end.

(** A response with one key: [{ text : In the beginning  }] with the
    quotes of JSON around key and value. *)
Definition text_response : list ascii :=
  lit "{" ++ QUOTE :: lit "text" ++ QUOTE :: lit ":" ++ QUOTE ::
  lit "In the beginning  " ++ QUOTE :: lit "}".

(* ================================================================== *)
(** * The on-screen keyboard *)
(* ================================================================== *)

Definition KB_NROWS : Z := 3.
Definition KB_NCOLS : Z := 13.

Definition kb_page0 : list (list ascii) :=
  [lit "qwertyuiop789"; lit "asdfghjkl:456"; lit "zxcvbnm.-0123"].

Definition kb_page1 : list (list ascii) :=
  [lit "!@#$%^&*()_+=";
   lit "<>?/" ++ BACKSLASH :: lit "|~`'" ++ QUOTE :: lit "{}";
   lit ";,[]- ...     "].

Definition utf8 (bytes : list nat) : list ascii := map ascii_of_nat bytes.

Definition kb_page2 : list (list (list ascii)) :=
  [[utf8 [195; 132]; utf8 [195; 164]; utf8 [195; 150]; utf8 [195; 182];
    utf8 [195; 156]; utf8 [195; 188]; utf8 [195; 159]; utf8 [194; 161];
    utf8 [194; 191]; utf8 [194; 171]; utf8 [194; 187];
    utf8 [226; 128; 152]; utf8 [226; 128; 153]];
   [utf8 [226; 128; 156]; utf8 [226; 128; 157]; utf8 [226; 128; 147];
    utf8 [226; 128; 148]; utf8 [195; 169]; utf8 [195; 168]; utf8 [195; 170];
    utf8 [195; 171]; utf8 [195; 175]; utf8 [195; 174]; utf8 [195; 160];
    utf8 [195; 162]; utf8 [195; 181]];
   [utf8 [195; 177]; utf8 [195; 167]; utf8 [195; 191]; utf8 [195; 184];
    utf8 [195; 165]; utf8 [195; 166]; utf8 [195; 144]; utf8 [195; 190];
    utf8 [194; 163]; utf8 [194; 165]; utf8 [194; 169]; utf8 [194; 174];
    utf8 [194; 176]]].

(** [if(kb_caps && ch >= 'a' && ch <= 'z') ch -= 32;] *)
Definition caps_of (caps : bool) (ch : ascii) : ascii :=
  let n := nat_of_ascii ch in
  if caps && (97 <=? n) && (n <=? 122) then ascii_of_nat (n - 32) else ch.

(** [kb_key_bytes]: the C string a key stands for.  On the first two
    pages the key is one byte of a row of the page, the byte behind a
    row of twelve being the NUL that ends it. *)
Definition kb_key_bytes (page : Z) (caps : bool) (row col : nat) : list ascii :=
  if (page =? 0)%Z then
    c_str [caps_of caps (nth col (nth row kb_page0 []) NUL)]
  else if (page =? 1)%Z then
    c_str [nth col (nth row kb_page1 []) NUL]
  else nth col (nth row kb_page2 []) [].

Definition set_search_buf (app : App) (buf : list ascii) (len : Z) : App :=
  mkApp (storage app) (index app) (vfiles app) (vfile_sel app) (vfile app)
        buf len (hits app) (bmarks app)
        (font_choice app) (daily_verse_idx app) (daily_verse_day app)
        (api_trans_sel app) (api_menu_sel app) (api_menu_scroll app)
        (api_book_sel app) (api_chapter_sel app) (api_verse_sel app).

(** The bytes typed so far: [search_buf[0 .. search_len)]. *)
Definition typed (app : App) : list ascii :=
  firstn (Z.to_nat (search_len app)) (search_buf app).

(** [on_search_input], short OK on a character key: the bytes of the
    key are appended if the key is not empty, is not a space and fits. *)
Definition type_key (app : App) (seq : list ascii) : App :=
  match seq with
  | [] => app
  | c :: _ =>
      if negb (Ascii.eqb c SPC) &&
         (search_len app + Z.of_nat (length seq) <? Z.of_nat MAX_SEARCH_LEN - 1)%Z
      then set_search_buf app (typed app ++ seq)
                          (search_len app + Z.of_nat (length seq))
      else app
  end.

(** [(c & 0xC0) == 0x80]: a continuation byte of UTF-8. *)
Definition is_continuation (c : ascii) : bool :=
  (Z.land (Z.of_nat (nat_of_ascii c)) 192 =? 128)%Z.

(** [while(len > 0 && continuation(buf[len-1])) buf[--len] = 0;] on the
    typed bytes in reverse. *)
Fixpoint drop_continuation (r : list ascii) : list ascii :=
  match r with
  | c :: r' => if is_continuation c then drop_continuation r' else r
  | [] => []
  end.

Definition search_buf_backspace (app : App) : App :=
  if (search_len app =? 0)%Z then app
  else
    let r := drop_continuation (rev (typed app)) in
    let r := match r with
             | _ :: r' => r'          (* if(len > 0) buf[--len] = 0 *)
             | [] => []
             end in
    set_search_buf app (rev r) (Z.of_nat (length r)).

(** The comparison loop of [kb_update_suggestion]. *)
Fixpoint ci_match (text name : list ascii) : bool :=
  match text with
  | [] => true
  | t :: text' =>
      match name with
      | n :: name' =>
          if Ascii.eqb (to_lower t) (to_lower n) then ci_match text' name'
          else false
      | [] => false
      end
  end.

(** [kb_update_suggestion]: the C string left in [kb_suggestion]. *)
Definition kb_update_suggestion (api_input_active : bool) (app : App)
  : list ascii :=
  if negb api_input_active then []
  else if (search_len app =? 0)%Z then []
  else if Ascii.eqb (nth (Z.to_nat (search_len app - 1)) (search_buf app) NUL) SPC
  then []
  else
    match find (fun b =>
                  negb (Z.of_nat (length (c_str (name b))) <? search_len app)%Z &&
                  ci_match (typed app) (name b)) BIBLE_BOOKS with
    | Some b => firstn 23 (c_str (name b))
    | None => []
    end.

Inductive InputKey : Set := InputKeyUp | InputKeyDown | InputKeyLeft | InputKeyRight.

Definition col_to_btn : list Z := [0; 0; 0; 1; 1; 2; 2; 2; 3; 3; 3; 4; 4]%Z.
Definition btn_to_col : list Z := [1; 3; 6; 9; 11]%Z.

(** [on_search_input], the four arrow keys: the new [kb_row] and
    [kb_col]. *)
Definition kb_move (row col : Z) (key : InputKey) : Z * Z :=
  let btn := nth (Z.to_nat col) col_to_btn 0%Z in
  let key_col := nth (Z.to_nat col) btn_to_col 0%Z in
  match key with
  | InputKeyUp =>
      if (row =? KB_NROWS)%Z then (KB_NROWS - 1, key_col)
      else if (0 <? row)%Z then (row - 1, col)
      else (KB_NROWS, btn)
  | InputKeyDown =>
      if (row <? KB_NROWS - 1)%Z then (row + 1, col)
      else if (row =? KB_NROWS - 1)%Z then (KB_NROWS, btn)
      else (0, key_col)
  | InputKeyLeft =>
      if (row =? KB_NROWS)%Z then (row, if (col =? 0)%Z then 4 else col - 1)
      else (row, if (col =? 0)%Z then KB_NCOLS - 1 else col - 1)
  | InputKeyRight =>
      if (row =? KB_NROWS)%Z then (row, if (col =? 4)%Z then 0 else col + 1)
      else (row, if (col =? KB_NCOLS - 1)%Z then 0 else col + 1)
  end%Z.

(** The cursor is on a key: on one of the 3 x 13 character keys or on
    one of the five buttons of the row below them. *)
Definition on_keyboard (row col : Z) : bool :=
  ((0 <=? row) && (row <? KB_NROWS) && (0 <=? col) && (col <? KB_NCOLS) ||
   (row =? KB_NROWS) && (0 <=? col) && (col <? 5))%Z.

(** Every key of the three pages, in either case, stands for nothing,
    or for one byte that is no continuation byte followed by
    continuation bytes only. *)
Definition one_character (seq : list ascii) : bool :=
  match seq with
  | [] => true
  | c :: rest => negb (is_continuation c) && forallb is_continuation rest
  end.

Definition kb_pages_ok : bool :=
  forallb (fun page =>
    forallb (fun caps =>
      forallb (fun row =>
        forallb (fun col => one_character (kb_key_bytes page caps row col))
                (seq 0 13))
        (seq 0 3))
      [false; true])
    [0; 1; 2]%Z.

(** From every key, every arrow leads to a key. *)
Definition kb_moves_ok : bool :=
  forallb (fun row =>
    forallb (fun col =>
      negb (on_keyboard row col) ||
      forallb (fun key => let '(r, c) := kb_move row col key in on_keyboard r c)
              [InputKeyUp; InputKeyDown; InputKeyLeft; InputKeyRight])
      (map Z.of_nat (seq 0 13)))
    (map Z.of_nat (seq 0 4)).

(* ================================================================== *)
(** * Lists on screen: the verse browser and the scroll bar *)
(* ================================================================== *)

Definition SCREEN_H : Z := 64.
Definition HDR_H : Z := 12.
Definition VISIBLE_LINES : Z := 5.

Definition u8 (z : Z) : Z := (z mod 2 ^ 8)%Z.

Record Browse : Set := mkBrowse {
  browse_sel : Z;                   (* uint16_t *)
  browse_scroll : Z                 (* uint16_t *)
}.

(** [on_browse], the four arrow keys; [total] is [app->verse_count]. *)
Definition on_browse (total : Z) (b : Browse) (key : InputKey) : Browse :=
  let sel := browse_sel b in
  let scroll := browse_scroll b in
  match key with
  | InputKeyUp =>
      if (0 <? sel)%Z then
        let sel := u16 (sel - 1) in
        mkBrowse sel (if (sel <? scroll)%Z then sel else scroll)
      else b
  | InputKeyDown =>
      if (sel <? total - 1)%Z then
        let sel := u16 (sel + 1) in
        mkBrowse sel (if (scroll + VISIBLE_LINES <=? sel)%Z
                      then u16 (sel - VISIBLE_LINES + 1) else scroll)
      else b
  | InputKeyLeft =>
      let sel := if (VISIBLE_LINES <? sel)%Z then u16 (sel - VISIBLE_LINES)
                 else 0%Z in
      mkBrowse sel (if (sel <? scroll)%Z then sel else scroll)
  | InputKeyRight =>
      let sel := if (sel + VISIBLE_LINES <? total)%Z then u16 (sel + VISIBLE_LINES)
                 else u16 (total - 1) in
      mkBrowse sel (if (scroll + VISIBLE_LINES <=? sel)%Z
                    then u16 (sel - VISIBLE_LINES + 1) else scroll)
  end.

(** The selected verse exists and is one of the five rows shown; the
    window does not reach past the end of the list. *)
Definition browse_ok (total : Z) (b : Browse) : Prop :=
  (0 <= browse_scroll b <= browse_sel b)%Z /\
  (browse_sel b < total)%Z /\
  (browse_sel b < browse_scroll b + VISIBLE_LINES)%Z /\
  (browse_scroll b = 0 \/ browse_scroll b + VISIBLE_LINES <= total)%Z.

(** [draw_scrollbar]: top and height of the thumb it draws, [None] when
    it draws nothing. *)
Definition scrollbar_thumb (pos total vis : Z) : option (Z * Z) :=
  if (total <=? vis)%Z then None
  else
    let bh := u8 (SCREEN_H - HDR_H - 2) in
    let th := u8 ((bh * vis) / total) in
    let th := if (th <? 3)%Z then 3%Z else th in
    let ty := u8 (HDR_H + 1 + u8 (u32 ((bh - th) * pos) / (total - vis))) in
    Some (ty, th).

(* ================================================================== *)
(** * Corpora on the card and the start of the application *)
(* ================================================================== *)

(** What [storage_dir_read] reports of one entry of the data directory:
    the [FSF_DIRECTORY] flag and the name left in [fname]. *)
Record DirEntry : Set := mkEntry {
  is_directory : bool;
  entry_name : list ascii
}.

(** The corpora of the card: what [storage_file_open] finds at a path
    and what the data directory lists ([None] if it cannot be opened). *)
Record Card : Set := mkCard {
  corpus_at : list ascii -> option (list ascii);
  data_dir : option (list DirEntry)
}.

Definition set_vfiles (app : App) (v : list VerseFile) : App :=
  mkApp (storage app) (index app) v (vfile_sel app) (vfile app)
        (search_buf app) (search_len app) (hits app) (bmarks app)
        (font_choice app) (daily_verse_idx app) (daily_verse_day app)
        (api_trans_sel app) (api_menu_sel app) (api_menu_scroll app)
        (api_book_sel app) (api_chapter_sel app) (api_verse_sel app).

(** The three [known] corpora: path and label. *)
Definition KNOWN_FILES : list (list ascii * list ascii) :=
  [(DATA_DIR ++ lit "/verses_en.txt", lit "KJV (English)");
   (DATA_DIR ++ lit "/verses_esv.txt", lit "ESV (English)");
   (DATA_DIR ++ lit "/verses_de.txt", lit "Luther 1912 (DE)")].

(** The first loop of [discover_verse_files]:
    [for(i = 0; i < 3 && vfile_count < 8; i++)], the [strncpy] calls
    writing into the zeroed table. *)
Fixpoint known_loop (card : Card) (known : list (list ascii * list ascii))
         (files : list VerseFile) : list VerseFile :=
  match known with
  | [] => files
  | (p, l) :: rest =>
      if 8 <=? length files then files
      else
        let files :=
          match corpus_at card p with
          | Some _ => files ++ [mkVerseFile (firstn 23 (c_str l)) (firstn 95 (c_str p))]
          | None => files
          end in
        known_loop card rest files
  end.

(** The second loop, over the entries [storage_dir_read] yields. *)
Fixpoint dir_loop (entries : list DirEntry) (files : list VerseFile)
  : list VerseFile :=
  match entries with
  | [] => files
  | e :: rest =>
      let fname := c_str (entry_name e) in
      let flen := length fname in
      if is_directory e then dir_loop rest files
      else if negb (bytes_eqb (firstn 7 fname) (lit "verses_")) then dir_loop rest files
      else if flen <? 11 then dir_loop rest files
      else if negb (str_eq (skipn (flen - 4) fname) (lit ".txt")) then dir_loop rest files
      else if str_eq fname (lit "verses_en.txt") then dir_loop rest files
      else if str_eq fname (lit "verses_esv.txt") then dir_loop rest files
      else if str_eq fname (lit "verses_de.txt") then dir_loop rest files
      else if 8 <=? length files then files
      else
        let code_len := if 7 <? flen - 7 - 4 then 7 else flen - 7 - 4 in
        let code := firstn code_len (skipn 7 fname) in
        dir_loop rest
          (files ++ [mkVerseFile
                       (snprintf_str 24 (lit "Custom (" ++ code ++ lit ")"))
                       (snprintf_str 96 (DATA_DIR ++ SLASH :: fname))])
  end.

Definition discover_verse_files (card : Card) (app : App) : App :=
  let files := known_loop card KNOWN_FILES [] in
  set_vfiles app
    match data_dir card with
    | Some entries => dir_loop entries files
    | None => files
    end.

(** [open_verse_file]: the file of [vfiles[vfile_sel]], opened at its
    first byte. *)
Definition open_verse_file (card : Card) (app : App) : bool * App :=
  let app := set_vfile app None in
  if vfile_count app =? 0 then (false, app)
  else
    match corpus_at card
            (c_str (path (nth (Z.to_nat (vfile_sel app)) (vfiles app) empty_vfile))) with
    | Some data => (true, set_vfile app (Some (open_file data)))
    | None => (false, app)
    end.

(** [bible_viewer_app] from [memset] to the first screen: [true] with
    the state in which the main menu is shown, [false] with the state
    behind the error screen. *)
Definition startup (card : Card) (st : Storage) : bool * App :=
  let app := discover_verse_files card (startup_app st []) in
  if vfile_count app =? 0 then (false, app)
  else
    let app := settings_load app in
    let '(ok, app) := open_verse_file card app in
    if ok then
      let '(ok, app) := build_index app in
      if ok then (true, bmarks_load app) else (false, app)
    else (false, app).

(** Names as a file system gives them: at most 63 bytes, free of
    [/], [\r] and [\n], no two alike. *)
Definition well_named (entries : list DirEntry) : Prop :=
  Forall (fun e =>
            length (c_str (entry_name e)) <= 63 /\
            Forall (fun c => c <> SLASH /\ c <> CR /\ c <> LF) (c_str (entry_name e)))
         entries /\
  NoDup (map (fun e => c_str (entry_name e)) entries).

(** A card with the English corpus and one custom corpus. *)
Definition two_corpora_card : Card :=
  mkCard (fun p => if bytes_eqb p (DATA_DIR ++ lit "/verses_en.txt")
                   then Some psalm_file
                   else if bytes_eqb p (DATA_DIR ++ lit "/verses_fr.txt")
                        then Some genesis_file else None)
         (Some [mkEntry true (lit "fonts");
                mkEntry false (lit "verses_en.txt");
                mkEntry false (lit "bookmarks.txt");
                mkEntry false (lit "verses_fr.txt")]).

(** A corpus file as [discover_verse_files] lists it: [fname] in the
    data directory, a name of the form [verses_*.txt]. *)
Definition listed_as (vf : VerseFile) (fname : list ascii) : Prop :=
  path vf = DATA_DIR ++ SLASH :: fname /\
  corpus_name vf = fname /\
  firstn 7 fname = lit "verses_" /\
  skipn (length fname - 4) fname = lit ".txt" /\
  plain_line fname /\ length fname <= 63 /\
  length (label vf) <= 23.

(** The checks of [listed_as] on a name, as a computation. *)
Definition listed_name (fname : list ascii) : bool :=
  forallb (fun c => negb (Ascii.eqb c SLASH) && negb (Ascii.eqb c NUL) &&
                    negb (Ascii.eqb c CR) && negb (Ascii.eqb c LF)) fname &&
  bytes_eqb (firstn 7 fname) (lit "verses_") &&
  bytes_eqb (skipn (length fname - 4) fname) (lit ".txt") &&
  (length fname <=? 63).

Definition is_known (fname : list ascii) : bool :=
  str_eq fname (lit "verses_en.txt") || str_eq fname (lit "verses_esv.txt") ||
  str_eq fname (lit "verses_de.txt").

(* ================================================================== *)
(** * The reading view *)
(* ================================================================== *)











(* ================================================================== *)
(** * Properties *)
(* ================================================================== *)

(** ** The verse index *)

Lemma index_read_line_consumes (rest line : list ascii) (off : Z) :
  forall line' eof off' rest',
    index_read_line rest line off = (line', eof, off', rest') ->
    length line <= length line' /\
    length rest' + (length line' - length line) <= length rest /\
    (eof = false -> length line' < LINE_BUF_LEN - 1 -> length rest' < length rest).
Proof.
  revert line off.
  induction rest as [|ch rest IH]; intros line off line' eof off' rest' H;
    cbn [index_read_line] in H.
  - destruct (LINE_BUF_LEN - 1 <=? length line) eqn:E;
      inversion H; subst; clear H.
    + apply Nat.leb_le in E. repeat split; try lia.
    + repeat split; try lia; discriminate.
  - destruct (LINE_BUF_LEN - 1 <=? length line) eqn:E.
    + inversion H; subst; clear H. apply Nat.leb_le in E.
      repeat split; try lia.
    + destruct (Ascii.eqb ch CR).
      * apply IH in H. cbn [length]. intuition lia.
      * destruct (Ascii.eqb ch LF).
        -- inversion H; subst; clear H. cbn [length]. repeat split; lia.
        -- apply IH in H. rewrite length_app in H. cbn [length] in *.
           intuition lia.
Qed.

Lemma index_read_line_offset (rest line : list ascii) (off : Z) :
  forall line' eof off' rest',
    index_read_line rest line off = (line', eof, off', rest') ->
    (0 <= off)%Z -> (off + Z.of_nat (length rest) < 2 ^ 32)%Z ->
    (off' + Z.of_nat (length rest') = off + Z.of_nat (length rest))%Z.
Proof.
  revert line off.
  induction rest as [|ch rest IH]; intros line off line' eof off' rest' H H0 Hlt;
    cbn [index_read_line] in H.
  - destruct (LINE_BUF_LEN - 1 <=? length line); inversion H; subst; reflexivity.
  - assert (Hu : u32 (off + 1) = (off + 1)%Z).
    { unfold u32. apply Z.mod_small. cbn [length] in Hlt. lia. }
    rewrite Hu in H. cbn [length] in Hlt |- *.
    destruct (LINE_BUF_LEN - 1 <=? length line).
    + inversion H; subst. reflexivity.
    + destruct (Ascii.eqb ch CR).
      * apply IH in H; lia.
      * destruct (Ascii.eqb ch LF).
        -- inversion H; subst. lia.
        -- apply IH in H; lia.
Qed.

Lemma index_loop_total (fuel : nat) :
  forall rest off idx,
    length rest < fuel ->
    exists r, index_loop fuel rest off idx = Some r.
Proof.
  induction fuel as [|fuel IH]; intros rest off idx Hf; [lia|].
  cbn [index_loop].
  destruct (MAX_VERSES <=? length idx); [eauto|].
  destruct (index_read_line rest [] off) as [[[line eof] off'] rest'] eqn:E.
  apply index_read_line_consumes in E. cbn [length] in E.
  destruct E as (_ & Hc & Hs).
  destruct line as [|c line].
  - destruct eof; [eauto|]. apply IH.
    specialize (Hs eq_refl). cbn [length] in Hs. unfold LINE_BUF_LEN in Hs. lia.
  - cbn [length] in Hc.
    destruct (strchr (c :: line) PIPE); destruct eof; eauto; apply IH; lia.
Qed.

Lemma StronglySorted_snoc (l : list Z) (x : Z) :
  StronglySorted Z.lt l -> Forall (fun y => (y < x)%Z) l ->
  StronglySorted Z.lt (l ++ [x]).
Proof.
  induction 1 as [|a l Hs IH Ha]; intros Hx; cbn.
  - repeat constructor.
  - inversion Hx; subst. constructor; [auto|].
    apply Forall_app; split; [assumption|]. repeat constructor. assumption.
Qed.

Lemma index_loop_count (fuel : nat) :
  forall rest off idx r,
    index_loop fuel rest off idx = Some r ->
    length idx <= MAX_VERSES -> length (fst r) <= MAX_VERSES.
Proof.
  induction fuel as [|fuel IH]; intros rest off idx r H Hn; [discriminate|].
  cbn [index_loop] in H.
  destruct (MAX_VERSES <=? length idx) eqn:Ecap.
  { inversion H; subst. assumption. }
  apply Nat.leb_gt in Ecap.
  destruct (index_read_line rest [] off) as [[[line eof] off'] rest'].
  destruct line as [|c line].
  - destruct eof; [inversion H; subst; assumption | eauto].
  - destruct (strchr (c :: line) PIPE).
    + destruct eof.
      * inversion H; subst. cbn [fst]. rewrite length_app. cbn. lia.
      * eapply IH; [eassumption|]. rewrite length_app. cbn. lia.
    + destruct eof; [inversion H; subst; assumption | eauto].
Qed.

Lemma index_loop_sorted (fuel : nat) :
  forall rest off idx r,
    index_loop fuel rest off idx = Some r ->
    (0 <= off)%Z -> (off + Z.of_nat (length rest) < 2 ^ 32)%Z ->
    StronglySorted Z.lt (map offset idx) ->
    Forall (fun y => (y < off)%Z) (map offset idx) ->
    StronglySorted Z.lt (map offset (fst r)).
Proof.
  induction fuel as [|fuel IH]; intros rest off idx r H H0 Hlt Hs Hb; [discriminate|].
  cbn [index_loop] in H.
  destruct (MAX_VERSES <=? length idx).
  { inversion H; subst. assumption. }
  destruct (index_read_line rest [] off) as [[[line eof] off'] rest'] eqn:E.
  pose proof (index_read_line_consumes _ _ _ _ _ _ _ E) as (_ & Hc & _).
  pose proof (index_read_line_offset _ _ _ _ _ _ _ E H0 Hlt) as Ho.
  cbn [length] in Hc.
  assert (Hmono : Forall (fun y => (y < off')%Z) (map offset idx)).
  { eapply Forall_impl; [|exact Hb]. cbn. intros. lia. }
  destruct line as [|c line].
  - destruct eof; [inversion H; subst; assumption|].
    eapply IH; eauto; lia.
  - cbn [length] in Hc.
    destruct (strchr (c :: line) PIPE) as [p|].
    + set (e := mkVerseIndex off _) in H.
      assert (Hs' : StronglySorted Z.lt (map offset (idx ++ [e]))).
      { rewrite map_app. apply StronglySorted_snoc; assumption. }
      destruct eof; [inversion H; subst; assumption|].
      eapply IH; eauto; try lia.
      rewrite map_app. apply Forall_app. split; [assumption|].
      repeat constructor. cbn. lia.
    + destruct eof; [inversion H; subst; assumption|].
      eapply IH; eauto; lia.
Qed.

Lemma no_eol_ok (l : list ascii) :
  no_eol l = true -> Forall (fun c => c <> CR /\ c <> LF) l.
Proof.
  unfold no_eol. rewrite forallb_forall. intros H. apply Forall_forall.
  intros c Hc. apply H in Hc. apply andb_prop in Hc. destruct Hc as [A B].
  apply negb_true_iff in A, B. apply Ascii.eqb_neq in A, B. split; assumption.
Qed.

(** Carriage returns only move the offset, modulo 2^32. *)
Lemma index_read_line_cr (n : nat) :
  forall rest line off,
    length line < LINE_BUF_LEN - 1 ->
    index_read_line (repeat CR (S n) ++ rest) line off =
    index_read_line rest line (u32 (off + Z.of_nat (S n))).
Proof.
  induction n as [|n IH]; intros rest line off Hl;
    pose proof Hl as Hl'; apply Nat.leb_gt in Hl'.
  - cbn [repeat List.app index_read_line]. rewrite Hl', Ascii.eqb_refl.
    reflexivity.
  - change (repeat CR (S (S n))) with (CR :: repeat CR (S n)).
    cbn [List.app index_read_line]. rewrite Hl', Ascii.eqb_refl.
    rewrite IH by assumption.
    f_equal. unfold u32. rewrite Zplus_mod_idemp_l. f_equal. lia.
Qed.

(** A line without [\r] that fits the buffer is read whole. *)
Lemma index_read_line_plain (l : list ascii) :
  forall acc rest off,
    Forall (fun c => c <> CR /\ c <> LF) l ->
    length acc + length l < LINE_BUF_LEN - 1 ->
    (0 <= off)%Z -> (off + Z.of_nat (length l) + 1 < 2 ^ 32)%Z ->
    index_read_line (l ++ LF :: rest) acc off =
    (acc ++ l, false, (off + Z.of_nat (length l) + 1)%Z, rest).
Proof.
  induction l as [|c l IH]; intros acc rest off Hp Hl H0 Hlt;
    cbn [List.app index_read_line];
    (assert (E : (LINE_BUF_LEN - 1 <=? length acc) = false)
      by (apply Nat.leb_gt; cbn [length] in Hl; lia));
    rewrite E;
    (assert (Hu : u32 (off + 1) = (off + 1)%Z)
      by (unfold u32; apply Z.mod_small; cbn [length] in Hlt; lia));
    rewrite Hu.
  - change (Ascii.eqb LF CR) with false. rewrite Ascii.eqb_refl.
    rewrite app_nil_r. cbn [length]. f_equal. f_equal. lia.
  - inversion Hp as [|? ? [Hcr Hlf] Hp']; subst.
    apply Ascii.eqb_neq in Hcr, Hlf. rewrite Hcr, Hlf.
    cbn [length] in *.
    rewrite IH; try assumption; try lia.
    + rewrite <- app_assoc. cbn [List.app]. f_equal. f_equal. lia.
    + rewrite length_app. cbn [length]. lia.
Qed.

(** One well-formed record line becomes one index entry, at the offset
    the line starts at. *)
Lemma index_loop_record (fuel : nat) (l rest : list ascii) (off : Z)
      (idx : list VerseIndex) (p : nat) :
  Forall (fun c => c <> CR /\ c <> LF) l -> l <> [] ->
  length l < LINE_BUF_LEN - 1 ->
  strchr l PIPE = Some p ->
  length idx < MAX_VERSES ->
  (0 <= off)%Z -> (off + Z.of_nat (length l) + 1 < 2 ^ 32)%Z ->
  index_loop (S fuel) (l ++ LF :: rest) off idx =
  index_loop fuel rest (off + Z.of_nat (length l) + 1)
    (idx ++ [mkVerseIndex off
               (firstn (if REF_LEN <=? p then REF_LEN - 1 else p) l)]).
Proof.
  intros Hp Hne Hl Hs Hi H0 Hlt. cbn [index_loop].
  apply Nat.leb_gt in Hi. rewrite Hi.
  rewrite (index_read_line_plain l [] rest off Hp) by (cbn [length]; lia || assumption).
  cbn [List.app]. destruct l as [|c l]; [congruence|].
  rewrite Hs. reflexivity.
Qed.

Lemma index_loop_eof (fuel : nat) (off : Z) (idx : list VerseIndex) :
  index_loop (S fuel) [] off idx = Some (idx, []).
Proof.
  cbn [index_loop]. destruct (MAX_VERSES <=? length idx); reflexivity.
Qed.

(** The same with carriage returns in front of the record: the entry
    keeps the offset at which the padding starts. *)
Lemma index_loop_padded_record (fuel n : nat) (l rest : list ascii) (off : Z)
      (idx : list VerseIndex) (p : nat) :
  Forall (fun c => c <> CR /\ c <> LF) l -> l <> [] ->
  length l < LINE_BUF_LEN - 1 ->
  strchr l PIPE = Some p ->
  length idx < MAX_VERSES ->
  (u32 (off + Z.of_nat (S n)) + Z.of_nat (length l) + 1 < 2 ^ 32)%Z ->
  index_loop (S fuel) (repeat CR (S n) ++ l ++ LF :: rest) off idx =
  index_loop fuel rest (u32 (off + Z.of_nat (S n)) + Z.of_nat (length l) + 1)
    (idx ++ [mkVerseIndex off
               (firstn (if REF_LEN <=? p then REF_LEN - 1 else p) l)]).
Proof.
  intros Hp Hne Hl Hs Hi Hlt. cbn [index_loop].
  apply Nat.leb_gt in Hi. rewrite Hi.
  rewrite index_read_line_cr by (cbn [length]; unfold LINE_BUF_LEN; lia).
  assert (H0 : (0 <= u32 (off + Z.of_nat (S n)))%Z)
    by (unfold u32; apply Z.mod_pos_bound; lia).
  rewrite (index_read_line_plain l [] rest _ Hp) by (cbn [length]; lia || assumption).
  cbn [List.app]. destruct l as [|c l]; [congruence|].
  rewrite Hs. reflexivity.
Qed.

(** The index of [padded_file n] when the padding brings the 32-bit
    offset back to 0. *)
Lemma index_loop_padded (n fuel : nat) :
  0 < n -> u32 (4 + Z.of_nat n) = 0%Z ->
  4 <= fuel ->
  index_loop fuel (padded_file n) 0 [] =
  Some ([mkVerseIndex 0 (lit "a"); mkVerseIndex 4 (lit "c");
         mkVerseIndex 4 (lit "e")], []).
Proof.
  intros Hn Hwrap Hf. destruct n as [|n]; [lia|].
  destruct fuel as [|[|[|[|fuel]]]]; try lia.
  assert (Pa : Forall (fun c => c <> CR /\ c <> LF) (lit "a|b"))
    by (apply no_eol_ok; reflexivity).
  assert (Pc : Forall (fun c => c <> CR /\ c <> LF) (lit "c|d"))
    by (apply no_eol_ok; reflexivity).
  assert (Pe : Forall (fun c => c <> CR /\ c <> LF) (lit "e|f"))
    by (apply no_eol_ok; reflexivity).
  assert (L3 : forall l : list ascii, length l = 3 -> length l < LINE_BUF_LEN - 1)
    by (unfold LINE_BUF_LEN; intros; lia).
  unfold padded_file.
  (* first record, bytes 0 to 3 *)
  rewrite (index_loop_record _ (lit "a|b") _ 0 [] 1 Pa ltac:(discriminate)
             (L3 (lit "a|b") eq_refl) eq_refl)
    by (cbn [length lit list_ascii_of_string]; unfold MAX_VERSES; lia).
  change (0 + Z.of_nat (length (lit "a|b")) + 1)%Z with 4%Z.
  (* second record: the padding wraps the offset *)
  rewrite (index_loop_padded_record _ n (lit "c|d") _ 4 _ 1 Pc ltac:(discriminate)
             (L3 (lit "c|d") eq_refl) eq_refl)
    by (rewrite ?Hwrap; cbn [length lit list_ascii_of_string List.app];
        unfold MAX_VERSES; lia).
  rewrite Hwrap.
  change (0 + Z.of_nat (length (lit "c|d")) + 1)%Z with 4%Z.
  (* third record, again at offset 4 *)
  rewrite (index_loop_record _ (lit "e|f") _ 4 _ 1 Pe ltac:(discriminate)
             (L3 (lit "e|f") eq_refl) eq_refl)
    by (cbn [length lit list_ascii_of_string List.app]; unfold MAX_VERSES; lia).
  rewrite index_loop_eof. reflexivity.
Qed.

Lemma build_index_padded (n : nat) :
  0 < n -> u32 (4 + Z.of_nat n) = 0%Z ->
  map offset (index (snd (build_index (app_with_corpus (padded_file n))))) =
  [0%Z; 4%Z; 4%Z].
Proof.
  intros Hn Hwrap. unfold build_index.
  cbn [vfile app_with_corpus set_vfile startup_app open_file storage_file_seek
       contents unread Z.to_nat skipn].
  rewrite (index_loop_padded n _ Hn Hwrap).
  - reflexivity.
  - unfold padded_file. rewrite length_app. cbn [length lit list_ascii_of_string]. lia.
Qed.

(** C1 as stated fails on a corpus file that is larger than the 32-bit
    offset counter can count: with 2^32 - 4 carriage returns between the
    first record and the second, the counter wraps and the third record
    gets the offset of the second. *)
Lemma build_index_offset_wrap_counterexample :
  let idx := index (snd (build_index (app_with_corpus (padded_file wrap_gap)))) in
  map offset idx = [0%Z; 4%Z; 4%Z] /\
  ~ StronglySorted Z.lt (map offset idx).
Proof.
  cbv zeta.
  assert (E : map offset
                (index (snd (build_index (app_with_corpus (padded_file wrap_gap)))))
              = [0%Z; 4%Z; 4%Z]).
  { apply build_index_padded.
    - unfold wrap_gap. lia.
    - unfold wrap_gap. rewrite Z2Nat.id by lia. reflexivity. }
  rewrite E. split; [reflexivity|].
  intros H. inversion H as [|? ? H1 H2]; subst.
  inversion H1 as [|? ? H3 H4]; subst.
  inversion H4 as [|? ? H5 H6]; subst. lia.
Qed.

(** C1, amended. After [build_index], [verse_count] never exceeds
    [MAX_VERSES] (600), whatever the corpus file; and, for a corpus file of
    less than 2^32 bytes, the byte offsets of the index entries are
    strictly increasing in index position. *)
Theorem build_index_offsets_increasing (app : App) :
  let app' := snd (build_index app) in
  verse_count app' <= MAX_VERSES /\
  ((forall f, vfile app = Some f ->
              (Z.of_nat (length (contents f)) < 2 ^ 32)%Z) ->
   StronglySorted Z.lt (map offset (index app'))).
Proof.
  unfold build_index, verse_count.
  destruct (vfile app) as [f|] eqn:Ef.
  2:{ cbn. split; [lia | intros _; constructor]. }
  cbn [storage_file_seek unread Z.to_nat skipn].
  destruct (index_loop_total _ (contents f) 0%Z [] (Nat.lt_succ_diag_r _))
    as [[idx rest] Hr].
  rewrite Hr. cbn [snd index set_vfile set_index].
  split.
  - apply (index_loop_count _ _ _ _ _ Hr). cbn. lia.
  - intros Hsz. specialize (Hsz f eq_refl).
    apply (index_loop_sorted _ _ _ _ _ Hr); cbn; try lia; constructor.
Qed.

Lemma build_index_offsets_increasing_witness :
  let app' := snd (build_index (app_with_corpus genesis_file)) in
  verse_count app' <= MAX_VERSES /\
  StronglySorted Z.lt (map offset (index app')).
Proof.
  destruct (build_index_offsets_increasing (app_with_corpus genesis_file))
    as [Hcount Hsorted].
  split; [exact Hcount|].
  apply Hsorted.
  intros f Hf. inversion Hf; subst. vm_compute. reflexivity.
Defined.

Lemma genesis_index_loop :
  index_loop (S (length genesis_file)) genesis_file 0 [] =
  Some ([mkVerseIndex 0 (lit "Gen 1:1"); mkVerseIndex 37 (lit "Gen 1:2")], []).
Proof. vm_compute. reflexivity. Qed.

(** C2. Indexing the three-line file [Gen 1:1|Genesis|In the beginning...],
    blank, [Gen 1:2|Genesis|And the earth...] gives [verse_count = 2];
    entry 0 has offset 0 and entry 1 has the offset at which the third
    physical line starts, so the blank line gives no entry and takes no
    verse id. *)
Theorem build_index_genesis (app : App) (f : File) :
  vfile app = Some f -> contents f = genesis_file ->
  let third_line_start := length genesis_line1 + 1 + 1 in
  fst (build_index app) = true /\
  verse_count (snd (build_index app)) = 2 /\
  map offset (index (snd (build_index app))) = [0%Z; Z.of_nat third_line_start] /\
  map ref (index (snd (build_index app))) = [lit "Gen 1:1"; lit "Gen 1:2"] /\
  skipn third_line_start genesis_file = genesis_line2 ++ [LF] /\
  firstn third_line_start genesis_file = genesis_line1 ++ [LF] ++ [LF].
Proof.
  intros Hf Hc. unfold build_index, verse_count. rewrite Hf.
  cbn [storage_file_seek unread Z.to_nat skipn]. rewrite Hc.
  rewrite genesis_index_loop. cbn [fst snd index set_vfile set_index].
  repeat split; vm_compute; reflexivity.
Qed.

Lemma build_index_genesis_witness :
  fst (build_index (app_with_corpus genesis_file)) = true /\
  verse_count (snd (build_index (app_with_corpus genesis_file))) = 2.
Proof.
  pose proof (build_index_genesis (app_with_corpus genesis_file)
                (open_file genesis_file) eq_refl eq_refl) as H.
  cbv zeta in H. destruct H as (H1 & H2 & _). split; assumption.
Defined.

(** ** The reference picker *)

Lemma bounds_table_ok_true : bounds_table_ok = true.
Proof. vm_compute. reflexivity. Qed.

Lemma book_chapters_pos (book : Z) :
  (0 <= book < 66)%Z -> (1 <= book_chapters book)%Z.
Proof.
  intros Hb. pose proof bounds_table_ok_true as H.
  unfold bounds_table_ok in H. rewrite forallb_forall in H.
  specialize (H (Z.to_nat book)). rewrite Z2Nat.id in H by lia.
  assert (Hin : In (Z.to_nat book) (seq 0 BIBLE_BOOKS_COUNT)).
  { apply in_seq. unfold BIBLE_BOOKS_COUNT. lia. }
  apply H in Hin. apply andb_prop in Hin. destruct Hin as [Hc _].
  apply Z.leb_le in Hc. exact Hc.
Qed.

Lemma book_chapter_verses_pos (book chapter : Z) :
  (0 <= book < 66)%Z -> (1 <= chapter <= book_chapters book)%Z ->
  (1 <= book_chapter_verses book chapter)%Z.
Proof.
  intros Hb Hc. pose proof bounds_table_ok_true as H.
  unfold bounds_table_ok in H. rewrite forallb_forall in H.
  specialize (H (Z.to_nat book)). rewrite Z2Nat.id in H by lia.
  assert (Hin : In (Z.to_nat book) (seq 0 BIBLE_BOOKS_COUNT)).
  { apply in_seq. unfold BIBLE_BOOKS_COUNT. lia. }
  apply H in Hin. apply andb_prop in Hin. destruct Hin as [_ Hv].
  rewrite forallb_forall in Hv. specialize (Hv (Z.to_nat chapter)).
  rewrite Z2Nat.id in Hv by lia. apply Z.leb_le. apply Hv.
  apply in_seq. lia.
Qed.

Lemma clamp_chapter_spec (app : App) :
  api_book_sel (clamp_chapter app) = api_book_sel app /\
  api_chapter_sel (clamp_chapter app) =
    Z.min (api_chapter_sel app) (book_chapters (api_book_sel app)) /\
  api_verse_sel (clamp_chapter app) = api_verse_sel app.
Proof.
  unfold clamp_chapter.
  destruct (book_chapters (api_book_sel app) <? api_chapter_sel app)%Z eqn:E;
    cbn [api_book_sel api_chapter_sel api_verse_sel set_api_chapter_sel];
    repeat split; try reflexivity.
  - apply Z.ltb_lt in E. lia.
  - apply Z.ltb_ge in E. lia.
Qed.

Lemma clamp_verse_spec (app : App) :
  api_book_sel (clamp_verse app) = api_book_sel app /\
  api_chapter_sel (clamp_verse app) = api_chapter_sel app /\
  api_verse_sel (clamp_verse app) =
    Z.min (api_verse_sel app)
          (book_chapter_verses (api_book_sel app) (api_chapter_sel app)).
Proof.
  unfold clamp_verse.
  destruct (book_chapter_verses (api_book_sel app) (api_chapter_sel app)
            <? api_verse_sel app)%Z eqn:E;
    cbn [api_book_sel api_chapter_sel api_verse_sel set_api_verse_sel];
    repeat split; try reflexivity.
  - apply Z.ltb_lt in E. lia.
  - apply Z.ltb_ge in E. lia.
Qed.

Lemma book_changed_intro (app : App) (book' : Z) :
  (0 <= book' < 66)%Z ->
  (1 <= api_chapter_sel app)%Z -> (1 <= api_verse_sel app)%Z ->
  book_changed app (clamp_verse (clamp_chapter (set_api_book_sel app book'))) book'.
Proof.
  intros Hb Hc Hv. unfold book_changed.
  destruct (clamp_verse_spec (clamp_chapter (set_api_book_sel app book')))
    as (Eb & Ec & Ev).
  destruct (clamp_chapter_spec (set_api_book_sel app book')) as (Eb' & Ec' & Ev').
  cbn [api_book_sel api_chapter_sel api_verse_sel set_api_book_sel] in Eb', Ec', Ev'.
  rewrite Eb, Ec, Ev, Eb', Ec', Ev'.
  pose proof (book_chapters_pos book' Hb) as Hp.
  assert (Hr : (1 <= Z.min (api_chapter_sel app) (book_chapters book')
                <= book_chapters book')%Z) by lia.
  pose proof (book_chapter_verses_pos book' _ Hb Hr) as Hq.
  repeat split; try reflexivity; lia.
Qed.

(** C8. With the cursor on the book row and [1 <= chapter], [1 <= verse],
    stepping the book wraps around at either end of the 66 books and then
    clamps the chapter to [[1, chapters(book)]] and the verse to
    [[1, verses(book, chapter)]], the verse bound being
    [VERSE_COUNTS[VERSE_COUNT_OFFSET[book] + chapter - 1]].  In Genesis
    the chapter steps down from 1 to 50 and, in Genesis 1, the verse from
    1 to 31; arriving in Psalms with chapter 40 keeps 40; arriving in Ruth
    with chapter 40 gives chapter 4 and the verse capped at
    [verses(Ruth, 4) = 22]. *)
Theorem picker_clamp_cycle (app : App) :
  (0 <= api_book_sel app < 66)%Z ->
  (1 <= api_chapter_sel app)%Z -> (1 <= api_verse_sel app)%Z ->
  let book := api_book_sel app in
  let row := set_api_menu_sel app in
  (* the bound used for the verse *)
  (forall b c, book_chapter_verses b c =
     nth (Z.to_nat (nth (Z.to_nat b) VERSE_COUNT_OFFSET 0%Z + c - 1)) VERSE_COUNTS 0%Z) /\
  (* book: next and previous *)
  book_changed app (api_menu_right (row 1%Z)) ((book + 1) mod 66)%Z /\
  book_changed app (api_menu_left (row 1%Z)) ((book - 1) mod 66)%Z /\
  (* Genesis, chapter 1: chapter down *)
  (book = 0%Z -> api_chapter_sel app = 1%Z ->
   api_chapter_sel (api_menu_left (row 2%Z)) = 50%Z) /\
  (* Genesis 1, verse 1: verse down *)
  (book = 0%Z -> api_chapter_sel app = 1%Z -> api_verse_sel app = 1%Z ->
   api_verse_sel (api_menu_left (row 3%Z)) = 31%Z) /\
  (* into Psalms (from Job) with chapter 40 *)
  (book = 17%Z -> api_chapter_sel app = 40%Z ->
   api_book_sel (api_menu_right (row 1%Z)) = 18%Z /\
   api_chapter_sel (api_menu_right (row 1%Z)) = 40%Z) /\
  (* into Ruth (from Judges) with chapter 40 *)
  (book = 6%Z -> api_chapter_sel app = 40%Z ->
   api_book_sel (api_menu_right (row 1%Z)) = 7%Z /\
   api_chapter_sel (api_menu_right (row 1%Z)) = 4%Z /\
   api_verse_sel (api_menu_right (row 1%Z)) = Z.min (api_verse_sel app) 22 /\
   book_chapter_verses 7 4 = 22%Z).
Proof.
  intros Hb Hc Hv book row.
  assert (Hright : book_changed app (api_menu_right (row 1%Z)) ((book + 1) mod 66)%Z).
  { unfold api_menu_right. cbn [api_menu_sel api_book_sel row set_api_menu_sel].
    destruct (api_book_sel app <? Z.of_nat BIBLE_BOOKS_COUNT - 1)%Z eqn:E.
    - apply Z.ltb_lt in E. unfold BIBLE_BOOKS_COUNT in E.
      replace ((book + 1) mod 66)%Z with (api_book_sel app + 1)%Z
        by (subst book; rewrite Z.mod_small; lia).
      apply (book_changed_intro (row 1%Z)); cbn; try assumption. lia.
    - apply Z.ltb_ge in E. unfold BIBLE_BOOKS_COUNT in E.
      replace ((book + 1) mod 66)%Z with 0%Z
        by (subst book; replace (api_book_sel app) with 65%Z by lia; reflexivity).
      apply (book_changed_intro (row 1%Z)); cbn; try assumption. lia. }
  assert (Hleft : book_changed app (api_menu_left (row 1%Z)) ((book - 1) mod 66)%Z).
  { unfold api_menu_left. cbn [api_menu_sel api_book_sel row set_api_menu_sel].
    destruct (0 <? api_book_sel app)%Z eqn:E.
    - apply Z.ltb_lt in E.
      replace ((book - 1) mod 66)%Z with (api_book_sel app - 1)%Z
        by (subst book; rewrite Z.mod_small; lia).
      apply (book_changed_intro (row 1%Z)); cbn; try assumption. lia.
    - apply Z.ltb_ge in E.
      replace ((book - 1) mod 66)%Z with (Z.of_nat BIBLE_BOOKS_COUNT - 1)%Z
        by (subst book; replace (api_book_sel app) with 0%Z by lia; reflexivity).
      apply (book_changed_intro (row 1%Z)); cbn; try assumption.
      unfold BIBLE_BOOKS_COUNT. lia. }
  split; [reflexivity|]. split; [exact Hright|]. split; [exact Hleft|].
  split; [|split; [|split]].
  - intros B C. subst book. unfold api_menu_left.
    cbn [api_menu_sel api_chapter_sel api_book_sel row set_api_menu_sel].
    rewrite B, C. cbn [Z.ltb Z.compare]. unfold clamp_verse.
    cbn [api_book_sel api_chapter_sel api_verse_sel set_api_chapter_sel].
    destruct (_ <? _)%Z; reflexivity.
  - intros B C V. subst book. unfold api_menu_left.
    cbn [api_menu_sel api_verse_sel api_book_sel api_chapter_sel row set_api_menu_sel].
    rewrite B, C, V. reflexivity.
  - intros B C. destruct Hright as (R1 & R2 & _).
    subst book. rewrite B in R1, R2. rewrite C in R2.
    split; [exact R1|]. rewrite R2. reflexivity.
  - intros B C. destruct Hright as (R1 & R2 & R3 & _).
    subst book. rewrite B in R1, R2, R3. rewrite C in R2.
    assert (R2' : api_chapter_sel (api_menu_right (row 1%Z)) = 4%Z)
      by (rewrite R2; reflexivity).
    rewrite R2' in R3.
    repeat split; [exact R1 | exact R2' | exact R3].
Qed.

Lemma picker_clamp_cycle_witness :
  api_chapter_sel (api_menu_left (set_api_menu_sel genesis_1_1 2)) = 50%Z /\
  api_verse_sel (api_menu_left (set_api_menu_sel genesis_1_1 3)) = 31%Z.
Proof.
  assert (Hb : (0 <= api_book_sel genesis_1_1 < 66)%Z) by (cbn; lia).
  assert (Hc : (1 <= api_chapter_sel genesis_1_1)%Z) by (cbn; lia).
  assert (Hv : (1 <= api_verse_sel genesis_1_1)%Z) by (cbn; lia).
  pose proof (picker_clamp_cycle genesis_1_1 Hb Hc Hv) as H.
  cbv zeta in H. destruct H as (_ & _ & _ & H2 & H3 & _).
  split; [apply H2 | apply H3]; reflexivity.
Defined.

(** ** Lines longer than the line buffer *)

(** C9 (the code departs from it). The file [long_line_file] is one
    physical line of 322 bytes.  [build_index] takes its first 319 bytes
    as one record and then goes on reading in the middle of the line: the
    remaining [a|b] holds a delimiter and becomes a second index entry,
    whose offset 319 is not the start of any line. *)
Theorem build_index_long_line_two_entries :
  let app' := snd (build_index (app_with_corpus long_line_file)) in
  count_occ ascii_dec long_line_file LF = 1 /\
  last long_line_file NUL = LF /\
  length long_line = 322 /\
  verse_count app' = 2 /\
  map offset (index app') = [0%Z; 319%Z] /\
  map ref (index app') = [lit "Ref"; lit "a"].
Proof. vm_compute. repeat split; reflexivity. Qed.

(** ** Search ordinals against verse ids *)

(** C4 (the code departs from it). In [junk_file] the first line has no
    delimiter.  [build_index] skips it, so verse id 0 is the record on the
    second line (offset 5); the loop of [do_search] counts it, so ordinal 0
    is the line [junk].  Searching for [junk] returns hit 0, and the
    record with verse id 0 does not contain the query; searching for
    [Genesis] returns nothing, because the loop stops at
    [verse_num = verse_count = 1] before it reads the record. *)
Theorem search_ordinal_differs_from_verse_id :
  let app := snd (build_index (app_with_corpus junk_file)) in
  let found := do_search (set_search app (lit "junk")) in
  verse_count app = 1 /\
  map offset (index app) = [5%Z] /\
  counted_lines junk_file = [lit "junk"; lit "Gen 1:1|Genesis|In the beginning"] /\
  hits_idx (hits found) = [0%Z] /\
  fst (read_verse_text found 0 LINE_BUF_LEN) = Some (lit "In the beginning") /\
  icontains (fst (read_line (storage_file_seek (open_file junk_file) 5) LINE_BUF_LEN))
            (lit "junk") = false /\
  hits_idx (hits (do_search (set_search app (lit "Genesis")))) = [].
Proof. vm_compute. repeat split; reflexivity. Qed.

(** ** The bookmark store *)

Lemma remove_first_none (x : Z) (l : list Z) :
  remove_first x l = None <-> existsb (Z.eqb x) l = false.
Proof.
  induction l as [|y l IH]; cbn; [tauto|].
  rewrite (Z.eqb_sym x y).
  destruct (y =? x)%Z; cbn; [split; discriminate|].
  destruct (remove_first x l) as [r|]; cbn.
  - split; [discriminate|]. intros H. apply IH in H. discriminate.
  - split; intros _; [apply IH|]; reflexivity.
Qed.

Lemma remove_first_some (x : Z) (l l' : list Z) :
  remove_first x l = Some l' ->
  length l = S (length l') /\
  count_occ Z.eq_dec l x = S (count_occ Z.eq_dec l' x) /\
  (forall y, In y l' -> In y l) /\
  (NoDup l -> NoDup l').
Proof.
  revert l'. induction l as [|y l IH]; intros l' H; cbn in H; [discriminate|].
  destruct (y =? x)%Z eqn:E.
  - apply Z.eqb_eq in E. inversion H; subst. cbn.
    destruct (Z.eq_dec x x); [|congruence].
    repeat split; auto. intros N. inversion N; assumption.
  - apply Z.eqb_neq in E.
    destruct (remove_first x l) as [r|]; cbn in H; [|discriminate].
    inversion H; subst. destruct (IH r eq_refl) as (L & C & I & N). cbn.
    destruct (Z.eq_dec y x); [congruence|].
    repeat split; auto.
    + intros z [Hz|Hz]; [left; assumption | right; auto].
    + intros D. inversion D; subst. constructor; auto.
Qed.

Lemma remove_first_snoc (x : Z) (l : list Z) :
  existsb (Z.eqb x) l = false -> remove_first x (l ++ [x]) = Some l.
Proof.
  induction l as [|y l IH]; cbn; intros H.
  - rewrite Z.eqb_refl. reflexivity.
  - apply orb_false_elim in H. destruct H as [H1 H2].
    rewrite Z.eqb_sym in H1. rewrite H1, (IH H2). reflexivity.
Qed.

Lemma existsb_count_occ (x : Z) (l : list Z) :
  existsb (Z.eqb x) l = true <-> 0 < count_occ Z.eq_dec l x.
Proof.
  rewrite existsb_exists. split.
  - intros (y & Hy & E). apply Z.eqb_eq in E. subst.
    apply (count_occ_In Z.eq_dec) in Hy. lia.
  - intros H. exists x. split; [|apply Z.eqb_refl].
    apply (count_occ_In Z.eq_dec). lia.
Qed.

Lemma bmarks_save_bmarks (app : App) : bmarks (bmarks_save app) = bmarks app.
Proof. unfold bmarks_save. destruct (sd_writable (storage app)); reflexivity. Qed.

(** The list held after a toggle, whatever the card does. *)
Lemma toggle_bmark_idx (app : App) (x : Z) :
  bm_idx (bmarks (toggle_bmark app x)) =
  match remove_first x (bm_idx (bmarks app)) with
  | Some l' => l'
  | None => if length (bm_idx (bmarks app)) <? MAX_BOOKMARKS
            then bm_idx (bmarks app) ++ [x] else bm_idx (bmarks app)
  end.
Proof.
  unfold toggle_bmark.
  destruct (remove_first x (bm_idx (bmarks app))).
  - rewrite bmarks_save_bmarks. reflexivity.
  - destruct (length (bm_idx (bmarks app)) <? MAX_BOOKMARKS).
    + rewrite bmarks_save_bmarks. reflexivity.
    + reflexivity.
Qed.

Lemma toggle_bmark_capacity (app : App) (x : Z) :
  length (bm_idx (bmarks app)) <= MAX_BOOKMARKS ->
  length (bm_idx (bmarks (toggle_bmark app x))) <= MAX_BOOKMARKS.
Proof.
  intros H. rewrite toggle_bmark_idx.
  destruct (remove_first x (bm_idx (bmarks app))) as [l'|] eqn:E.
  - apply remove_first_some in E. lia.
  - destruct (length (bm_idx (bmarks app)) <? MAX_BOOKMARKS) eqn:C; [|assumption].
    apply Nat.ltb_lt in C. rewrite length_app. cbn. lia.
Qed.

Lemma toggles_capacity (xs : list Z) :
  forall app,
    length (bm_idx (bmarks app)) <= MAX_BOOKMARKS ->
    length (bm_idx (bmarks (toggles app xs))) <= MAX_BOOKMARKS.
Proof.
  unfold toggles.
  induction xs as [|x xs IH]; intros app H; cbn; [assumption|].
  apply IH. apply toggle_bmark_capacity. assumption.
Qed.

Lemma toggle_bmark_nodup (app : App) (x : Z) :
  NoDup (bm_idx (bmarks app)) -> NoDup (bm_idx (bmarks (toggle_bmark app x))).
Proof.
  intros H. rewrite toggle_bmark_idx.
  destruct (remove_first x (bm_idx (bmarks app))) as [l'|] eqn:E.
  - apply remove_first_some in E. tauto.
  - destruct (length (bm_idx (bmarks app)) <? MAX_BOOKMARKS); [|assumption].
    apply remove_first_none in E.
    apply NoDup_app; [assumption | constructor; [intros []|constructor] |].
    intros y Hy [Hx|[]]. subst y.
    assert (existsb (Z.eqb x) (bm_idx (bmarks app)) = true); [|congruence].
    apply existsb_exists. exists x. split; [assumption | apply Z.eqb_refl].
Qed.

Lemma toggle_bmark_twice (app : App) (x : Z) :
  count_occ Z.eq_dec (bm_idx (bmarks app)) x <= 1 ->
  length (bm_idx (bmarks app)) <= MAX_BOOKMARKS ->
  is_bookmarked (toggle_bmark (toggle_bmark app x) x) x = is_bookmarked app x.
Proof.
  intros Hc Hl. unfold is_bookmarked.
  rewrite (toggle_bmark_idx (toggle_bmark app x)), (toggle_bmark_idx app).
  destruct (remove_first x (bm_idx (bmarks app))) as [l'|] eqn:E.
  - (* present: removed, then added again *)
    pose proof (remove_first_some _ _ _ E) as (L & C & _ & _).
    assert (Hin : existsb (Z.eqb x) (bm_idx (bmarks app)) = true).
    { apply existsb_count_occ. lia. }
    assert (Hout : existsb (Z.eqb x) l' = false).
    { destruct (existsb (Z.eqb x) l') eqn:X; [|reflexivity].
      apply existsb_count_occ in X. lia. }
    apply remove_first_none in Hout. rewrite Hout.
    assert (Hroom : (length l' <? MAX_BOOKMARKS) = true) by (apply Nat.ltb_lt; lia).
    rewrite Hroom, Hin, existsb_app. cbn. rewrite Z.eqb_refl.
    apply orb_true_iff. right. reflexivity.
  - pose proof E as Habs. apply remove_first_none in Habs.
    destruct (length (bm_idx (bmarks app)) <? MAX_BOOKMARKS) eqn:R.
    + (* absent with room: added, then removed again *)
      rewrite (remove_first_snoc _ _ Habs). reflexivity.
    + (* absent and full: nothing happens, twice *)
      rewrite E, R. reflexivity.
Qed.

Lemma toggle_bmark_persists (app : App) (x : Z) :
  sd_writable (storage app) = true ->
  bmarks (toggle_bmark app x) <> bmarks app ->
  bm_file (storage (toggle_bmark app x)) =
  Some (bmarks_text (bm_idx (bmarks (toggle_bmark app x)))).
Proof.
  intros W. unfold toggle_bmark.
  destruct (remove_first x (bm_idx (bmarks app))).
  - intros _. unfold bmarks_save. cbn [storage set_bmarks]. rewrite W. reflexivity.
  - destruct (length (bm_idx (bmarks app)) <? MAX_BOOKMARKS).
    + intros _. unfold bmarks_save. cbn [storage set_bmarks]. rewrite W. reflexivity.
    + intros H. congruence.
Qed.

(** One line of the bookmark file, read into the 8-byte buffer. *)
Lemma bmarks_loop_line (line : list ascii) :
  forall buf rest idx vcount,
    Forall (fun c => c <> LF /\ c <> CR) line ->
    buf ++ line <> [] -> length buf <= 7 ->
    length idx < MAX_BOOKMARKS ->
    bmarks_loop (line ++ LF :: rest) buf idx vcount =
    bmarks_loop rest [] (bmarks_push (firstn 7 (buf ++ line)) idx vcount) vcount.
Proof.
  induction line as [|c line IH]; intros buf rest idx vcount Hcl Hne Hb Hi.
  - rewrite app_nil_r in *. cbn [app bmarks_loop].
    apply Nat.leb_gt in Hi. rewrite Hi.
    rewrite Ascii.eqb_refl. cbn [orb].
    destruct buf as [|b buf]; [congruence|]. cbn [length Nat.ltb Nat.leb].
    rewrite firstn_all2 by assumption. reflexivity.
  - inversion Hcl as [|? ? [Hlf Hcr] Hcl']; subst.
    cbn [app bmarks_loop].
    pose proof Hi as Hi'. apply Nat.leb_gt in Hi'. rewrite Hi'.
    apply Ascii.eqb_neq in Hlf, Hcr. rewrite Hlf, Hcr. cbn [orb].
    destruct (length buf <? 7) eqn:E.
    + apply Nat.ltb_lt in E. rewrite IH; try assumption.
      * rewrite <- app_assoc. reflexivity.
      * destruct buf; discriminate.
      * rewrite length_app. cbn. lia.
    + apply Nat.ltb_ge in E. rewrite IH; try assumption.
      * rewrite !firstn_app.
        replace (7 - length buf) with 0 by lia. reflexivity.
      * destruct buf; [cbn in E; lia | discriminate].
Qed.






(** ** Search *)

Lemma read_line_loop_consumes (rest line : list ascii) (buf_sz : nat) :
  forall line' rest',
    read_line_loop rest line buf_sz = (line', rest') ->
    length line <= length line' /\
    length rest' + (length line' - length line) <= length rest.
Proof.
  revert line.
  induction rest as [|ch rest IH]; intros line line' rest' H;
    cbn [read_line_loop] in H.
  - destruct (buf_sz - 1 <=? length line); inversion H; subst; lia.
  - destruct (buf_sz - 1 <=? length line).
    + inversion H; subst. lia.
    + destruct (Ascii.eqb ch CR).
      * apply IH in H. cbn [length]. lia.
      * destruct (Ascii.eqb ch LF).
        -- inversion H; subst. cbn [length]. lia.
        -- apply IH in H. rewrite length_app in H. cbn [length] in *. lia.
Qed.

Lemma search_loop_total (fuel : nat) :
  forall rest vn found vc needle,
    length rest < fuel ->
    exists r, search_loop fuel rest vn found vc needle = Some r.
Proof.
  induction fuel as [|fuel IH]; intros rest vn found vc needle Hf; [lia|].
  cbn [search_loop].
  destruct ((vn <? vc)%Z && (length found <? MAX_SEARCH_RESULTS)); [|eauto].
  destruct (read_line_loop rest [] LINE_BUF_LEN) as [line rest1] eqn:E.
  apply read_line_loop_consumes in E. cbn [length] in E.
  destruct line as [|c line].
  - destruct rest1 as [|b rest2]; [eauto|]. apply IH. cbn [length] in E. lia.
  - apply IH. cbn [length] in E. lia.
Qed.

Lemma counted_lines_loop_fuel (fuel1 : nat) :
  forall fuel2 rest,
    length rest < fuel1 -> length rest < fuel2 ->
    counted_lines_loop fuel1 rest = counted_lines_loop fuel2 rest.
Proof.
  induction fuel1 as [|fuel1 IH]; intros fuel2 rest H1 H2; [lia|].
  destruct fuel2 as [|fuel2]; [lia|]. cbn [counted_lines_loop].
  destruct (read_line_loop rest [] LINE_BUF_LEN) as [line rest1] eqn:E.
  apply read_line_loop_consumes in E. cbn [length] in E.
  destruct line as [|c line].
  - destruct rest1 as [|b rest2]; [reflexivity|].
    cbn [length] in E. apply IH; lia.
  - cbn [length] in E. f_equal. apply IH; lia.
Qed.

(** The loop equation of [counted_lines], free of fuel. *)
Lemma counted_lines_unfold (rest : list ascii) :
  counted_lines rest =
  let '(line, rest1) := read_line_loop rest [] LINE_BUF_LEN in
  match line with
  | [] => match rest1 with
          | [] => []
          | _ :: rest2 => counted_lines rest2
          end
  | _ :: _ => line :: counted_lines rest1
  end.
Proof.
  unfold counted_lines at 1. cbn [counted_lines_loop].
  destruct (read_line_loop rest [] LINE_BUF_LEN) as [line rest1] eqn:E.
  apply read_line_loop_consumes in E. cbn [length] in E.
  destruct line as [|c line].
  - destruct rest1 as [|b rest2]; [reflexivity|].
    cbn [length] in E. apply counted_lines_loop_fuel; lia.
  - cbn [length] in E. f_equal. apply counted_lines_loop_fuel; lia.
Qed.

Lemma match_here_sound (needle : list ascii) :
  forall h, match_here h needle = true ->
       exists mid post, h = mid ++ post /\ map to_lower mid = map to_lower needle.
Proof.
  induction needle as [|b needle IH]; intros h H.
  - exists [], h. split; reflexivity.
  - destruct h as [|a h]; cbn in H; [discriminate|].
    destruct (Ascii.eqb (to_lower a) (to_lower b)) eqn:E; [|discriminate].
    apply Ascii.eqb_eq in E. destruct (IH h H) as (mid & post & Hh & Hm).
    exists (a :: mid), post. subst h. cbn. rewrite E, Hm. split; reflexivity.
Qed.

Lemma icontains_loop_sound (steps : nat) :
  forall h needle, icontains_loop steps h needle = true -> contains_ci h needle.
Proof.
  induction steps as [|steps IH]; intros h needle H; cbn in H; [discriminate|].
  destruct (match_here h needle) eqn:M.
  - destruct (match_here_sound _ _ M) as (mid & post & Hh & Hm).
    exists [], mid, post. split; assumption.
  - destruct h as [|a h]; [discriminate|].
    destruct (IH _ _ H) as (pre & mid & post & Hh & Hm).
    exists (a :: pre), mid, post. subst h. split; [reflexivity | assumption].
Qed.

Lemma icontains_sound (hay needle : list ascii) :
  icontains hay needle = true -> contains_ci (c_str hay) (c_str needle).
Proof.
  unfold icontains. destruct (c_str needle) as [|b n] eqn:N; [discriminate|].
  destruct (length (c_str hay) <? length (b :: n)); [discriminate|].
  apply icontains_loop_sound.
Qed.

Lemma read_line_loop_plain (l : list ascii) :
  forall acc rest,
    Forall (fun c => c <> CR /\ c <> LF) l ->
    length acc + length l < LINE_BUF_LEN - 1 ->
    read_line_loop (l ++ LF :: rest) acc LINE_BUF_LEN = (acc ++ l, rest).
Proof.
  induction l as [|c l IH]; intros acc rest Hp Hl;
    cbn [List.app read_line_loop];
    (assert (E : (LINE_BUF_LEN - 1 <=? length acc) = false)
      by (apply Nat.leb_gt; cbn [length] in Hl; lia));
    rewrite E.
  - change (Ascii.eqb LF CR) with false. rewrite Ascii.eqb_refl.
    rewrite app_nil_r. reflexivity.
  - inversion Hp as [|? ? [Hcr Hlf] Hp']; subst.
    apply Ascii.eqb_neq in Hcr, Hlf. rewrite Hcr, Hlf.
    cbn [length] in Hl.
    rewrite IH; [|assumption|rewrite length_app; cbn [length]; lia].
    rewrite <- app_assoc. reflexivity.
Qed.

(** On a corpus of whole lines the search counts the lines themselves. *)
Lemma counted_lines_whole (ls : list (list ascii)) :
  Forall whole_line ls -> counted_lines (corpus_of_lines ls) = ls.
Proof.
  induction 1 as [|l ls (Hne & Hp & Hl) Hls IH].
  - reflexivity.
  - rewrite counted_lines_unfold.
    unfold corpus_of_lines. cbn [map concat]. fold (corpus_of_lines ls).
    rewrite <- app_assoc. cbn [List.app].
    rewrite (read_line_loop_plain l [] _ Hp) by (cbn [length]; lia).
    cbn [List.app]. destruct l as [|c l]; [congruence|].
    rewrite IH. reflexivity.
Qed.

(** What [search_loop] adds to [found]: ordinals from [vn] on, in
    ascending order, each one counting a line that holds the needle. *)
Lemma search_loop_hits (fuel : nat) :
  forall rest vn found vc needle r,
    search_loop fuel rest vn found vc needle = Some r ->
    (0 <= vn)%Z ->
    StronglySorted Z.lt found ->
    Forall (fun id => (id < vn)%Z) found ->
    length found <= MAX_SEARCH_RESULTS ->
    StronglySorted Z.lt (fst r) /\
    length (fst r) <= MAX_SEARCH_RESULTS /\
    Forall (fun id =>
              In id found \/
              ((vn <= id < vc)%Z /\
               exists line,
                 nth_error (counted_lines rest) (Z.to_nat (id - vn)) = Some line /\
                 icontains line needle = true)) (fst r).
Proof.
  induction fuel as [|fuel IH]; intros rest vn found vc needle r H H0 Hs Hb Hl;
    [discriminate|].
  cbn [search_loop] in H.
  assert (Hstop : StronglySorted Z.lt found /\
                  length found <= MAX_SEARCH_RESULTS /\
                  Forall (fun id =>
                    In id found \/
                    ((vn <= id < vc)%Z /\
                     exists line,
                       nth_error (counted_lines rest) (Z.to_nat (id - vn)) = Some line /\
                       icontains line needle = true)) found).
  { repeat split; try assumption. apply Forall_forall. intros; left; assumption. }
  destruct ((vn <? vc)%Z && (length found <? MAX_SEARCH_RESULTS)) eqn:G.
  2:{ inversion H; subst. exact Hstop. }
  apply andb_prop in G. destruct G as [Gv Gc].
  apply Z.ltb_lt in Gv. apply Nat.ltb_lt in Gc.
  rewrite (counted_lines_unfold rest).
  destruct (read_line_loop rest [] LINE_BUF_LEN) as [line rest1].
  destruct line as [|c line].
  - destruct rest1 as [|b rest2].
    + inversion H; subst. cbn [fst].
      destruct Hstop as (S1 & S2 & S3). repeat split; try assumption.
      apply Forall_forall. intros; left; assumption.
    + apply (IH _ _ _ _ _ _ H); assumption.
  - set (found' := if icontains (c :: line) needle then found ++ [vn] else found) in H.
    assert (Hs' : StronglySorted Z.lt found').
    { subst found'. destruct (icontains (c :: line) needle); [|assumption].
      apply StronglySorted_snoc; assumption. }
    assert (Hb' : Forall (fun id => (id < vn + 1)%Z) found').
    { subst found'. destruct (icontains (c :: line) needle).
      - apply Forall_app. split.
        + eapply Forall_impl; [|exact Hb]. cbn. intros. lia.
        + repeat constructor. lia.
      - eapply Forall_impl; [|exact Hb]. cbn. intros. lia. }
    assert (Hl' : length found' <= MAX_SEARCH_RESULTS).
    { subst found'. destruct (icontains (c :: line) needle); [|assumption].
      rewrite length_app. cbn. lia. }
    destruct (IH _ _ _ _ _ _ H ltac:(lia) Hs' Hb' Hl') as (R1 & R2 & R3).
    repeat split; try assumption.
    eapply Forall_impl; [|exact R3]. cbn. intros id [Hin | (Hr & ln & Hn & Hi)].
    + subst found'. destruct (icontains (c :: line) needle) eqn:I.
      * apply in_app_or in Hin. destruct Hin as [Hin | [Hin | []]].
        -- left. assumption.
        -- subst id. right. split; [lia|]. exists (c :: line).
           rewrite Z.sub_diag. split; [reflexivity | assumption].
      * left. assumption.
    + right. split; [lia|]. exists ln. split; [|assumption].
      replace (Z.to_nat (id - vn)) with (S (Z.to_nat (id - (vn + 1)))) by lia.
      exact Hn.
Qed.

Lemma do_search_sound (app : App) :
  let ids := hits_idx (hits (do_search app)) in
  (search_len app = 0%Z -> ids = [] /\ vfile (do_search app) = vfile app) /\
  StronglySorted Z.lt ids /\
  Forall (fun id => (0 <= id < Z.of_nat (verse_count app))%Z) ids /\
  length ids <= MAX_SEARCH_RESULTS /\
  (forall f, vfile app = Some f ->
     Forall (fun id =>
               exists line,
                 nth_error (counted_lines (contents f)) (Z.to_nat id) = Some line /\
                 icontains line (search_buf app) = true) ids).
Proof.
  cbv zeta. unfold do_search.
  cbn [search_len set_hits vfile verse_count index search_buf].
  destruct (search_len app =? 0)%Z eqn:Q.
  { cbn. repeat split; try constructor. unfold MAX_SEARCH_RESULTS. lia. }
  split; [intros Hq; rewrite Hq in Q; discriminate|].
  destruct (vfile app) as [f|] eqn:Ef.
  2:{ cbn. repeat split; try constructor; try (unfold MAX_SEARCH_RESULTS; lia);
        discriminate. }
  cbn [storage_file_seek unread Z.to_nat skipn].
  change (verse_count (set_hits app (mkHits [] 0))) with (length (index app)).
  destruct (search_loop_total _ (contents f) 0%Z [] (Z.of_nat (length (index app)))
              (search_buf app) (Nat.lt_succ_diag_r _)) as [[found rest] Hr].
  rewrite Hr. cbn [hits hits_idx set_vfile set_hits].
  assert (Hl0 : length (@nil Z) <= MAX_SEARCH_RESULTS)
    by (cbn; unfold MAX_SEARCH_RESULTS; lia).
  destruct (search_loop_hits _ _ _ _ _ _ _ Hr (Z.le_refl 0)
              (SSorted_nil Z.lt) (Forall_nil _) Hl0) as (R1 & R2 & R3).
  cbn [fst] in R1, R2, R3.
  repeat split; try assumption.
  - eapply Forall_impl; [|exact R3]. cbn. intros id [[] | (Hr' & _)].
    unfold verse_count. lia.
  - intros f' Hf'. inversion Hf'; subst f'.
    eapply Forall_impl; [|exact R3]. cbn.
    intros id [[] | (_ & line & Hn & Hi)].
    exists line. rewrite Z.sub_0_r in Hn. split; assumption.
Qed.

(** C3. An empty query gives no results and leaves the file where it
    was.  Any query gives verse ids in strictly ascending order, each
    below [verse_count], at most 50 of them, and the line that the search
    counted at each returned ordinal holds the query up to ASCII case.
    The counted lines are those of [counted_lines]; on a corpus of whole
    lines they are the lines of the file. *)
Theorem do_search_hits (app : App) :
  let ids := hits_idx (hits (do_search app)) in
  (search_len app = 0%Z -> ids = [] /\ vfile (do_search app) = vfile app) /\
  StronglySorted Z.lt ids /\
  Forall (fun id => (0 <= id < Z.of_nat (verse_count app))%Z) ids /\
  length ids <= MAX_SEARCH_RESULTS /\
  (forall f, vfile app = Some f ->
     Forall (fun id =>
               exists line,
                 nth_error (counted_lines (contents f)) (Z.to_nat id) = Some line /\
                 contains_ci (c_str line) (c_str (search_buf app))) ids) /\
  (forall ls, Forall whole_line ls -> counted_lines (corpus_of_lines ls) = ls).
Proof.
  destruct (do_search_sound app) as (He & Hs & Hb & Hl & Hc). cbv zeta in *.
  repeat split; try assumption; try (apply He; assumption).
  - intros f Hf. eapply Forall_impl; [|exact (Hc f Hf)].
    cbn. intros id (line & Hn & Hi). exists line. split; [exact Hn|].
    apply icontains_sound. exact Hi.
  - apply counted_lines_whole.
Qed.

Lemma do_search_hits_witness :
  (hits_idx (hits (do_search (psalm_search []))) = [] /\
   vfile (do_search (psalm_search [])) = vfile (psalm_search [])) /\
  Forall (fun id =>
            exists line,
              nth_error (counted_lines psalm_file) (Z.to_nat id) = Some line /\
              contains_ci (c_str line) (lit "the"))
         (hits_idx (hits (do_search (psalm_search (lit "the"))))).
Proof.
  split.
  - destruct (do_search_hits (psalm_search [])) as (H & _).
    apply H. reflexivity.
  - destruct (do_search_hits (psalm_search (lit "the"))) as (_ & _ & _ & _ & H & _).
    apply (H (mkFile psalm_file [])). vm_compute. reflexivity.
Defined.

Example do_search_psalm_the :
  hits_idx (hits (do_search (psalm_search (lit "the")))) = [0%Z; 3%Z].
Proof. vm_compute. reflexivity. Qed.

(** ** Word wrap *)

Lemma scan_break_le (s : list ascii) (k : nat) : scan_break s k <= k.
Proof.
  induction k as [|k IH]; cbn; [lia|].
  destruct (Ascii.eqb (nth (S k) s NUL) SPC); lia.
Qed.

Lemma scan_break_space (s : list ascii) (k : nat) :
  0 < scan_break s k -> nth (scan_break s k) s NUL = SPC.
Proof.
  induction k as [|k IH]; cbn; [lia|].
  destruct (Ascii.eqb (nth (S k) s NUL) SPC) eqn:E; [|exact IH].
  intros _. apply Ascii.eqb_eq. exact E.
Qed.

Lemma scan_break_above (s : list ascii) (k j : nat) :
  scan_break s k < j <= k -> nth j s NUL <> SPC.
Proof.
  induction k as [|k IH]; cbn; intros H; [lia|].
  destruct (Ascii.eqb (nth (S k) s NUL) SPC) eqn:E; [lia|].
  destruct (Nat.eq_dec j (S k)) as [->|N].
  - apply Ascii.eqb_neq. exact E.
  - apply IH. lia.
Qed.

Lemma scan_break_hit (s : list ascii) (k : nat) :
  0 < k -> nth k s NUL = SPC -> scan_break s k = k.
Proof.
  destruct k as [|k]; [lia|]. cbn. intros _ H.
  rewrite H, Ascii.eqb_refl. reflexivity.
Qed.

Lemma scan_break_agree (s s' : list ascii) (k : nat) :
  (forall j, j <= k -> nth j s NUL = nth j s' NUL) ->
  scan_break s k = scan_break s' k.
Proof.
  induction k as [|k IH]; intros H; cbn; [reflexivity|].
  rewrite <- (H (S k)) by lia.
  destruct (Ascii.eqb (nth (S k) s NUL) SPC); [reflexivity|].
  apply IH. intros j Hj. apply H. lia.
Qed.

(** The scan looks at the first [k + 1] characters only. *)
Lemma scan_break_ext (s s' : list ascii) (k : nat) :
  firstn (S k) s = firstn (S k) s' -> scan_break s k = scan_break s' k.
Proof.
  intros H. apply scan_break_agree. intros j Hj.
  pose proof (nth_firstn (S k) s j NUL) as A.
  pose proof (nth_firstn (S k) s' j NUL) as B.
  assert (E : (j <? S k) = true) by (apply Nat.ltb_lt; lia).
  rewrite E in A, B. rewrite <- A, <- B, H. reflexivity.
Qed.

Lemma break_at_le (s : list ascii) (c : nat) : break_at s c <= c.
Proof.
  unfold break_at. pose proof (scan_break_le s c).
  destruct (scan_break s c =? 0); lia.
Qed.

Lemma break_at_bounds (s : list ascii) (c : nat) :
  1 <= c -> 1 <= break_at s c <= c.
Proof.
  intros Hc. unfold break_at. pose proof (scan_break_le s c).
  destruct (scan_break s c =? 0) eqn:E.
  - lia.
  - apply Nat.eqb_neq in E. lia.
Qed.

Lemma wrap_loop_short (n : nat) (s : list ascii) (c : nat) :
  s <> [] -> length s <= c -> wrap_loop (S n) s c = [s].
Proof.
  intros Hs Hl. destruct s as [|a s]; [congruence|]. cbn [wrap_loop].
  apply Nat.leb_le in Hl. rewrite Hl. reflexivity.
Qed.

Lemma wrap_loop_long (n : nat) (s : list ascii) (c : nat) :
  c < length s ->
  wrap_loop (S n) s c =
  firstn (break_at s c) s
    :: wrap_loop n (skip_space (skipn (break_at s c) s)) c.
Proof.
  intros Hl. destruct s as [|a s]; [cbn in Hl; lia|]. cbn [wrap_loop].
  apply Nat.leb_gt in Hl. rewrite Hl. reflexivity.
Qed.

Lemma join_lines_cons (l : list ascii) (ls : list (list ascii)) :
  join_lines (l :: ls) =
  l ++ match ls with [] => [] | _ :: _ => SPC :: join_lines ls end.
Proof. destruct ls; cbn [join_lines]; [rewrite app_nil_r|]; reflexivity. Qed.

(** A run of [m] characters without a space at the head of the text
    stays at the head of the rejoined lines. *)
Lemma join_wrap_prefix (n : nat) (s : list ascii) (c m : nat) :
  m <= c -> m <= length s ->
  (forall j, j < m -> nth j s NUL <> SPC) ->
  firstn m (join_lines (wrap_loop (S n) s c)) = firstn m s.
Proof.
  intros Hmc Hml Hns.
  destruct (le_gt_dec (length s) c) as [Hshort|Hlong].
  - destruct s as [|a s]; [reflexivity|].
    rewrite wrap_loop_short by (assumption || discriminate). reflexivity.
  - rewrite wrap_loop_long by assumption. rewrite join_lines_cons.
    assert (Hb : m <= break_at s c).
    { unfold break_at. destruct (scan_break s c =? 0) eqn:E; [assumption|].
      apply Nat.eqb_neq in E.
      destruct (le_gt_dec m (scan_break s c)) as [|G]; [assumption|].
      exfalso. apply (Hns _ G). apply scan_break_space. lia. }
    pose proof (break_at_le s c) as Hbc.
    rewrite firstn_app, firstn_firstn, length_firstn.
    replace (Nat.min m (break_at s c)) with m by lia.
    replace (m - Nat.min (break_at s c) (length s)) with 0 by lia.
    cbn [firstn]. apply app_nil_r.
Qed.

Lemma skipn_nth_cons (s : list ascii) :
  forall b, b < length s -> skipn b s = nth b s NUL :: skipn (S b) s.
Proof.
  induction s as [|a s IH]; intros b Hb; [cbn in Hb; lia|].
  destruct b as [|b]; [reflexivity|].
  cbn [skipn nth]. apply IH. cbn in Hb. lia.
Qed.

Section Rewrap.

(** The column width, after [word_wrap] has clamped it. *)
Variable c : nat.
Hypothesis c_pos : 1 <= c.

(** Re-wrapping the rejoined lines breaks the first line where the first
    pass broke it. *)
Lemma rejoin_first_break (n : nat) (s : list ascii) :
  c < length s ->
  let b := break_at s c in
  let rest := skip_space (skipn b s) in
  wrap_loop n rest c <> [] ->
  let u := firstn b s ++ SPC :: join_lines (wrap_loop n rest c) in
  c < length u /\ break_at u c = b.
Proof.
  intros Hl b rest Hne u. pose proof c_pos as Hc.
  pose proof (break_at_bounds s c Hc) as Hb. fold b in Hb.
  assert (Hl1 : length (firstn b s) = b) by (apply firstn_length_le; lia).
  destruct (Nat.eq_dec b c) as [Ebc|Nbc].
  - (* the line is full: the inserted space sits at the column boundary *)
    assert (Hsp : nth c u NUL = SPC).
    { subst u. rewrite <- Ebc. rewrite <- Hl1 at 1. apply nth_middle. }
    split.
    + subst u. rewrite length_app. cbn [length]. lia.
    + unfold break_at. rewrite (scan_break_hit u c) by (lia || assumption).
      destruct (c =? 0) eqn:E; [apply Nat.eqb_eq in E; lia | lia].
  - (* the line broke at a space before the boundary *)
    assert (Hsb : scan_break s c = b).
    { subst b. unfold break_at in *.
      destruct (scan_break s c =? 0); [lia | reflexivity]. }
    assert (Hspace : nth b s NUL = SPC).
    { rewrite <- Hsb. apply scan_break_space. lia. }
    assert (Hskip : skipn b s = SPC :: skipn (S b) s).
    { rewrite <- Hspace. apply skipn_nth_cons. lia. }
    assert (Hrest : rest = skipn (S b) s).
    { subst rest. rewrite Hskip. reflexivity. }
    destruct n as [|n]; [cbn in Hne; congruence|].
    assert (Hpre : firstn (c - b) (join_lines (wrap_loop (S n) rest c))
                   = firstn (c - b) rest).
    { apply join_wrap_prefix.
      - lia.
      - rewrite Hrest, length_skipn. lia.
      - intros j Hj. rewrite Hrest, nth_skipn.
        apply (scan_break_above s c). rewrite Hsb. lia. }
    assert (Hfirst : firstn (S c) u = firstn (S c) s).
    { subst u. rewrite firstn_app, Hl1.
      rewrite (firstn_all2 (n := S c) (firstn b s)) by lia.
      replace (S c - b) with (S (c - b)) by lia. cbn [firstn].
      rewrite Hpre, Hrest.
      assert (Hs : firstn b s ++ SPC :: skipn (S b) s = s)
        by (rewrite <- Hskip; apply firstn_skipn).
      transitivity (firstn (S c) (firstn b s ++ SPC :: skipn (S b) s));
        [|rewrite Hs; reflexivity].
      rewrite firstn_app, Hl1.
      rewrite (firstn_all2 (n := S c) (firstn b s)) by lia.
      replace (S c - b) with (S (c - b)) by lia. reflexivity. }
    split.
    + assert (length (firstn (S c) u) = S c).
      { rewrite Hfirst. apply firstn_length_le. lia. }
      pose proof (firstn_le_length (S c) u).
      rewrite length_firstn in H. lia.
    + unfold break_at. rewrite (scan_break_ext _ _ _ Hfirst), Hsb.
      destruct (b =? 0) eqn:E; [apply Nat.eqb_eq in E; lia | reflexivity].
Qed.

Lemma wrap_loop_rejoin (n : nat) :
  forall s, wrap_loop n (join_lines (wrap_loop n s c)) c = wrap_loop n s c.
Proof.
  pose proof c_pos as Hc.
  induction n as [|n IH]; intros s; [reflexivity|].
  destruct s as [|a s0]; [reflexivity|].
  remember (a :: s0) as s eqn:Es.
  assert (Hs : s <> []) by (subst s; discriminate).
  destruct (le_gt_dec (length s) c) as [Hshort|Hlong].
  - rewrite (wrap_loop_short n s c Hs Hshort). cbn [join_lines].
    apply wrap_loop_short; assumption.
  - rewrite (wrap_loop_long n s c Hlong).
    pose proof (break_at_bounds s c Hc) as Hb.
    pose proof (rejoin_first_break n s Hlong) as Hstep. cbv zeta in Hstep.
    set (b := break_at s c) in *.
    set (rest := skip_space (skipn b s)) in *.
    assert (Hl1 : length (firstn b s) = b) by (apply firstn_length_le; lia).
    destruct (wrap_loop n rest c) as [|w W] eqn:EW.
    + cbn [join_lines]. apply wrap_loop_short.
      * intros E. rewrite E in Hl1. cbn in Hl1. lia.
      * lia.
    + rewrite join_lines_cons. rewrite <- EW in *.
      destruct (wrap_loop n rest c) as [|w' W'] eqn:EW'; [discriminate|].
      rewrite <- EW' in *.
      destruct (Hstep ltac:(rewrite EW'; discriminate)) as (Hlen & Hbrk).
      rewrite wrap_loop_long by exact Hlen. rewrite Hbrk.
      rewrite firstn_app, Hl1, Nat.sub_diag, firstn_all2 by lia.
      cbn [firstn]. rewrite app_nil_r.
      rewrite skipn_app, Hl1, Nat.sub_diag, skipn_all2 by lia.
      cbn [skipn app skip_space]. rewrite Ascii.eqb_refl.
      rewrite IH. reflexivity.
Qed.

End Rewrap.

Lemma Forall_firstn_skipn (P : ascii -> Prop) (n : nat) (s : list ascii) :
  Forall P s -> Forall P (firstn n s) /\ Forall P (skipn n s).
Proof.
  intros H. apply Forall_app. rewrite firstn_skipn. exact H.
Qed.

Lemma skip_space_chars (P : ascii -> Prop) (s : list ascii) :
  Forall P s -> Forall P (skip_space s).
Proof.
  intros H. destruct s as [|a s]; [constructor|]. cbn.
  destruct (Ascii.eqb a SPC); [inversion H|]; assumption.
Qed.

Lemma wrap_loop_chars (P : ascii -> Prop) (n : nat) :
  forall s c, Forall P s -> Forall (Forall P) (wrap_loop n s c).
Proof.
  induction n as [|n IH]; intros s c H; [constructor|].
  destruct s as [|a s0]; [constructor|]. cbn [wrap_loop].
  destruct (length (a :: s0) <=? c); [constructor; [assumption | constructor]|].
  constructor.
  - apply Forall_firstn_skipn. assumption.
  - apply IH. apply skip_space_chars. apply Forall_firstn_skipn. assumption.
Qed.

Lemma join_lines_chars (P : ascii -> Prop) (ls : list (list ascii)) :
  P SPC -> Forall (Forall P) ls -> Forall P (join_lines ls).
Proof.
  intros Hsp. induction 1 as [|l ls Hl Hls IH]; [constructor|].
  rewrite join_lines_cons. apply Forall_app. split; [assumption|].
  destruct ls; [constructor|]. constructor; assumption.
Qed.

Lemma c_str_no_nul (buf : list ascii) : Forall (fun a => a <> NUL) (c_str buf).
Proof.
  induction buf as [|a buf IH]; cbn; [constructor|].
  destruct (Ascii.eqb a NUL) eqn:E; [constructor|].
  constructor; [apply Ascii.eqb_neq; exact E | exact IH].
Qed.

Lemma c_str_fixed (s : list ascii) :
  Forall (fun a => a <> NUL) s -> c_str s = s.
Proof.
  induction 1 as [|a s Ha Hs IH]; cbn; [reflexivity|].
  apply Ascii.eqb_neq in Ha. rewrite Ha, IH. reflexivity.
Qed.

Lemma clamp_cols_pos (cols : Z) : 1 <= clamp_cols cols <= WRAP_LINE_LEN.
Proof.
  unfold clamp_cols, WRAP_LINE_LEN.
  destruct (cols <? 1)%Z eqn:A.
  - cbn. lia.
  - apply Z.ltb_ge in A.
    destruct (Z.of_nat 32 <? cols)%Z eqn:B.
    + cbn. lia.
    + apply Z.ltb_ge in B. lia.
Qed.

(** C5. [word_wrap] is a function of the text and the width, and it is
    idempotent: the wrapped lines, put back together with one space
    between them and wrapped again at the same width, come out as the same
    sequence of lines. *)
Theorem word_wrap_idempotent (text : list ascii) (cols : Z) :
  word_wrap (join_lines (lines (word_wrap text cols))) cols = word_wrap text cols.
Proof.
  unfold word_wrap. cbn [lines]. f_equal.
  rewrite c_str_fixed.
  - apply wrap_loop_rejoin. apply clamp_cols_pos.
  - apply join_lines_chars; [discriminate|].
    apply wrap_loop_chars. apply c_str_no_nul.
Qed.

Example word_wrap_john_3_16 :
  lines (word_wrap (lit "For God so loved the world, that he gave his only begotten Son") 13)
  = [lit "For God so"; lit "loved the"; lit "world, that"; lit "he gave his";
     lit "only begotten"; lit "Son"].
Proof. vm_compute. reflexivity. Qed.

Example word_wrap_hard_break :
  lines (word_wrap (lit "abcdefghij klm") 4)
  = [lit "abcd"; lit "efgh"; lit "ij"; lit "klm"] /\
  join_lines [lit "abcd"; lit "efgh"; lit "ij"; lit "klm"] = lit "abcd efgh ij klm".
Proof. vm_compute. split; reflexivity. Qed.

(** ** Printing and reading numbers *)

Lemma bytes_eqb_eq (a : list ascii) :
  forall b, bytes_eqb a b = true <-> a = b.
Proof.
  induction a as [|x a IH]; intros [|y b]; cbn; split; intros H;
    try reflexivity; try discriminate.
  - apply andb_prop in H. destruct H as [H1 H2].
    apply Ascii.eqb_eq in H1. apply IH in H2. congruence.
  - inversion H; subst. rewrite Ascii.eqb_refl. cbn. apply IH. reflexivity.
Qed.

Lemma str_eq_true (a b : list ascii) : str_eq a b = true <-> c_str a = c_str b.
Proof. unfold str_eq. apply bytes_eqb_eq. Qed.

Lemma str_eq_false (a b : list ascii) : c_str a <> c_str b -> str_eq a b = false.
Proof.
  intros H. destruct (str_eq a b) eqn:E; [|reflexivity].
  apply str_eq_true in E. contradiction.
Qed.

Lemma digit_char_code (d : Z) :
  (0 <= d < 10)%Z -> nat_of_ascii (digit_char d) = 48 + Z.to_nat d.
Proof.
  intros H. unfold digit_char. apply nat_ascii_embedding. lia.
Qed.

Lemma digit_char_is_digit (d : Z) :
  (0 <= d < 10)%Z -> is_digit (digit_char d) = true.
Proof.
  intros H. unfold is_digit. rewrite digit_char_code by assumption.
  apply andb_true_intro. split; apply Nat.leb_le; lia.
Qed.

(** A digit is none of the characters [atoi] and the line reader treat
    specially. *)
Lemma is_digit_plain (c : ascii) :
  is_digit c = true ->
  c <> NUL /\ c <> CR /\ c <> LF /\ is_space c = false /\
  Ascii.eqb c "-" = false /\ Ascii.eqb c "+" = false.
Proof.
  intros H. unfold is_digit in H. apply andb_prop in H.
  destruct H as [H1 H2]. apply Nat.leb_le in H1, H2.
  assert (N : forall d, ~ (48 <= nat_of_ascii d <= 57) -> c <> d).
  { intros d Hd E. subst d. lia. }
  repeat split.
  - apply N. cbn. lia.
  - apply N. cbn. lia.
  - apply N. cbn. lia.
  - unfold is_space. apply orb_false_intro.
    + apply Nat.eqb_neq. lia.
    + apply andb_false_intro2. apply Nat.leb_gt. lia.
  - apply Ascii.eqb_neq. apply N. cbn. lia.
  - apply Ascii.eqb_neq. apply N. cbn. lia.
Qed.

Lemma digits_value_snoc (ds : list ascii) (d : ascii) :
  Forall (fun c => is_digit c = true) ds -> is_digit d = true ->
  forall a,
    digits_value (ds ++ [d]) a =
    (digits_value ds a * 10 + (Z.of_nat (nat_of_ascii d) - 48))%Z.
Proof.
  intros Hds Hd. induction Hds as [|c ds Hc Hds IH]; intros a; cbn.
  - rewrite Hd. reflexivity.
  - rewrite Hc. apply IH.
Qed.

(** The digits come out most significant first, in front of [acc]. *)
Lemma utoa_loop_acc (fuel : nat) :
  forall n acc, utoa_loop fuel n acc = utoa_loop fuel n [] ++ acc.
Proof.
  induction fuel as [|fuel IH]; intros n acc; cbn [utoa_loop]; [reflexivity|].
  destruct (n <? 10)%Z; [reflexivity|].
  rewrite (IH (n / 10)%Z (digit_char (n mod 10) :: acc)).
  rewrite (IH (n / 10)%Z [digit_char (n mod 10)]).
  rewrite <- app_assoc. reflexivity.
Qed.

Lemma utoa_loop_digits (fuel : nat) :
  forall n, (0 <= n)%Z ->
    Forall (fun c => is_digit c = true) (utoa_loop fuel n []) /\
    length (utoa_loop fuel n []) <= fuel /\
    (0 < fuel -> utoa_loop fuel n [] <> []).
Proof.
  induction fuel as [|fuel IH]; intros n Hn; cbn [utoa_loop].
  - repeat split; [constructor | cbn; lia | lia].
  - assert (Hd : is_digit (digit_char (n mod 10)) = true).
    { apply digit_char_is_digit. apply Z.mod_pos_bound. lia. }
    destruct (n <? 10)%Z.
    + repeat split; [repeat constructor; assumption | cbn; lia | discriminate].
    + rewrite utoa_loop_acc.
      destruct (IH (n / 10)%Z ltac:(apply Z.div_pos; lia)) as (F & L & _).
      repeat split.
      * apply Forall_app. split; [assumption | repeat constructor; assumption].
      * rewrite length_app. cbn. lia.
      * intros _ E. apply app_eq_nil in E. destruct E; discriminate.
Qed.

Lemma utoa_loop_value (fuel : nat) :
  forall n, (0 <= n < 10 ^ Z.of_nat fuel)%Z ->
    digits_value (utoa_loop fuel n []) 0 = n.
Proof.
  induction fuel as [|fuel IH]; intros n Hn.
  - cbn in *. lia.
  - cbn [utoa_loop].
    assert (Hm : (0 <= n mod 10 < 10)%Z) by (apply Z.mod_pos_bound; lia).
    assert (Hd : is_digit (digit_char (n mod 10)) = true)
      by (apply digit_char_is_digit; assumption).
    assert (Hv : (Z.of_nat (nat_of_ascii (digit_char (n mod 10))) - 48 = n mod 10)%Z).
    { rewrite digit_char_code by assumption. lia. }
    destruct (n <? 10)%Z eqn:E.
    + apply Z.ltb_lt in E. cbn [digits_value]. rewrite Hd, Hv.
      rewrite Z.mod_small by lia. lia.
    + apply Z.ltb_ge in E. rewrite utoa_loop_acc.
      assert (Hq : (0 <= n / 10 < 10 ^ Z.of_nat fuel)%Z).
      { split; [apply Z.div_pos; lia|].
        apply Z.div_lt_upper_bound; [lia|].
        rewrite Nat2Z.inj_succ, Z.pow_succ_r in Hn by lia. lia. }
      rewrite digits_value_snoc;
        [| apply utoa_loop_digits; lia | assumption].
      rewrite (IH _ Hq), Hv.
      pose proof (Z.div_mod n 10 ltac:(lia)). lia.
Qed.

Lemma utoa_spec (n : Z) :
  (0 <= n < 2 ^ 32)%Z ->
  Forall (fun c => is_digit c = true) (utoa n) /\
  utoa n <> [] /\ length (utoa n) <= 10 /\
  digits_value (utoa n) 0 = n.
Proof.
  intros Hn. unfold utoa, u32. rewrite Z.mod_small by assumption.
  destruct (utoa_loop_digits 10 n ltac:(lia)) as (F & L & E).
  repeat split; try assumption.
  - apply E. lia.
  - apply utoa_loop_value. cbn. lia.
Qed.

(** Digits are read back as they stand: no NUL cuts them short, no white
    space or sign comes before them. *)
Lemma digits_read_back (ds : list ascii) :
  Forall (fun c => is_digit c = true) ds -> ds <> [] ->
  c_str ds = ds /\ skip_spaces ds = ds /\
  exists c r, ds = c :: r /\ Ascii.eqb c "-" = false /\ Ascii.eqb c "+" = false.
Proof.
  intros F Hne. split; [|split].
  - apply c_str_fixed. eapply Forall_impl; [|exact F].
    intros c Hc. apply is_digit_plain. exact Hc.
  - destruct ds as [|c r]; [congruence|]. inversion F; subst.
    cbn. destruct (is_digit_plain c) as (_ & _ & _ & S & _); [assumption|].
    rewrite S. reflexivity.
  - destruct ds as [|c r]; [congruence|]. inversion F; subst.
    exists c, r. destruct (is_digit_plain c) as (_ & _ & _ & _ & M & P);
      [assumption|]. auto.
Qed.

Lemma atoi_utoa (n : Z) : (0 <= n < 2 ^ 31)%Z -> atoi (utoa n) = n.
Proof.
  intros Hn. destruct (utoa_spec n ltac:(lia)) as (F & Hne & _ & V).
  destruct (digits_read_back _ F Hne) as (C & S & c & r & E & M & P).
  unfold atoi. rewrite C, S, E, M, P, <- E, V. lia.
Qed.

Lemma strtoul_utoa (n : Z) : (0 <= n < 2 ^ 32)%Z -> strtoul (utoa n) = n.
Proof.
  intros Hn. destruct (utoa_spec n Hn) as (F & Hne & _ & V).
  destruct (digits_read_back _ F Hne) as (C & S & c & r & E & M & P).
  unfold strtoul. rewrite C, S, E, M, P, <- E, V. lia.
Qed.

(** ** What is saved is what is loaded *)

Lemma utoa_loop_length (fuel : nat) :
  forall n k, (0 <= n < 10 ^ Z.of_nat k)%Z -> 1 <= k ->
         length (utoa_loop fuel n []) <= k.
Proof.
  induction fuel as [|fuel IH]; intros n k Hn Hk; cbn [utoa_loop]; [cbn; lia|].
  destruct (n <? 10)%Z eqn:E; [cbn; lia|].
  apply Z.ltb_ge in E. rewrite utoa_loop_acc, length_app. cbn [length].
  destruct k as [|[|k]]; [lia | cbn in Hn; lia |].
  assert (Hq : (0 <= n / 10 < 10 ^ Z.of_nat (S k))%Z).
  { split; [apply Z.div_pos; lia|].
    apply Z.div_lt_upper_bound; [lia|].
    rewrite (Nat2Z.inj_succ (S k)), Z.pow_succ_r in Hn by lia. lia. }
  specialize (IH _ _ Hq ltac:(lia)). lia.
Qed.

Lemma utoa_u16 (v : Z) :
  (0 <= v < 2 ^ 16)%Z ->
  length (utoa v) <= 5 /\ utoa v <> [] /\
  Forall (fun c => c <> LF /\ c <> CR) (utoa v) /\
  u16 (atoi (utoa v)) = v.
Proof.
  intros Hv.
  destruct (utoa_spec v ltac:(lia)) as (F & Hne & _ & _).
  repeat split.
  - unfold utoa, u32. rewrite Z.mod_small by lia.
    apply utoa_loop_length; [cbn; lia | lia].
  - assumption.
  - eapply Forall_impl; [|exact F]. intros c Hc.
    destruct (is_digit_plain c Hc) as (_ & A & B & _). split; assumption.
  - rewrite atoi_utoa by lia. unfold u16. apply Z.mod_small. lia.
Qed.

Lemma bmarks_text_cons (v : Z) (l : list Z) :
  (0 <= v < 2 ^ 16)%Z -> bmarks_text (v :: l) = utoa v ++ LF :: bmarks_text l.
Proof.
  intros Hv. destruct (utoa_u16 v Hv) as (L & _).
  unfold bmarks_text. cbn [map concat]. unfold snprintf_write.
  assert (E : (length (utoa v ++ [LF]) <? 8) = true).
  { apply Nat.ltb_lt. rewrite length_app. cbn [length]. lia. }
  rewrite E, <- app_assoc. reflexivity.
Qed.

(** The file [bmarks_save] writes, read by the loop of [bmarks_load]. *)
Lemma bmarks_loop_saved (l : list Z) :
  forall idx0 vcount,
    Forall (fun v => (0 <= v < vcount)%Z) l -> (vcount <= 2 ^ 16)%Z ->
    length idx0 + length l <= MAX_BOOKMARKS ->
    bmarks_loop (bmarks_text l) [] idx0 vcount = idx0 ++ l.
Proof.
  induction l as [|v l IH]; intros idx0 vcount Hl Hvc Hcap.
  - rewrite app_nil_r. cbn [bmarks_text map concat bmarks_loop length Nat.ltb Nat.leb].
    destruct (MAX_BOOKMARKS <=? length idx0); reflexivity.
  - inversion Hl as [|? ? Hv Hl']; subst. cbn [length] in Hcap.
    destruct (utoa_u16 v ltac:(lia)) as (L & Hne & Hp & Hr).
    rewrite bmarks_text_cons by lia.
    rewrite (bmarks_loop_line (utoa v) [] _ idx0 vcount Hp)
      by (cbn [List.app length]; (assumption || lia)).
    cbn [List.app]. rewrite firstn_all2 by lia.
    unfold bmarks_push. rewrite Hr.
    assert (E : (v <? vcount)%Z = true) by (apply Z.ltb_lt; lia).
    rewrite E, IH; [|assumption|assumption|rewrite length_app; cbn [length]; lia].
    rewrite <- app_assoc. reflexivity.
Qed.

(** C6 as stated fails on a list that holds a verse id twice, and
    [bmarks_load] builds such a list from a bookmark file with a repeated
    line: verse 3 is bookmarked, and after two toggles it is not. *)
Lemma toggle_twice_duplicate_counterexample :
  let app := app_started psalm_file (lit "3" ++ [LF] ++ lit "3" ++ [LF]) in
  bm_idx (bmarks app) = [3%Z; 3%Z] /\
  is_bookmarked app 3 = true /\
  is_bookmarked (toggle_bmark (toggle_bmark app 3) 3) 3 = false.
Proof. vm_compute. repeat split; reflexivity. Qed.

(** C6, amended. For every verse id [x] and every bookmark list within
    its capacity of 75 that holds [x] at most once, [toggle(x)] twice
    restores the membership of [x]; toggles keep a duplicate-free list
    duplicate-free; after any sequence of toggles the count is at most 75;
    and, the card taking the write, every toggle that changes the list
    leaves the whole list in the bookmark file, from which the loop of
    [bmarks_load] reads the same list back while its ids are below
    [verse_count]. *)
Theorem toggle_bmark_involution (app : App) (x : Z) :
  count_occ Z.eq_dec (bm_idx (bmarks app)) x <= 1 ->
  length (bm_idx (bmarks app)) <= MAX_BOOKMARKS ->
  let after := bm_idx (bmarks (toggle_bmark app x)) in
  is_bookmarked (toggle_bmark (toggle_bmark app x) x) x = is_bookmarked app x /\
  (NoDup (bm_idx (bmarks app)) -> NoDup after) /\
  (forall xs, length (bm_idx (bmarks (toggles app xs))) <= MAX_BOOKMARKS) /\
  (sd_writable (storage app) = true ->
   bmarks (toggle_bmark app x) <> bmarks app ->
   bm_file (storage (toggle_bmark app x)) = Some (bmarks_text after)) /\
  (forall vcount,
     (vcount <= 2 ^ 16)%Z -> Forall (fun v => (0 <= v < vcount)%Z) after ->
     bmarks_loop (bmarks_text after) [] [] vcount = after).
Proof.
  intros Hc Hl after. split; [|split; [|split; [|split]]].
  - apply toggle_bmark_twice; assumption.
  - apply toggle_bmark_nodup.
  - intros xs. apply toggles_capacity. assumption.
  - apply toggle_bmark_persists.
  - intros vcount Hvc Hids.
    apply (bmarks_loop_saved after [] vcount Hids Hvc).
    cbn [length]. apply (toggle_bmark_capacity app x Hl).
Qed.

Lemma toggle_bmark_involution_witness :
  let app := app_started psalm_file (lit "3" ++ [LF] ++ lit "1" ++ [LF]) in
  is_bookmarked (toggle_bmark (toggle_bmark app 3) 3) 3 = is_bookmarked app 3.
Proof.
  cbv zeta.
  refine (proj1 (toggle_bmark_involution
                   (app_started psalm_file (lit "3" ++ [LF] ++ lit "1" ++ [LF])) 3 _ _)).
  - vm_compute. lia.
  - vm_compute. lia.
Defined.


(** ** The settings store *)

Lemma settings_read_line_consumes (rest line : list ascii) :
  forall line' done rest',
    settings_read_line rest line = (line', done, rest') ->
    length line <= length line' /\
    length rest' + (length line' - length line) <= length rest /\
    (done = false -> length line' < 95 -> length rest' < length rest).
Proof.
  revert line.
  induction rest as [|ch rest IH]; intros line line' done rest' H;
    cbn [settings_read_line] in H.
  - destruct (95 <=? length line) eqn:E; inversion H; subst; clear H.
    + apply Nat.leb_le in E. repeat split; lia.
    + repeat split; try lia; discriminate.
  - destruct (95 <=? length line) eqn:E.
    + inversion H; subst; clear H. apply Nat.leb_le in E. repeat split; lia.
    + destruct (Ascii.eqb ch CR).
      * apply IH in H. cbn [length]. intuition lia.
      * destruct (Ascii.eqb ch LF).
        -- inversion H; subst; clear H. cbn [length]. repeat split; lia.
        -- apply IH in H. rewrite length_app in H. cbn [length] in *.
           intuition lia.
Qed.

Lemma settings_loop_total (fuel : nat) :
  forall rest app,
    length rest < fuel -> exists app', settings_loop fuel rest app = Some app'.
Proof.
  induction fuel as [|fuel IH]; intros rest app Hf; [lia|].
  cbn [settings_loop].
  destruct (settings_read_line rest []) as [[line done] rest'] eqn:E.
  apply settings_read_line_consumes in E. cbn [length] in E.
  destruct E as (_ & Hc & Hs).
  destruct done; [eauto|]. apply IH.
  destruct (le_gt_dec 95 (length line)) as [G|G]; [lia|].
  specialize (Hs eq_refl G). lia.
Qed.

(** [settings_load] always comes back with the state its loop reached. *)
Lemma settings_load_bytes_total (app : App) (data : list ascii) :
  settings_loop (S (length data)) data app = Some (settings_load_bytes app data).
Proof.
  unfold settings_load_bytes.
  destruct (settings_loop_total (S (length data)) data app (Nat.lt_succ_diag_r _))
    as [app' E].
  rewrite E. reflexivity.
Qed.

Lemma settings_read_line_plain (line : list ascii) :
  forall acc rest,
    Forall (fun c => c <> CR /\ c <> LF) line ->
    length acc + length line < 95 ->
    settings_read_line (line ++ LF :: rest) acc = (acc ++ line, false, rest).
Proof.
  induction line as [|c line IH]; intros acc rest Hp Hl; cbn [app settings_read_line].
  - cbn in Hl. assert (E : (95 <=? length acc) = false) by (apply Nat.leb_gt; lia).
    rewrite E. change (Ascii.eqb LF CR) with false. rewrite Ascii.eqb_refl.
    rewrite app_nil_r. reflexivity.
  - inversion Hp as [|? ? [Hcr Hlf] Hp']; subst. cbn [length] in Hl.
    assert (E : (95 <=? length acc) = false) by (apply Nat.leb_gt; lia).
    rewrite E. apply Ascii.eqb_neq in Hcr, Hlf. rewrite Hcr, Hlf.
    rewrite IH; [|assumption|rewrite length_app; cbn; lia].
    rewrite <- app_assoc. reflexivity.
Qed.

Lemma settings_loop_lines (ls : list (list ascii)) :
  forall fuel app,
    Forall plain_line ls -> length ls < fuel ->
    settings_loop fuel (settings_file_of ls) app = Some (fold_left after_line ls app).
Proof.
  induction ls as [|l ls IH]; intros fuel app Hp Hf;
    (destruct fuel as [|fuel]; [cbn in Hf; lia|]).
  - reflexivity.
  - inversion Hp as [|? ? [Hl1 Hl2] Hp']; subst.
    unfold settings_file_of. cbn [map concat]. fold (settings_file_of ls).
    rewrite <- app_assoc. cbn [List.app settings_loop].
    rewrite (settings_read_line_plain l [] _ Hl1) by (cbn; lia).
    cbn [List.app]. rewrite IH; [reflexivity | assumption | cbn in Hf; lia].
Qed.

Lemma settings_file_of_length (ls : list (list ascii)) :
  length ls <= length (settings_file_of ls).
Proof.
  induction ls as [|l ls IH]; cbn; [lia|].
  fold (settings_file_of ls). rewrite !length_app. cbn. lia.
Qed.

Lemma settings_load_bytes_lines (app : App) (ls : list (list ascii)) :
  Forall plain_line ls ->
  settings_load_bytes app (settings_file_of ls) = fold_left after_line ls app.
Proof.
  intros Hp. unfold settings_load_bytes.
  rewrite settings_loop_lines; [reflexivity | assumption |].
  pose proof (settings_file_of_length ls). lia.
Qed.

(** [apply_setting] key by key. *)
Lemma apply_verse_file (app : App) (val : list ascii) :
  apply_setting app (lit "verse_file=" ++ val) =
  match find_slot (fun vf => str_eq (basename (path vf)) val) (vfiles app) 0 with
  | Some i => set_vfile_sel app i
  | None => app
  end.
Proof. reflexivity. Qed.

Lemma apply_font_size (app : App) (val : list ascii) :
  apply_setting app (lit "font_size=" ++ val) =
  if (0 <=? atoi val)%Z && (atoi val <? FONT_COUNT)%Z
  then set_font_choice app (font_of_int (atoi val)) else app.
Proof. reflexivity. Qed.

Lemma apply_api_trans (app : App) (val : list ascii) :
  apply_setting app (lit "api_trans=" ++ val) =
  match find_slot (fun code => str_eq val code) API_TRANSLATIONS 0 with
  | Some i => set_api_trans_sel app i
  | None => app
  end.
Proof. reflexivity. Qed.

Lemma apply_api_book (app : App) (val : list ascii) :
  apply_setting app (lit "api_book=" ++ val) =
  if (0 <=? atoi val)%Z && (atoi val <? Z.of_nat BIBLE_BOOKS_COUNT)%Z
  then set_api_book_sel app (atoi val) else app.
Proof. reflexivity. Qed.

Lemma apply_api_chapter (app : App) (val : list ascii) :
  apply_setting app (lit "api_chapter=" ++ val) =
  if (1 <=? atoi val)%Z && (atoi val <=? 150)%Z
  then set_api_chapter_sel app (atoi val) else app.
Proof. reflexivity. Qed.

Lemma apply_api_verse (app : App) (val : list ascii) :
  apply_setting app (lit "api_verse=" ++ val) =
  if (1 <=? atoi val)%Z && (atoi val <=? 176)%Z
  then set_api_verse_sel app (atoi val) else app.
Proof. reflexivity. Qed.

Lemma apply_daily_idx (app : App) (val : list ascii) :
  apply_setting app (lit "daily_idx=" ++ val) =
  if (0 <=? atoi val)%Z && (atoi val <? Z.of_nat MAX_VERSES)%Z
  then set_daily_verse_idx app (atoi val) else app.
Proof. reflexivity. Qed.

Lemma apply_daily_day (app : App) (val : list ascii) :
  apply_setting app (lit "daily_day=" ++ val) =
  set_daily_verse_day app (strtoul val).
Proof. reflexivity. Qed.

Lemma find_slot_none {A : Type} (test : A -> bool) (l : list A) :
  forall i, Forall (fun x => test x = false) l -> find_slot test l i = None.
Proof.
  induction l as [|x l IH]; intros i H; cbn; [reflexivity|].
  inversion H; subst. rewrite H2. apply IH. assumption.
Qed.

Lemma c_str_idem (s : list ascii) : c_str (c_str s) = c_str s.
Proof. apply c_str_fixed. apply c_str_no_nul. Qed.

Lemma corpus_name_c_str (vf : VerseFile) : c_str (corpus_name vf) = corpus_name vf.
Proof.
  unfold corpus_name, basename.
  destruct (strrchr (path vf) SLASH); apply c_str_idem.
Qed.

(** With distinct names, the name of slot [k] is found at slot [k]. *)
Lemma find_slot_corpus (files : list VerseFile) :
  forall k i,
    NoDup (map corpus_name files) -> k < length files ->
    find_slot (fun vf => str_eq (basename (path vf))
                                (corpus_name (nth k files empty_vfile)))
              files i = Some (i + Z.of_nat k)%Z.
Proof.
  induction files as [|x files IH]; intros k i Hn Hk; [cbn in Hk; lia|].
  inversion Hn as [|? ? Hx Hn']; subst. cbn [find_slot].
  destruct k as [|k].
  - cbn [nth]. fold (corpus_name x).
    replace (str_eq (corpus_name x) (corpus_name x)) with true
      by (symmetry; apply str_eq_true; reflexivity).
    f_equal. lia.
  - cbn [nth]. fold (corpus_name x). rewrite str_eq_false.
    + rewrite IH; [f_equal; lia | assumption | cbn in Hk; lia].
    + rewrite !corpus_name_c_str. intros E. apply Hx. rewrite E.
      apply in_map. apply nth_In. cbn in Hk. lia.
Qed.

Lemma find_slot_trans (sel : Z) :
  (0 <= sel < Z.of_nat API_TRANS_COUNT)%Z ->
  find_slot (fun code => str_eq (nth (Z.to_nat sel) API_TRANSLATIONS []) code)
            API_TRANSLATIONS 0 = Some sel /\
  plain_line (nth (Z.to_nat sel) API_TRANSLATIONS []) /\
  length (nth (Z.to_nat sel) API_TRANSLATIONS []) <= 6.
Proof.
  unfold API_TRANS_COUNT. intros H.
  assert (C : (sel = 0 \/ sel = 1 \/ sel = 2 \/ sel = 3 \/ sel = 4 \/ sel = 5 \/
               sel = 6 \/ sel = 7 \/ sel = 8)%Z) by lia.
  unfold plain_line.
  destruct C as [-> | [-> | [-> | [-> | [-> | [-> | [-> | [-> | ->]]]]]]]];
    (split; [reflexivity
            | split; [split; [apply no_eol_ok; reflexivity | vm_compute; lia]
                     | vm_compute; lia]]).
Qed.

Lemma utoa_plain (n : Z) :
  (0 <= n < 2 ^ 32)%Z ->
  Forall (fun c => c <> CR /\ c <> LF) (utoa n) /\ length (utoa n) <= 10.
Proof.
  intros H. destruct (utoa_spec n H) as (F & _ & L & _). split; [|assumption].
  eapply Forall_impl; [|exact F]. intros c Hc.
  destruct (is_digit_plain c Hc) as (_ & A & B & _). split; assumption.
Qed.

(** A record that fits the buffer is written whole and is read back as
    one line. *)
Lemma setting_record_fits (key : string) (value : list ascii) :
  Forall (fun c => c <> CR /\ c <> LF) (lit key) ->
  Forall (fun c => c <> CR /\ c <> LF) value ->
  length (lit key) + length value < 95 ->
  setting_record key value = (lit key ++ value) ++ [LF] /\
  plain_line (lit key ++ value).
Proof.
  intros Hk Hv Hl. split.
  - unfold setting_record, snprintf_write.
    assert (E : (length (lit key ++ value ++ [LF]) <? 96) = true).
    { apply Nat.ltb_lt. rewrite !length_app. cbn. lia. }
    rewrite E. rewrite app_assoc. reflexivity.
  - split; [apply Forall_app; split; assumption|].
    rewrite length_app. lia.
Qed.

Lemma setting_record_short (key : string) (value : list ascii) :
  no_eol (lit key) = true -> (length (lit key) <=? 12) = true ->
  Forall (fun c => c <> CR /\ c <> LF) value ->
  length value <= 63 ->
  setting_record key value = (lit key ++ value) ++ [LF] /\
  plain_line (lit key ++ value).
Proof.
  intros Hk Hl Hv Hlv. apply Nat.leb_le in Hl.
  apply setting_record_fits; [apply no_eol_ok; assumption | assumption | lia].
Qed.

Lemma font_int_roundtrip (f : FontChoice) :
  font_of_int (font_to_int f) = f /\ (0 <= font_to_int f < FONT_COUNT)%Z.
Proof. unfold FONT_COUNT. destruct f; cbn; split; (reflexivity || lia). Qed.

Lemma range_check_true (lo hi v : Z) :
  (lo <= v < hi)%Z -> (lo <=? v)%Z && (v <? hi)%Z = true.
Proof. intros H. apply andb_true_intro. split; [apply Z.leb_le | apply Z.ltb_lt]; lia. Qed.

Lemma range_check_false (lo hi v : Z) :
  ~ (lo <= v < hi)%Z -> (lo <=? v)%Z && (v <? hi)%Z = false.
Proof.
  intros H. destruct ((lo <=? v)%Z && (v <? hi)%Z) eqn:E; [|reflexivity].
  apply andb_prop in E. destruct E as [A B].
  apply Z.leb_le in A. apply Z.ltb_lt in B. lia.
Qed.

Lemma range_check_le_true (lo hi v : Z) :
  (lo <= v <= hi)%Z -> (lo <=? v)%Z && (v <=? hi)%Z = true.
Proof. intros H. apply andb_true_intro. split; apply Z.leb_le; lia. Qed.

Lemma range_check_le_false (lo hi v : Z) :
  ~ (lo <= v <= hi)%Z -> (lo <=? v)%Z && (v <=? hi)%Z = false.
Proof.
  intros H. destruct ((lo <=? v)%Z && (v <=? hi)%Z) eqn:E; [|reflexivity].
  apply andb_prop in E. destruct E as [A B].
  apply Z.leb_le in A, B. lia.
Qed.

(** A value out of its range leaves the whole state as it is. *)
Lemma apply_setting_out_of_range (app : App) (line : list ascii) :
  out_of_range (vfiles app) line -> apply_setting app line = app.
Proof.
  intros H. destruct H as [val H|val H|val H|val H|val H|val H|val H].
  - rewrite apply_font_size, range_check_false by assumption. reflexivity.
  - rewrite apply_api_book, range_check_false by assumption. reflexivity.
  - rewrite apply_api_chapter, range_check_le_false by assumption. reflexivity.
  - rewrite apply_api_verse, range_check_le_false by assumption. reflexivity.
  - rewrite apply_daily_idx, range_check_false by assumption. reflexivity.
  - rewrite apply_verse_file, find_slot_none; [reflexivity|].
    eapply Forall_impl; [|exact H]. intros vf Hvf. apply str_eq_false. exact Hvf.
  - rewrite apply_api_trans, find_slot_none; [reflexivity|].
    eapply Forall_impl; [|exact H]. intros code Hc. apply str_eq_false. exact Hc.
Qed.

Lemma out_of_range_not_empty (files : list VerseFile) (line : list ascii) :
  out_of_range files line ->
  forall app, after_line app line = apply_setting app line.
Proof. intros H app. destruct H; reflexivity. Qed.

Lemma apply_setting_vfiles (app : App) (line : list ascii) :
  vfiles (apply_setting app line) = vfiles app.
Proof.
  unfold apply_setting.
  repeat match goal with
         | |- context [match ?x with _ => _ end] => destruct x
         end; reflexivity.
Qed.

Lemma after_lines_vfiles (ls : list (list ascii)) :
  forall app, vfiles (fold_left after_line ls app) = vfiles app.
Proof.
  induction ls as [|l ls IH]; intros app; cbn [fold_left]; [reflexivity|].
  rewrite IH. destruct l; [reflexivity|]. apply apply_setting_vfiles.
Qed.

Lemma settings_load_skips_out_of_range (app : App) (before after : list (list ascii))
      (line : list ascii) :
  Forall plain_line (before ++ line :: after) ->
  out_of_range (vfiles app) line ->
  settings_load_bytes app (settings_file_of (before ++ line :: after)) =
  settings_load_bytes app (settings_file_of (before ++ after)).
Proof.
  intros Hp Hbad.
  assert (Hp' : Forall plain_line (before ++ after)).
  { apply Forall_app in Hp. destruct Hp as [A B]. inversion B; subst.
    apply Forall_app. split; assumption. }
  rewrite !settings_load_bytes_lines by assumption.
  rewrite !fold_left_app. cbn [fold_left]. f_equal.
  rewrite (out_of_range_not_empty _ _ Hbad).
  apply apply_setting_out_of_range. rewrite after_lines_vfiles. exact Hbad.
Qed.

Lemma settings_text_lines (app : App) :
  settings_valid app ->
  settings_text app = settings_file_of (settings_lines app) /\
  Forall plain_line (settings_lines app).
Proof.
  intros [Hsel Hnames [Hname Hlen] Htrans Hbook Hch Hv Hidx Hday].
  unfold BIBLE_BOOKS_COUNT, MAX_VERSES in *.
  destruct Hname as [Hname _].
  destruct (font_int_roundtrip (font_choice app)) as [_ Hfont].
  unfold FONT_COUNT in Hfont.
  destruct (find_slot_trans _ Htrans) as (_ & [Htp _] & Htl).
  assert (le_trans : forall a b, a <= b -> b <= 63 -> a <= 63) by (intros; lia).
  assert (H6 : 6 <= 63) by lia. assert (H10 : 10 <= 63) by lia.
  destruct (utoa_plain (font_to_int (font_choice app)) ltac:(lia)) as [Pf Lf].
  destruct (utoa_plain (api_book_sel app) ltac:(lia)) as [Pb Lb].
  destruct (utoa_plain (api_chapter_sel app) ltac:(lia)) as [Pc Lc].
  destruct (utoa_plain (api_verse_sel app) ltac:(lia)) as [Pv Lv].
  destruct (utoa_plain (daily_verse_idx app) ltac:(lia)) as [Pi Li].
  destruct (utoa_plain (daily_verse_day app) ltac:(lia)) as [Pd Ld].
  destruct (setting_record_short "verse_file=" _ eq_refl eq_refl Hname Hlen) as [E1 P1].
  destruct (setting_record_short "font_size=" _ eq_refl eq_refl Pf (le_trans _ _ Lf H10)) as [E2 P2].
  destruct (setting_record_short "api_trans=" _ eq_refl eq_refl Htp (le_trans _ _ Htl H6)) as [E3 P3].
  destruct (setting_record_short "api_book=" _ eq_refl eq_refl Pb (le_trans _ _ Lb H10)) as [E4 P4].
  destruct (setting_record_short "api_chapter=" _ eq_refl eq_refl Pc (le_trans _ _ Lc H10)) as [E5 P5].
  destruct (setting_record_short "api_verse=" _ eq_refl eq_refl Pv (le_trans _ _ Lv H10)) as [E6 P6].
  destruct (setting_record_short "daily_idx=" _ eq_refl eq_refl Pi (le_trans _ _ Li H10)) as [E7 P7].
  destruct (setting_record_short "daily_day=" _ eq_refl eq_refl Pd (le_trans _ _ Ld H10)) as [E8 P8].
  split.
  - unfold settings_text. fold (corpus_name (nth (Z.to_nat (vfile_sel app)) (vfiles app) empty_vfile)).
    rewrite E1, E2, E3, E4, E5, E6, E7, E8.
    unfold settings_file_of, settings_lines. cbn [map concat].
    rewrite app_nil_r. reflexivity.
  - unfold settings_lines.
    repeat (apply Forall_cons; [assumption|]). apply Forall_nil.
Qed.

Lemma settings_roundtrip (app : App) :
  settings_valid app -> sd_writable (storage app) = true ->
  same_settings
    (settings_load (startup_app (storage (settings_save app)) (vfiles app))) app.
Proof.
  intros Hvalid W.
  destruct (settings_text_lines app Hvalid) as [Etext Hplain].
  destruct Hvalid as [Hsel Hnames _ Htrans Hbook Hch Hv Hidx Hday].
  unfold BIBLE_BOOKS_COUNT, MAX_VERSES, vfile_count in *.
  unfold settings_save. rewrite W.
  unfold settings_load.
  cbn [storage set_storage startup_app settings_file set_settings_file].
  rewrite Etext, (settings_load_bytes_lines _ _ Hplain).
  unfold settings_lines. cbn [fold_left].
  change (after_line ?a (lit "verse_file=" ++ ?v))
    with (apply_setting a (lit "verse_file=" ++ v)).
  change (after_line ?a (lit "font_size=" ++ ?v))
    with (apply_setting a (lit "font_size=" ++ v)).
  change (after_line ?a (lit "api_trans=" ++ ?v))
    with (apply_setting a (lit "api_trans=" ++ v)).
  change (after_line ?a (lit "api_book=" ++ ?v))
    with (apply_setting a (lit "api_book=" ++ v)).
  change (after_line ?a (lit "api_chapter=" ++ ?v))
    with (apply_setting a (lit "api_chapter=" ++ v)).
  change (after_line ?a (lit "api_verse=" ++ ?v))
    with (apply_setting a (lit "api_verse=" ++ v)).
  change (after_line ?a (lit "daily_idx=" ++ ?v))
    with (apply_setting a (lit "daily_idx=" ++ v)).
  change (after_line ?a (lit "daily_day=" ++ ?v))
    with (apply_setting a (lit "daily_day=" ++ v)).
  rewrite apply_daily_day, apply_daily_idx, apply_api_verse, apply_api_chapter,
    apply_api_book, apply_api_trans, apply_font_size, apply_verse_file.
  destruct (font_int_roundtrip (font_choice app)) as [Ef Hf].
  unfold FONT_COUNT in *.
  rewrite !atoi_utoa by lia. rewrite strtoul_utoa by lia.
  rewrite (range_check_true 0 5), (range_check_true 0 (Z.of_nat 66)),
    (range_check_le_true 1 150), (range_check_le_true 1 176),
    (range_check_true 0 (Z.of_nat 600)) by lia.
  rewrite Ef.
  destruct (find_slot_trans _ Htrans) as (Et & _). rewrite Et.
  cbn [vfiles startup_app].
  rewrite (find_slot_corpus (vfiles app) (Z.to_nat (vfile_sel app)) 0 Hnames)
    by lia.
  rewrite Z2Nat.id by lia.
  unfold same_settings. cbn. repeat split; reflexivity.
Qed.

(** C7 as stated fails for the day counter, the one key [settings_load]
    stores without a range check: a persisted [-1] or [4294967296], both
    outside the range of the 32-bit counter, replaces the default 0 by
    4294967295. *)
Lemma settings_load_day_counter_counterexample :
  let card val := mkStorage true None (Some (lit "daily_day=" ++ val ++ [LF])) in
  daily_verse_day (startup_app (card (lit "-1")) []) = 0%Z /\
  daily_verse_day (settings_load (startup_app (card (lit "-1")) [])) = 4294967295%Z /\
  daily_verse_day (settings_load (startup_app (card (lit "4294967296")) []))
    = 4294967295%Z.
Proof. vm_compute. repeat split; reflexivity. Qed.

(** C7, amended. On a card that takes the write, a state whose settings
    are in their ranges, saved and loaded into the start-up state, gives
    every setting back: the corpus slot found again from its file name,
    font, translation, book, chapter, verse, daily-verse index and day
    counter.  On a card that refuses the write, [settings_save] changes
    nothing.  A persisted corpus name, font index, translation code, book,
    chapter, verse or daily-verse index outside its range, read as one
    line, leaves the state as it is; and in a settings file whose lines
    are all shorter than 95 bytes and free of [\r], a file with such a
    line loads like the same file without it.  The day counter is stored
    as [strtoul] reads it, without a range check. *)
Theorem settings_save_load (app : App) :
  (settings_valid app -> sd_writable (storage app) = true ->
   same_settings
     (settings_load (startup_app (storage (settings_save app)) (vfiles app)))
     app) /\
  (forall line,
     out_of_range (vfiles app) line -> apply_setting app line = app) /\
  (forall before after line,
     Forall plain_line (before ++ line :: after) ->
     out_of_range (vfiles app) line ->
     settings_load_bytes app (settings_file_of (before ++ line :: after)) =
     settings_load_bytes app (settings_file_of (before ++ after))) /\
  (forall val,
     apply_setting app (lit "daily_day=" ++ val) =
     set_daily_verse_day app (strtoul val)) /\
  (sd_writable (storage app) = false -> settings_save app = app).
Proof.
  split; [|split; [|split; [|split]]].
  - apply settings_roundtrip.
  - apply apply_setting_out_of_range.
  - apply settings_load_skips_out_of_range.
  - apply apply_daily_day.
  - intros W. unfold settings_save. rewrite W. reflexivity.
Qed.

Lemma configured_app_valid : settings_valid configured_app.
Proof.
  constructor; try (vm_compute; split; (discriminate || reflexivity)).
  - vm_compute.
    repeat (apply NoDup_cons; [intros H; cbn in H; intuition discriminate|]).
    apply NoDup_nil.
  - split; [split; [apply no_eol_ok; reflexivity | vm_compute; lia]
           | vm_compute; lia].
Defined.

Lemma settings_save_load_witness :
  same_settings
    (settings_load
       (startup_app (storage (settings_save configured_app)) three_corpora))
    configured_app /\
  apply_setting configured_app (lit "api_chapter=" ++ lit "300") = configured_app /\
  settings_load_bytes configured_app
    (settings_file_of ([lit "font_size=1"] ++
                       (lit "api_chapter=" ++ lit "300") :: [lit "api_verse=3"])) =
  settings_load_bytes configured_app
    (settings_file_of ([lit "font_size=1"] ++ [lit "api_verse=3"])).
Proof.
  assert (Hbad : out_of_range (vfiles configured_app)
                              (lit "api_chapter=" ++ lit "300")).
  { apply bad_chapter. vm_compute. intros [_ H]. apply H. reflexivity. }
  destruct (settings_save_load configured_app) as (H1 & H2 & H3 & _).
  split; [|split].
  - apply H1; [exact configured_app_valid | reflexivity].
  - apply H2. exact Hbad.
  - apply H3; [|exact Hbad].
    repeat (apply Forall_cons;
            [split; [apply no_eol_ok; reflexivity | vm_compute; lia]|]).
    apply Forall_nil.
Defined.

Example settings_saved_file :
  settings_file (storage (settings_save configured_app)) =
  Some (settings_file_of
          [lit "verse_file=verses_fr.txt"; lit "font_size=3"; lit "api_trans=webbe";
           lit "api_book=18"; lit "api_chapter=119"; lit "api_verse=176";
           lit "daily_idx=123"; lit "daily_day=4294967295"]).
Proof. vm_compute. reflexivity. Qed.

(* ================================================================== *)
(** * [icontains]: exactly the case-insensitive substring test *)
(* ================================================================== *)

Lemma match_here_complete (needle : list ascii) :
  forall mid post,
    map to_lower mid = map to_lower needle ->
    match_here (mid ++ post) needle = true.
Proof.
  induction needle as [|b n IH]; intros mid post E.
  - destruct mid; [|discriminate]. destruct post; reflexivity.
  - destruct mid as [|a mid]; [discriminate|].
    simpl in E. injection E as E1 E2.
    simpl. rewrite E1, Ascii.eqb_refl. apply IH; assumption.
Qed.

Lemma icontains_loop_complete (pre : list ascii) :
  forall steps rest needle,
    length pre < steps -> match_here rest needle = true ->
    icontains_loop steps (pre ++ rest) needle = true.
Proof.
  induction pre as [|a pre IH]; intros steps rest needle L M;
    destruct steps as [|steps]; try (simpl in L; lia).
  - simpl. rewrite M. reflexivity.
  - cbn [icontains_loop List.app].
    destruct (match_here (a :: pre ++ rest) needle); [reflexivity|].
    apply IH; [simpl in L; lia | assumption].
Qed.

(** X1.  [icontains] answers true exactly when the needle is not empty
    and occurs in the haystack up to ASCII case. *)
Theorem icontains_exact (hay needle : list ascii) :
  icontains hay needle = true <->
  c_str needle <> [] /\ contains_ci (c_str hay) (c_str needle).
Proof.
  split.
  - intros H. split; [|apply icontains_sound; assumption].
    unfold icontains in H. destruct (c_str needle); [discriminate|discriminate].
  - intros [N (pre & mid & post & E & M)].
    unfold icontains.
    destruct (c_str needle) as [|b n] eqn:En; [contradiction|].
    assert (Lm : length mid = length (b :: n)).
    { rewrite <- (length_map to_lower mid), M, length_map. reflexivity. }
    assert (Lh : length (c_str hay) = length pre + (length mid + length post)).
    { rewrite E, !length_app. reflexivity. }
    destruct (length (c_str hay) <? length (b :: n)) eqn:C.
    + apply Nat.ltb_lt in C. lia.
    + rewrite E. apply icontains_loop_complete.
      * rewrite <- E. lia.
      * apply match_here_complete. assumption.
Qed.

(* ================================================================== *)
(** * [word_wrap]: size of the result and what becomes of the text *)
(* ================================================================== *)

Lemma wrap_loop_bounds (slots : nat) :
  forall s cols,
    1 <= cols ->
    length (wrap_loop slots s cols) <= slots /\
    Forall (fun l => 1 <= length l <= cols) (wrap_loop slots s cols).
Proof.
  induction slots as [|n IH]; intros s cols C.
  - simpl. split; [lia | constructor].
  - destruct s as [|a s'].
    + simpl. split; [lia | constructor].
    + destruct (Nat.le_gt_cases (length (a :: s')) cols) as [L|L].
      * rewrite wrap_loop_short by (assumption || discriminate).
        split; [simpl; lia|]. constructor; [|constructor].
        split; [simpl; lia | assumption].
      * rewrite wrap_loop_long by assumption.
        destruct (IH (skip_space (skipn (break_at (a :: s') cols) (a :: s'))) cols C)
          as [I1 I2].
        pose proof (break_at_bounds (a :: s') cols C) as B.
        split; [simpl; lia|]. constructor; [|assumption].
        rewrite length_firstn. lia.
Qed.

Lemma skip_space_cases (s : list ascii) :
  s = skip_space s \/ s = SPC :: skip_space s.
Proof.
  destruct s as [|c s]; [left; reflexivity|].
  simpl. destruct (Ascii.eqb c SPC) eqn:E; [|left; reflexivity].
  apply Ascii.eqb_eq in E. subst c. right; reflexivity.
Qed.

Lemma wrap_loop_pieces (slots : nat) :
  forall s cols,
    exists rest,
      pieces (wrap_loop slots s cols) s rest /\
      (length (wrap_loop slots s cols) < slots -> rest = []).
Proof.
  induction slots as [|n IH]; intros s cols.
  - exists s. split; [constructor | simpl; lia].
  - destruct s as [|a s'].
    + exists []. split; [constructor | reflexivity].
    + destruct (Nat.le_gt_cases (length (a :: s')) cols) as [L|L].
      * rewrite wrap_loop_short by (assumption || discriminate).
        exists []. split; [|reflexivity].
        rewrite <- (app_nil_r (a :: s')) at 2.
        apply pieces_tight. constructor.
      * rewrite wrap_loop_long by assumption.
        set (b := break_at (a :: s') cols).
        destruct (IH (skip_space (skipn b (a :: s'))) cols) as (rest & P & Z0).
        exists rest. split; [|simpl; intros; apply Z0; lia].
        remember (wrap_loop n (skip_space (skipn b (a :: s'))) cols) as W.
        assert (E0 : a :: s' = firstn b (a :: s') ++ skipn b (a :: s'))
          by (symmetry; apply firstn_skipn).
        rewrite E0 at 2.
        destruct (skip_space_cases (skipn b (a :: s'))) as [E|E];
          rewrite E; [apply pieces_tight | apply pieces_space]; exact P.
Qed.

(** X2.  A wrapped text has at most 8 lines; no line is empty, none is
    longer than the column count brought into 1..32, and none holds a
    NUL, so that each fits its 33-byte slot; the scroll position is 0. *)
Theorem word_wrap_bounds (text : list ascii) (cols : Z) :
  let w := word_wrap text cols in
  length (lines w) <= WRAP_MAX_LINES /\
  Forall (fun l => 1 <= length l <= WRAP_LINE_LEN /\
                   (Z.of_nat (length l) <= Z.max 1 cols)%Z /\
                   c_str l = l) (lines w) /\
  scroll w = 0%Z.
Proof.
  cbn [word_wrap lines scroll].
  pose proof (clamp_cols_pos cols) as C.
  destruct (wrap_loop_bounds WRAP_MAX_LINES (c_str text) (clamp_cols cols)
              ltac:(lia)) as [B1 B2].
  pose proof (wrap_loop_chars (fun a => a <> NUL) WRAP_MAX_LINES
                (c_str text) (clamp_cols cols) (c_str_no_nul text)) as B3.
  split; [assumption|]. split; [|reflexivity].
  rewrite Forall_forall in *. intros l Hl.
  specialize (B2 l Hl). specialize (B3 l Hl).
  split; [lia|]. split; [|apply c_str_fixed; assumption].
  assert (Z.of_nat (clamp_cols cols) <= Z.max 1 cols)%Z; [|lia].
  unfold clamp_cols, WRAP_LINE_LEN.
  destruct (cols <? 1)%Z eqn:E1; [apply Z.ltb_lt in E1 | apply Z.ltb_ge in E1].
  - cbn. lia.
  - destruct (Z.of_nat 32 <? cols)%Z eqn:E2;
      [apply Z.ltb_lt in E2 | apply Z.ltb_ge in E2]; lia.
Qed.

(** X3.  Wrapping keeps the text: the lines are consecutive pieces of it,
    in order, and between two lines at most one space is left out.  When
    fewer than 8 lines come out, nothing of the text is left over. *)
Theorem word_wrap_pieces (text : list ascii) (cols : Z) :
  exists rest,
    pieces (lines (word_wrap text cols)) (c_str text) rest /\
    (length (lines (word_wrap text cols)) < WRAP_MAX_LINES -> rest = []).
Proof.
  cbn [word_wrap lines].
  apply wrap_loop_pieces.
Qed.

(* ================================================================== *)
(** * Bookmarks: what a load accepts and what a toggle changes *)
(* ================================================================== *)

Lemma bmarks_push_valid (buf : list ascii) (idx : list Z) (vcount : Z) :
  Forall (fun v => (0 <= v < vcount)%Z /\ (v < 2 ^ 16)%Z) idx ->
  Forall (fun v => (0 <= v < vcount)%Z /\ (v < 2 ^ 16)%Z)
         (bmarks_push buf idx vcount) /\
  length (bmarks_push buf idx vcount) <= S (length idx).
Proof.
  intros H. unfold bmarks_push.
  assert (R : (0 <= u16 (atoi buf) < 2 ^ 16)%Z)
    by (unfold u16; apply Z.mod_pos_bound; lia).
  destruct (u16 (atoi buf) <? vcount)%Z eqn:E.
  - apply Z.ltb_lt in E. split.
    + apply Forall_app. split; [assumption|]. constructor; [lia | constructor].
    + rewrite length_app. simpl. lia.
  - split; [assumption | lia].
Qed.

Lemma bmarks_loop_valid (rest : list ascii) :
  forall buf idx vcount,
    Forall (fun v => (0 <= v < vcount)%Z /\ (v < 2 ^ 16)%Z) idx ->
    length idx <= MAX_BOOKMARKS ->
    Forall (fun v => (0 <= v < vcount)%Z /\ (v < 2 ^ 16)%Z)
           (bmarks_loop rest buf idx vcount) /\
    length (bmarks_loop rest buf idx vcount) <= MAX_BOOKMARKS.
Proof.
  induction rest as [|ch rest IH]; intros buf idx vcount V L.
  - cbn [bmarks_loop].
    destruct (MAX_BOOKMARKS <=? length idx) eqn:C; [split; assumption|].
    apply Nat.leb_gt in C.
    destruct (0 <? length buf); [|split; assumption].
    destruct (bmarks_push_valid buf idx vcount V). split; [assumption | lia].
  - cbn [bmarks_loop].
    destruct (MAX_BOOKMARKS <=? length idx) eqn:C; [split; assumption|].
    apply Nat.leb_gt in C.
    destruct (Ascii.eqb ch LF || Ascii.eqb ch CR).
    + destruct (0 <? length buf); [|apply IH; assumption].
      destruct (bmarks_push_valid buf idx vcount V).
      apply IH; [assumption | lia].
    + destruct (length buf <? 7); apply IH; assumption.
Qed.

(** X4.  Whatever the bookmark file holds, and whether it exists or not,
    [bmarks_load] leaves at most 75 bookmarks and every one of them
    names a verse of the index. *)
Theorem bmarks_load_valid (app : App) :
  let app' := bmarks_load app in
  length (bm_idx (bmarks app')) <= MAX_BOOKMARKS /\
  Forall (fun v => (0 <= v < Z.of_nat (verse_count app'))%Z)
         (bm_idx (bmarks app')) /\
  index app' = index app /\
  (bm_file (storage app) = None -> bm_idx (bmarks app') = []).
Proof.
  unfold bmarks_load.
  destruct (bm_file (storage app)) as [data|] eqn:F.
  - destruct (bmarks_loop_valid data [] [] (Z.of_nat (verse_count app))
                (Forall_nil _) ltac:(unfold MAX_BOOKMARKS; simpl; lia)) as [V L].
    cbn [set_bmarks bmarks bm_idx index verse_count].
    split; [assumption|]. split; [|split; [reflexivity | discriminate]].
    eapply Forall_impl; [|exact V]. cbn beta. intros v Hv. exact (proj1 Hv).
  - cbn [set_bmarks bmarks bm_idx index verse_count].
    split; [simpl; lia|]. split; [constructor|]. split; reflexivity.
Qed.

Lemma remove_first_other (x y : Z) (l l' : list Z) :
  remove_first x l = Some l' -> y <> x ->
  existsb (Z.eqb y) l' = existsb (Z.eqb y) l.
Proof.
  revert l'. induction l as [|a l IH]; intros l' R N; [discriminate|].
  cbn [remove_first] in R. destruct (a =? x)%Z eqn:E.
  - injection R as <-. apply Z.eqb_eq in E. subst a.
    cbn [existsb]. destruct (Z.eqb_spec y x); [contradiction | reflexivity].
  - destruct (remove_first x l) as [r|]; [|discriminate].
    injection R as <-. cbn [existsb]. rewrite (IH r eq_refl N). reflexivity.
Qed.

Lemma remove_first_nodup_gone (x : Z) (l l' : list Z) :
  remove_first x l = Some l' -> NoDup l -> existsb (Z.eqb x) l' = false.
Proof.
  revert l'. induction l as [|a l IH]; intros l' R N; [discriminate|].
  cbn [remove_first] in R. inversion N as [|? ? Na Nl]; subst.
  destruct (a =? x)%Z eqn:E.
  - injection R as <-. apply Z.eqb_eq in E. subst a.
    destruct (existsb (Z.eqb x) l) eqn:X; [|reflexivity].
    apply existsb_exists in X. destruct X as (z & Hz & Ez).
    apply Z.eqb_eq in Ez. subst z. contradiction.
  - destruct (remove_first x l) as [r|]; [|discriminate].
    injection R as <-. cbn [existsb].
    rewrite (IH r eq_refl Nl), Z.eqb_sym, E. reflexivity.
Qed.

Lemma existsb_snoc (y x : Z) (l : list Z) :
  existsb (Z.eqb y) (l ++ [x]) = existsb (Z.eqb y) l || (y =? x)%Z.
Proof.
  rewrite existsb_app. cbn [existsb]. rewrite orb_false_r. reflexivity.
Qed.

(** X5.  A toggle changes the bookmark state of its own verse and of no
    other: when the list has no duplicates, and is not full unless the
    verse is on it, the verse's state is flipped and every other
    verse's state is as before. *)
Theorem toggle_bmark_membership (app : App) (x y : Z) :
  NoDup (bm_idx (bmarks app)) ->
  is_bookmarked app x = true \/ length (bm_idx (bmarks app)) < MAX_BOOKMARKS ->
  is_bookmarked (toggle_bmark app x) y =
  if (y =? x)%Z then negb (is_bookmarked app x) else is_bookmarked app y.
Proof.
  intros N C. unfold is_bookmarked in *. rewrite toggle_bmark_idx.
  destruct (remove_first x (bm_idx (bmarks app))) as [l'|] eqn:R.
  - assert (X : existsb (Z.eqb x) (bm_idx (bmarks app)) = true).
    { destruct (existsb (Z.eqb x) (bm_idx (bmarks app))) eqn:X; [reflexivity|].
      apply remove_first_none in X. congruence. }
    destruct (Z.eqb_spec y x) as [->|Ne].
    + rewrite X. apply (remove_first_nodup_gone _ _ _ R N).
    + apply (remove_first_other _ _ _ _ R Ne).
  - apply remove_first_none in R.
    destruct C as [C|C]; [congruence|].
    apply Nat.ltb_lt in C. rewrite C, existsb_snoc.
    destruct (Z.eqb_spec y x) as [->|Ne].
    + rewrite R. reflexivity.
    + apply orb_false_r.
Qed.

Lemma toggle_bmark_membership_witness :
  let app := app_started psalm_file (lit "3" ++ [LF] ++ lit "1" ++ [LF]) in
  NoDup (bm_idx (bmarks app)) /\
  is_bookmarked (toggle_bmark app 3) 3 = negb (is_bookmarked app 3) /\
  is_bookmarked (toggle_bmark app 3) 1 = is_bookmarked app 1 /\
  is_bookmarked (toggle_bmark app 2) 2 = negb (is_bookmarked app 2).
Proof.
  cbv zeta.
  assert (I : bm_idx (bmarks (app_started psalm_file (lit "3" ++ [LF] ++ lit "1" ++ [LF])))
              = [3%Z; 1%Z]) by (vm_compute; reflexivity).
  assert (N : NoDup (bm_idx (bmarks (app_started psalm_file
                                       (lit "3" ++ [LF] ++ lit "1" ++ [LF]))))).
  { rewrite I. repeat constructor; simpl; intuition discriminate. }
  assert (C : forall x,
             is_bookmarked (app_started psalm_file (lit "3" ++ [LF] ++ lit "1" ++ [LF])) x
             = true \/
             length (bm_idx (bmarks (app_started psalm_file
                                       (lit "3" ++ [LF] ++ lit "1" ++ [LF]))))
             < MAX_BOOKMARKS).
  { intros x. right. rewrite I. unfold MAX_BOOKMARKS. simpl. lia. }
  split; [exact N|]. split; [|split].
  - exact (toggle_bmark_membership _ 3 3 N (C 3%Z)).
  - exact (toggle_bmark_membership _ 3 1 N (C 3%Z)).
  - exact (toggle_bmark_membership _ 2 2 N (C 2%Z)).
Defined.

(* ================================================================== *)
(** * The picker: every key leaves a verse of the tables selected *)
(* ================================================================== *)

Lemma valid_picker_verse (app : App) (v : Z) :
  valid_picker app ->
  (1 <= v <= book_chapter_verses (api_book_sel app) (api_chapter_sel app))%Z ->
  valid_picker (set_api_verse_sel app v).
Proof.
  intros (B & C & V) R. unfold valid_picker.
  cbn [set_api_verse_sel api_book_sel api_chapter_sel api_verse_sel].
  repeat split; lia.
Qed.

Lemma valid_picker_chapter (app : App) (c : Z) :
  valid_picker app ->
  (1 <= c <= book_chapters (api_book_sel app))%Z ->
  valid_picker (clamp_verse (set_api_chapter_sel app c)).
Proof.
  intros (B & C & V) R. unfold valid_picker.
  destruct (clamp_verse_spec (set_api_chapter_sel app c)) as (E1 & E2 & E3).
  rewrite E1, E2, E3.
  cbn [set_api_chapter_sel api_book_sel api_chapter_sel api_verse_sel].
  pose proof (book_chapter_verses_pos (api_book_sel app) c B R).
  repeat split; lia.
Qed.

Lemma valid_picker_book (app : App) (b : Z) :
  valid_picker app -> (0 <= b < 66)%Z ->
  valid_picker (clamp_verse (clamp_chapter (set_api_book_sel app b))).
Proof.
  intros (B & C & V) R.
  destruct (book_changed_intro app b R ltac:(lia) ltac:(lia))
    as (E1 & E2 & E3 & E4 & E5).
  unfold valid_picker, BIBLE_BOOKS_COUNT. rewrite E1. repeat split; lia.
Qed.

(** X6.  From a picker state that names a verse of the tables, Left and
    Right on any row lead to such a state again: the book stays in
    0..65, the chapter within the book's chapters and the verse within
    the chapter's verses. *)
Theorem picker_keys_keep_valid (app : App) :
  valid_picker app ->
  valid_picker (api_menu_left app) /\ valid_picker (api_menu_right app).
Proof.
  intros V. pose proof V as (B & C & Vs).
  unfold BIBLE_BOOKS_COUNT in B.
  pose proof (book_chapters_pos _ B) as PC.
  pose proof (book_chapter_verses_pos _ _ B C) as PV.
  unfold api_menu_left, api_menu_right.
  destruct (api_menu_sel app) as [|p|p]; try (split; assumption).
  destruct p as [p|p|]; [destruct p as [p|p|] | destruct p as [p|p|] | ];
    try (split; assumption).
  - (* row 3 *)
    split.
    + destruct (1 <? api_verse_sel app)%Z eqn:E;
        [apply Z.ltb_lt in E | apply Z.ltb_ge in E];
        apply valid_picker_verse; try assumption; lia.
    + destruct (api_verse_sel app <?
                book_chapter_verses (api_book_sel app) (api_chapter_sel app))%Z eqn:E;
        [apply Z.ltb_lt in E | apply Z.ltb_ge in E];
        apply valid_picker_verse; try assumption; lia.
  - (* row 2 *)
    split.
    + destruct (1 <? api_chapter_sel app)%Z eqn:E;
        [apply Z.ltb_lt in E | apply Z.ltb_ge in E];
        apply valid_picker_chapter; try assumption; lia.
    + destruct (api_chapter_sel app <? book_chapters (api_book_sel app))%Z eqn:E;
        [apply Z.ltb_lt in E | apply Z.ltb_ge in E];
        apply valid_picker_chapter; try assumption; lia.
  - (* row 1 *)
    split.
    + destruct (0 <? api_book_sel app)%Z eqn:E;
        [apply Z.ltb_lt in E | apply Z.ltb_ge in E];
        apply valid_picker_book; try assumption; unfold BIBLE_BOOKS_COUNT; lia.
    + destruct (api_book_sel app <? Z.of_nat BIBLE_BOOKS_COUNT - 1)%Z eqn:E;
        [apply Z.ltb_lt in E | apply Z.ltb_ge in E];
        apply valid_picker_book; try assumption; unfold BIBLE_BOOKS_COUNT in *; lia.
Qed.

Lemma genesis_1_1_valid : valid_picker genesis_1_1.
Proof. unfold valid_picker. vm_compute. intuition discriminate. Qed.

Lemma picker_keys_keep_valid_witness :
  valid_picker (api_menu_left (set_api_menu_sel genesis_1_1 2)) /\
  valid_picker (api_menu_right (set_api_menu_sel genesis_1_1 2)).
Proof.
  apply picker_keys_keep_valid. exact genesis_1_1_valid.
Defined.

Ltac picker_fields :=
  cbn [api_menu_left api_menu_right clamp_verse clamp_chapter
       set_api_verse_sel set_api_chapter_sel set_api_book_sel
       api_menu_sel api_verse_sel api_book_sel api_chapter_sel] in *;
  unfold clamp_verse, clamp_chapter,
    set_api_verse_sel, set_api_chapter_sel, set_api_book_sel in *;
  cbn [storage index vfiles vfile_sel vfile search_buf search_len hits bmarks
       font_choice daily_verse_idx daily_verse_day api_trans_sel
       api_menu_sel api_menu_scroll api_verse_sel api_book_sel api_chapter_sel] in *;
  change (Z.of_nat BIBLE_BOOKS_COUNT) with 66%Z in *.

Ltac by_cases c :=
  let E := fresh "E" in
  destruct c eqn:E;
  [ first [apply Z.ltb_lt in E | apply Z.leb_le in E]
  | first [apply Z.ltb_ge in E | apply Z.leb_gt in E] ].

Lemma picker_verse_row_inverse (app : App) :
  valid_picker app -> api_menu_sel app = 3%Z ->
  api_menu_left (api_menu_right app) = app /\
  api_menu_right (api_menu_left app) = app.
Proof.
  intros (B & C & V) R.
  destruct app as [st ix vfs vsel vf sb sl hs bms fc dvi dvd ts ms msc bk ch vs].
  picker_fields. subst ms.
  split; picker_fields.
  - by_cases (vs <? book_chapter_verses bk ch)%Z; picker_fields.
    + by_cases (1 <? vs + 1)%Z; picker_fields; [f_equal; lia | lia].
    + rewrite Z.ltb_irrefl. f_equal. lia.
  - by_cases (1 <? vs)%Z; picker_fields.
    + by_cases (vs - 1 <? book_chapter_verses bk ch)%Z;
        picker_fields; [f_equal; lia | lia].
    + rewrite Z.ltb_irrefl. f_equal. lia.
Qed.

Lemma clamp_menu_sel (a : App) :
  api_menu_sel (clamp_verse a) = api_menu_sel a /\
  api_menu_sel (clamp_chapter a) = api_menu_sel a.
Proof.
  unfold clamp_verse, clamp_chapter. split; destruct (_ <? _)%Z; reflexivity.
Qed.

Lemma api_menu_row2 (app : App) :
  api_menu_sel app = 2%Z ->
  let ch := api_chapter_sel app in
  let n := book_chapters (api_book_sel app) in
  (api_menu_sel (api_menu_left app) = 2%Z /\
   api_book_sel (api_menu_left app) = api_book_sel app /\
   api_chapter_sel (api_menu_left app) = if (1 <? ch)%Z then (ch - 1)%Z else n) /\
  (api_menu_sel (api_menu_right app) = 2%Z /\
   api_book_sel (api_menu_right app) = api_book_sel app /\
   api_chapter_sel (api_menu_right app) = if (ch <? n)%Z then (ch + 1)%Z else 1%Z).
Proof.
  intros R. cbv zeta. unfold api_menu_left, api_menu_right. rewrite R.
  split.
  - destruct (clamp_verse_spec
                (if (1 <? api_chapter_sel app)%Z
                 then set_api_chapter_sel app (api_chapter_sel app - 1)
                 else set_api_chapter_sel app (book_chapters (api_book_sel app))))
      as (E1 & E2 & E3).
    rewrite (proj1 (clamp_menu_sel _)), E1, E2.
    destruct (1 <? api_chapter_sel app)%Z; repeat split; assumption.
  - destruct (clamp_verse_spec
                (if (api_chapter_sel app <? book_chapters (api_book_sel app))%Z
                 then set_api_chapter_sel app (api_chapter_sel app + 1)
                 else set_api_chapter_sel app 1))
      as (E1 & E2 & E3).
    rewrite (proj1 (clamp_menu_sel _)), E1, E2.
    destruct (api_chapter_sel app <? book_chapters (api_book_sel app))%Z;
      repeat split; assumption.
Qed.

Lemma api_menu_row1 (app : App) :
  api_menu_sel app = 1%Z ->
  let bk := api_book_sel app in
  (api_menu_sel (api_menu_left app) = 1%Z /\
   api_book_sel (api_menu_left app) = if (0 <? bk)%Z then (bk - 1)%Z else 65%Z) /\
  (api_menu_sel (api_menu_right app) = 1%Z /\
   api_book_sel (api_menu_right app) = if (bk <? 65)%Z then (bk + 1)%Z else 0%Z).
Proof.
  intros R. cbv zeta. unfold api_menu_left, api_menu_right. rewrite R.
  change (Z.of_nat BIBLE_BOOKS_COUNT - 1)%Z with 65%Z.
  split.
  - rewrite (proj1 (clamp_menu_sel _)), (proj2 (clamp_menu_sel _)).
    rewrite (proj1 (clamp_verse_spec _)), (proj1 (clamp_chapter_spec _)).
    destruct (0 <? api_book_sel app)%Z; split; assumption || reflexivity.
  - rewrite (proj1 (clamp_menu_sel _)), (proj2 (clamp_menu_sel _)).
    rewrite (proj1 (clamp_verse_spec _)), (proj1 (clamp_chapter_spec _)).
    destruct (api_book_sel app <? 65)%Z; split; assumption || reflexivity.
Qed.

Lemma picker_row_inverse (app : App) :
  valid_picker app ->
  (api_menu_sel app = 1%Z ->
   api_book_sel (api_menu_left (api_menu_right app)) = api_book_sel app /\
   api_book_sel (api_menu_right (api_menu_left app)) = api_book_sel app) /\
  (api_menu_sel app = 2%Z ->
   api_chapter_sel (api_menu_left (api_menu_right app)) = api_chapter_sel app /\
   api_chapter_sel (api_menu_right (api_menu_left app)) = api_chapter_sel app).
Proof.
  intros (B & C & V).
  change (Z.of_nat BIBLE_BOOKS_COUNT) with 66%Z in B.
  split; intros R.
  - destruct (api_menu_row1 app R) as ((L1 & L2) & (R1 & R2)).
    destruct (api_menu_row1 _ L1) as (_ & (_ & RL)).
    destruct (api_menu_row1 _ R1) as ((_ & LR) & _).
    cbv zeta in *. rewrite LR, RL, L2, R2. clear LR RL L2 R2.
    split.
    + by_cases (api_book_sel app <? 65)%Z.
      * by_cases (0 <? api_book_sel app + 1)%Z; lia.
      * rewrite Z.ltb_irrefl. lia.
    + by_cases (0 <? api_book_sel app)%Z.
      * by_cases (api_book_sel app - 1 <? 65)%Z; lia.
      * rewrite Z.ltb_irrefl. lia.
  - destruct (api_menu_row2 app R) as ((L1 & L2 & L3) & (R1 & R2 & R3)).
    destruct (api_menu_row2 _ L1) as (_ & (_ & _ & RL)).
    destruct (api_menu_row2 _ R1) as ((_ & _ & LR) & _).
    cbv zeta in *. rewrite LR, RL, L2, R2, L3, R3. clear LR RL L2 R2 L3 R3.
    split.
    + by_cases (api_chapter_sel app <? book_chapters (api_book_sel app))%Z.
      * by_cases (1 <? api_chapter_sel app + 1)%Z; lia.
      * rewrite Z.ltb_irrefl. lia.
    + by_cases (1 <? api_chapter_sel app)%Z.
      * by_cases (api_chapter_sel app - 1 <? book_chapters (api_book_sel app))%Z; lia.
      * rewrite Z.ltb_irrefl. lia.
Qed.

(** X7.  On a valid picker state Right undoes Left and Left undoes
    Right: on the verse row the whole state comes back, on the chapter
    row the chapter and on the book row the book (the fields below the
    row may have been clamped on the way). *)
Theorem picker_left_right_inverse (app : App) :
  valid_picker app ->
  (api_menu_sel app = 3%Z ->
   api_menu_left (api_menu_right app) = app /\
   api_menu_right (api_menu_left app) = app) /\
  (api_menu_sel app = 2%Z ->
   api_chapter_sel (api_menu_left (api_menu_right app)) = api_chapter_sel app /\
   api_chapter_sel (api_menu_right (api_menu_left app)) = api_chapter_sel app) /\
  (api_menu_sel app = 1%Z ->
   api_book_sel (api_menu_left (api_menu_right app)) = api_book_sel app /\
   api_book_sel (api_menu_right (api_menu_left app)) = api_book_sel app).
Proof.
  intros V. destruct (picker_row_inverse app V) as [R1 R2].
  split; [|split; assumption].
  apply picker_verse_row_inverse. assumption.
Qed.

Lemma picker_left_right_inverse_witness :
  let app := set_api_menu_sel genesis_1_1 3 in
  api_menu_left (api_menu_right app) = app /\
  api_menu_right (api_menu_left app) = app.
Proof.
  exact (proj1 (picker_left_right_inverse (set_api_menu_sel genesis_1_1 3)
                  genesis_1_1_valid) eq_refl).
Defined.

(* ================================================================== *)
(** * [settings_load]: whatever the file holds *)
(* ================================================================== *)

Lemma find_slot_range {A : Type} (test : A -> bool) (l : list A) :
  forall i j, find_slot test l i = Some j ->
         (i <= j < i + Z.of_nat (length l))%Z.
Proof.
  induction l as [|x l IH]; intros i j F; [discriminate|].
  cbn [find_slot] in F. destruct (test x).
  - injection F as <-. cbn [length]. lia.
  - apply IH in F. cbn [length]. lia.
Qed.

Lemma loaded_from_refl (a : App) : loaded_from a a.
Proof. constructor; auto. Qed.

Ltac loaded_fields :=
  cbn [set_vfile_sel set_font_choice set_api_trans_sel set_api_book_sel
       set_api_chapter_sel set_api_verse_sel set_daily_verse_idx
       set_daily_verse_day
       storage index vfiles vfile_sel vfile search_buf search_len hits bmarks
       font_choice daily_verse_idx daily_verse_day api_trans_sel
       api_menu_sel api_menu_scroll api_verse_sel api_book_sel api_chapter_sel
       vfile_count].

Lemma digits_value_nonneg (s : list ascii) :
  forall acc, (0 <= acc)%Z -> (0 <= digits_value s acc)%Z.
Proof.
  induction s as [|c s IH]; intros acc A; cbn [digits_value]; [assumption|].
  destruct (is_digit c) eqn:D; [|assumption].
  apply IH. unfold is_digit in D. apply andb_true_iff in D.
  destruct D as [D1 D2]. apply Nat.leb_le in D1. lia.
Qed.

Lemma strtoul_range (s : list ascii) : (0 <= strtoul s < 2 ^ 32)%Z.
Proof.
  unfold strtoul.
  destruct (skip_spaces (c_str s)) as [|c r]; [lia|].
  pose proof (digits_value_nonneg r 0 (Z.le_refl 0)) as Pr.
  pose proof (digits_value_nonneg (c :: r) 0 (Z.le_refl 0)) as Pc.
  destruct (Ascii.eqb c "-").
  - destruct (2 ^ 32 - 1 <? digits_value r 0)%Z; [lia|].
    unfold u32. apply Z.mod_pos_bound. lia.
  - destruct (Ascii.eqb c "+"); lia.
Qed.

Lemma apply_setting_loaded (a b : App) (line : list ascii) :
  loaded_from a b -> loaded_from a (apply_setting b line).
Proof.
  intros L. pose proof L as [L1 L2 L3 L4 L5 L6 L7 L8 S1 S2 S3 S4 S5 S6 S7].
  unfold apply_setting.
  destruct (strchr line EQS) as [p|]; [|assumption].
  destruct (str_eq (firstn p line) (lit "verse_file")).
  { destruct (find_slot _ (vfiles b) 0) as [i|] eqn:F; [|assumption].
    apply find_slot_range in F. rewrite L3 in F.
    constructor; loaded_fields; try assumption. right. unfold vfile_count. lia. }
  destruct (str_eq (firstn p line) (lit "font_size")).
  { destruct (_ && _); [|assumption]. constructor; loaded_fields; assumption. }
  destruct (str_eq (firstn p line) (lit "api_trans")).
  { destruct (find_slot _ API_TRANSLATIONS 0) as [i|] eqn:F; [|assumption].
    apply find_slot_range in F.
    constructor; loaded_fields; try assumption. right. exact F. }
  destruct (str_eq (firstn p line) (lit "api_book")).
  { destruct (_ && _) eqn:C; [|assumption].
    apply andb_true_iff in C. destruct C as [C1 C2].
    apply Z.leb_le in C1. apply Z.ltb_lt in C2.
    constructor; loaded_fields; try assumption. right. lia. }
  destruct (str_eq (firstn p line) (lit "api_chapter")).
  { destruct (_ && _) eqn:C; [|assumption].
    apply andb_true_iff in C. destruct C as [C1 C2].
    apply Z.leb_le in C1. apply Z.leb_le in C2.
    constructor; loaded_fields; try assumption. right. lia. }
  destruct (str_eq (firstn p line) (lit "api_verse")).
  { destruct (_ && _) eqn:C; [|assumption].
    apply andb_true_iff in C. destruct C as [C1 C2].
    apply Z.leb_le in C1. apply Z.leb_le in C2.
    constructor; loaded_fields; try assumption. right. lia. }
  destruct (str_eq (firstn p line) (lit "daily_idx")).
  { destruct (_ && _) eqn:C; [|assumption].
    apply andb_true_iff in C. destruct C as [C1 C2].
    apply Z.leb_le in C1. apply Z.ltb_lt in C2.
    constructor; loaded_fields; try assumption. right. lia. }
  destruct (str_eq (firstn p line) (lit "daily_day")); [|assumption].
  constructor; loaded_fields; try assumption. right. apply strtoul_range.
Qed.

Lemma settings_loop_loaded (fuel : nat) :
  forall rest a b b',
    loaded_from a b -> settings_loop fuel rest b = Some b' -> loaded_from a b'.
Proof.
  induction fuel as [|fuel IH]; intros rest a b b' L E; [discriminate|].
  cbn [settings_loop] in E.
  destruct (settings_read_line rest []) as [[line done] rest'].
  assert (L' : loaded_from a match line with
                             | [] => b
                             | _ :: _ => apply_setting b line
                             end).
  { destruct line; [assumption | apply apply_setting_loaded; assumption]. }
  destruct done.
  - injection E as <-. assumption.
  - eapply IH; eassumption.
Qed.

Lemma settings_load_loaded (app : App) : loaded_from app (settings_load app).
Proof.
  unfold settings_load.
  destruct (settings_file (storage app)) as [data|]; [|apply loaded_from_refl].
  eapply settings_loop_loaded; [apply loaded_from_refl|].
  apply settings_load_bytes_total.
Qed.

(** X8.  Whatever bytes the settings file holds, [settings_load] changes
    nothing but the eight persisted settings, and a setting it changes
    is in range afterwards: the corpus is one of the discovered files,
    the translation and the book index their tables, chapter and verse
    are within 1..150 and 1..176, the daily verse is below 600.  With
    no settings file the state is as it was. *)
Theorem settings_load_in_range (app : App) :
  loaded_from app (settings_load app) /\
  (settings_file (storage app) = None -> settings_load app = app).
Proof.
  split; [apply settings_load_loaded|].
  intros N. unfold settings_load. rewrite N. reflexivity.
Qed.

Lemma apply_setting_unknown (app : App) (line : list ascii) :
  unknown_line line -> apply_setting app line = app.
Proof.
  unfold unknown_line, apply_setting.
  destruct (strchr line EQS) as [p|]; [|reflexivity].
  intros U. unfold SETTINGS_KEYS in U.
  repeat match type of U with
         | Forall _ (_ :: _) =>
             let N := fresh "N" in
             inversion U as [|? ? N U']; subst; clear U; rename U' into U
         end.
  rewrite !str_eq_false; [reflexivity|..];
    match goal with
    | |- c_str _ <> c_str (lit ?k) =>
        change (c_str (lit k)) with (lit k); assumption
    end.
Qed.

Lemma fold_after_line_skip (before after : list (list ascii)) (line : list ascii) :
  (forall a, after_line a line = a) ->
  forall app,
    fold_left after_line (before ++ line :: after) app =
    fold_left after_line (before ++ after) app.
Proof.
  intros S app. rewrite !fold_left_app. cbn [fold_left]. rewrite S. reflexivity.
Qed.

(** A line longer than the line buffer is read in pieces, and a piece
    that reads as a setting is applied: behind 95 bytes of an unknown
    key, [font_size=4] sets the font. *)
Example settings_long_line_split :
  let line := lit "junk=" ++ repeat "x"%char 90 ++ lit "font_size=4" in
  unknown_line line /\
  font_choice configured_app = FONT_LARGE /\
  font_choice (settings_load_bytes configured_app (settings_file_of [line]))
  = FONT_XLARGE.
Proof.
  split; [|split; vm_compute; reflexivity].
  unfold unknown_line. cbn.
  repeat (apply Forall_cons; [discriminate|]). apply Forall_nil.
Qed.

(** X9.  In a settings file whose lines are all shorter than 95 bytes,
    the room of the line buffer, and free of [\r], a line that is blank,
    has no [=] or has a key other than the eight known ones is passed
    over: the file loads as it does without that line. *)
Theorem settings_load_ignores_unknown (app : App)
        (before after : list (list ascii)) (line : list ascii) :
  Forall plain_line (before ++ line :: after) ->
  unknown_line line ->
  settings_load_bytes app (settings_file_of (before ++ line :: after)) =
  settings_load_bytes app (settings_file_of (before ++ after)).
Proof.
  intros P U.
  assert (P' : Forall plain_line (before ++ after)).
  { apply Forall_app in P. destruct P as [P1 P2]. inversion P2; subst.
    apply Forall_app. split; assumption. }
  rewrite !settings_load_bytes_lines by assumption.
  apply fold_after_line_skip.
  intros a. destruct line; [reflexivity|]. cbn [after_line].
  apply apply_setting_unknown. assumption.
Qed.

Lemma settings_load_ignores_unknown_witness :
  settings_load_bytes configured_app
    (settings_file_of ([lit "font_size=1"] ++ lit "colour=red" :: [lit "api_verse=3"])) =
  settings_load_bytes configured_app
    (settings_file_of ([lit "font_size=1"] ++ [lit "api_verse=3"])).
Proof.
  apply settings_load_ignores_unknown.
  - repeat (apply Forall_cons;
            [split; [apply no_eol_ok; reflexivity | vm_compute; lia]|]).
    apply Forall_nil.
  - unfold unknown_line. cbn.
    repeat (apply Forall_cons; [discriminate|]). apply Forall_nil.
Defined.

(* ================================================================== *)
(** * [parse_line]: the three fields of a record *)
(* ================================================================== *)

Lemma PIPE_not_NUL : Ascii.eqb PIPE NUL = false.
Proof. reflexivity. Qed.

Lemma strchr_field (r rest : list ascii) :
  field r -> strchr (r ++ PIPE :: rest) PIPE = Some (length r).
Proof.
  induction r as [|a r IH]; intros F.
  - cbn. reflexivity.
  - inversion F as [|? ? [N1 N2] F']; subst.
    cbn [List.app strchr length].
    apply Ascii.eqb_neq in N1. apply Ascii.eqb_neq in N2.
    rewrite N1, N2, (IH F'). reflexivity.
Qed.

Lemma strchr_split (s : list ascii) :
  forall p, strchr s PIPE = Some p ->
       s = firstn p s ++ PIPE :: skipn (S p) s /\
       field (firstn p s) /\ length (firstn p s) = p.
Proof.
  induction s as [|a s IH]; intros p E; [discriminate|].
  cbn [strchr] in E. destruct (Ascii.eqb a PIPE) eqn:A.
  - injection E as <-. apply Ascii.eqb_eq in A. subst a.
    cbn. repeat split. constructor.
  - destruct (Ascii.eqb a NUL) eqn:Z0; [discriminate|].
    destruct (strchr s PIPE) as [q|]; [|discriminate].
    injection E as <-. destruct (IH q eq_refl) as (S1 & S2 & S3).
    cbn [firstn skipn List.app length]. split; [f_equal; exact S1|].
    split; [|f_equal; exact S3].
    constructor; [|assumption].
    split; apply Ascii.eqb_neq; assumption.
Qed.

Lemma strchr_none (s : list ascii) :
  strchr s PIPE = None <-> ~ In PIPE (c_str s).
Proof.
  induction s as [|a s IH]; [cbn; tauto|].
  cbn [strchr c_str]. destruct (Ascii.eqb a PIPE) eqn:A.
  - apply Ascii.eqb_eq in A. subst a. rewrite PIPE_not_NUL.
    split; [discriminate | intros N; exfalso; apply N; left; reflexivity].
  - destruct (Ascii.eqb a NUL) eqn:Z0.
    + split; [intros _ [] | reflexivity].
    + apply Ascii.eqb_neq in A.
      destruct (strchr s PIPE) as [q|]; cbn [option_map].
      * split; [discriminate|]. intros N. exfalso.
        assert (X : ~ In PIPE (c_str s)) by (intros I; apply N; right; exact I).
        apply IH in X. discriminate.
      * split; [|reflexivity]. intros _ [I|I]; [congruence|].
        revert I. apply IH. reflexivity.
Qed.

Lemma c_str_field (r rest : list ascii) :
  field r -> c_str (r ++ PIPE :: rest) = r ++ PIPE :: c_str rest.
Proof.
  induction r as [|a r IH]; intros F.
  - cbn [List.app c_str]. rewrite PIPE_not_NUL. reflexivity.
  - inversion F as [|? ? [N1 N2] F']; subst.
    cbn [List.app c_str]. apply Ascii.eqb_neq in N2. rewrite N2, (IH F').
    reflexivity.
Qed.

Lemma c_str_prefix (s : list ascii) : exists rest, s = c_str s ++ rest.
Proof.
  induction s as [|a s [rest IH]]; [exists []; reflexivity|].
  cbn [c_str]. destruct (Ascii.eqb a NUL).
  - exists (a :: s). reflexivity.
  - exists rest. cbn [List.app]. f_equal. exact IH.
Qed.

Lemma firstn_min_app (k : nat) (r rest : list ascii) :
  firstn (Nat.min (length r) k) (r ++ rest) = firstn k r.
Proof.
  rewrite firstn_app.
  replace (Nat.min (length r) k - length r) with 0 by lia.
  cbn [firstn]. rewrite app_nil_r.
  destruct (Nat.le_ge_cases k (length r)) as [L|L].
  - rewrite Nat.min_r by assumption. reflexivity.
  - rewrite Nat.min_l by assumption.
    rewrite firstn_all, firstn_all2 by assumption. reflexivity.
Qed.

Lemma skipn_field (r rest : list ascii) :
  skipn (S (length r)) (r ++ PIPE :: rest) = rest.
Proof.
  induction r as [|a r IH]; [reflexivity|]. cbn [length List.app]. exact IH.
Qed.

(** X10.  With buffers of at least one byte each, [parse_line] splits a
    record at its first two delimiters: of [ref|book|text] it returns the
    three fields, each cut to the size of its buffer less one; further
    delimiters belong to the text, which ends at the first NUL.  (A size
    of 0 is outside the statement: [size - 1] is then [SIZE_MAX] in the
    source, and the copy leaves the buffer.) *)
Theorem parse_line_fields (r b t : list ascii) (ref_sz book_sz text_sz : nat) :
  1 <= ref_sz -> 1 <= book_sz -> 1 <= text_sz ->
  field r -> field b ->
  parse_line (r ++ PIPE :: b ++ PIPE :: t) ref_sz book_sz text_sz =
  Some (firstn (ref_sz - 1) r, firstn (book_sz - 1) b,
        firstn (text_sz - 1) (c_str t)).
Proof.
  intros _ _ _ Fr Fb. unfold parse_line.
  rewrite (strchr_field r _ Fr), skipn_field, (strchr_field b _ Fb), skipn_field.
  rewrite !firstn_min_app.
  destruct (c_str_prefix t) as [rest E].
  rewrite E at 2. rewrite firstn_min_app. reflexivity.
Qed.

Lemma parse_line_fields_witness :
  parse_line (lit "John 3:16" ++ PIPE :: lit "John" ++ PIPE :: lit "For God so loved|the world")
             REF_LEN 32 LINE_BUF_LEN =
  Some (lit "John 3:16", lit "John", lit "For God so loved|the world").
Proof.
  apply (parse_line_fields (lit "John 3:16") (lit "John")
           (lit "For God so loved|the world") REF_LEN 32 LINE_BUF_LEN);
    try (unfold REF_LEN, LINE_BUF_LEN; lia);
    unfold field; repeat (apply Forall_cons; [split; discriminate|]);
    apply Forall_nil.
Defined.

Lemma count_occ_field (r : list ascii) :
  field r -> count_occ ascii_dec r PIPE = 0.
Proof.
  intros F. apply count_occ_not_In. intros I.
  unfold field in F. rewrite Forall_forall in F.
  destruct (F _ I) as [N _]. congruence.
Qed.

(** X11.  [parse_line] fails exactly on a line with fewer than two
    delimiters before its first NUL. *)
Theorem parse_line_rejects (line : list ascii) (ref_sz book_sz text_sz : nat) :
  parse_line line ref_sz book_sz text_sz = None <->
  count_occ ascii_dec (c_str line) PIPE < 2.
Proof.
  unfold parse_line.
  destruct (strchr line PIPE) as [p1|] eqn:E1.
  - destruct (strchr_split line p1 E1) as (S1 & F1 & L1).
    assert (C1 : c_str line =
                 firstn p1 line ++ PIPE :: c_str (skipn (S p1) line)).
    { rewrite S1 at 1. apply c_str_field. assumption. }
    rewrite C1, count_occ_app, (count_occ_field _ F1), count_occ_cons_eq
      by reflexivity.
    destruct (strchr (skipn (S p1) line) PIPE) as [p2|] eqn:E2.
    + destruct (strchr_split _ p2 E2) as (S2 & F2 & L2).
      assert (C2 : c_str (skipn (S p1) line) =
                   firstn p2 (skipn (S p1) line)
                     ++ PIPE :: c_str (skipn (S p2) (skipn (S p1) line))).
      { rewrite S2 at 1. apply c_str_field. assumption. }
      rewrite C2, count_occ_app, count_occ_cons_eq by reflexivity.
      split; [discriminate | lia].
    + apply strchr_none in E2.
      apply (count_occ_not_In ascii_dec) in E2. rewrite E2.
      split; [lia | reflexivity].
  - apply strchr_none in E1.
    apply (count_occ_not_In ascii_dec) in E1. rewrite E1.
    split; [lia | reflexivity].
Qed.

(* ================================================================== *)
(** * A corpus of records: index, look-up and search *)
(* ================================================================== *)

Lemma corpus_of_lines_cons (l : list ascii) (ls : list (list ascii)) :
  corpus_of_lines (l :: ls) = l ++ LF :: corpus_of_lines ls.
Proof.
  unfold corpus_of_lines. cbn [map concat]. rewrite <- app_assoc. reflexivity.
Qed.

Lemma corpus_of_lines_app (ls1 ls2 : list (list ascii)) :
  corpus_of_lines (ls1 ++ ls2) = corpus_of_lines ls1 ++ corpus_of_lines ls2.
Proof. unfold corpus_of_lines. rewrite map_app, concat_app. reflexivity. Qed.

Lemma corpus_of_lines_length (ls : list (list ascii)) :
  length ls <= length (corpus_of_lines ls).
Proof.
  induction ls as [|l ls IH]; [cbn; lia|].
  rewrite corpus_of_lines_cons, length_app. cbn [length]. lia.
Qed.

Lemma corpus_skipn (ls : list (list ascii)) (i : nat) :
  skipn (Z.to_nat (line_start ls i)) (corpus_of_lines ls) =
  corpus_of_lines (skipn i ls).
Proof.
  unfold line_start. rewrite Nat2Z.id.
  rewrite <- (firstn_skipn i ls) at 2.
  rewrite corpus_of_lines_app, skipn_app, skipn_all, Nat.sub_diag.
  reflexivity.
Qed.

Lemma line_start_firstn (ls : list (list ascii)) (i k : nat) :
  i <= k -> line_start (firstn k ls) i = line_start ls i.
Proof.
  intros L. unfold line_start. rewrite firstn_firstn, Nat.min_l by assumption.
  reflexivity.
Qed.

Lemma line_start_bound (ls : list (list ascii)) (i : nat) :
  (0 <= line_start ls i <= Z.of_nat (length (corpus_of_lines ls)))%Z.
Proof.
  unfold line_start. split; [lia|].
  rewrite <- (firstn_skipn i ls) at 2.
  rewrite corpus_of_lines_app, length_app. lia.
Qed.

Lemma Forall_take {A : Type} (P : A -> Prop) (n : nat) (l : list A) :
  Forall P l -> Forall P (firstn n l).
Proof.
  revert n. induction l as [|x l IH]; intros n F.
  - rewrite firstn_nil. constructor.
  - destruct n; [constructor|]. inversion F; subst.
    cbn [firstn]. constructor; [assumption | apply IH; assumption].
Qed.

Lemma index_loop_full (fuel : nat) (rest : list ascii) (off : Z)
      (idx : list VerseIndex) :
  MAX_VERSES <= length idx ->
  index_loop (S fuel) rest off idx = Some (idx, rest).
Proof.
  intros F. cbn [index_loop]. apply Nat.leb_le in F. rewrite F. reflexivity.
Qed.

Lemma index_loop_lines (ls : list (list ascii)) :
  forall fuel off idx,
    Forall whole_line ls ->
    Forall (fun l => strchr l PIPE <> None) ls ->
    (0 <= off)%Z ->
    (off + Z.of_nat (length (corpus_of_lines ls)) < 2 ^ 32)%Z ->
    length ls < fuel ->
    exists rest,
      index_loop fuel (corpus_of_lines ls) off idx =
      Some (idx ++ index_entries off (firstn (MAX_VERSES - length idx) ls), rest).
Proof.
  induction ls as [|l ls IH]; intros fuel off idx W P O B F;
    (destruct fuel as [|fuel]; [cbn [length] in F; lia|]).
  - exists []. rewrite firstn_nil. cbn [index_entries]. rewrite app_nil_r.
    apply index_loop_eof.
  - destruct (Nat.le_gt_cases MAX_VERSES (length idx)) as [C|C].
    + exists (corpus_of_lines (l :: ls)).
      replace (MAX_VERSES - length idx) with 0 by lia.
      cbn [firstn index_entries]. rewrite app_nil_r.
      apply index_loop_full. assumption.
    + inversion W as [|? ? (W1 & W2 & W3) W']; subst.
      inversion P as [|? ? P1 P']; subst.
      destruct (strchr l PIPE) as [p|] eqn:E; [|congruence].
      rewrite corpus_of_lines_cons in *. rewrite length_app in B.
      cbn [length] in B, F.
      rewrite (index_loop_record fuel l (corpus_of_lines ls) off idx p)
        by (assumption || lia).
      destruct (IH fuel (off + Z.of_nat (length l) + 1)%Z
                   (idx ++ [mkVerseIndex off
                              (firstn (if REF_LEN <=? p then REF_LEN - 1 else p) l)])
                   W' P' ltac:(lia) ltac:(lia) ltac:(lia)) as [rest R].
      exists rest. rewrite R. f_equal. f_equal.
      rewrite <- app_assoc. f_equal.
      rewrite length_app. cbn [length].
      replace (MAX_VERSES - length idx) with (S (MAX_VERSES - (length idx + 1)))
        by lia.
      cbn [firstn index_entries List.app]. rewrite E. reflexivity.
Qed.

Lemma index_entries_length (ls : list (list ascii)) :
  forall off,
    Forall (fun l => strchr l PIPE <> None) ls ->
    length (index_entries off ls) = length ls.
Proof.
  induction ls as [|l ls IH]; intros off P; [reflexivity|].
  inversion P as [|? ? P1 P']; subst. cbn [index_entries].
  destruct (strchr l PIPE); [|congruence].
  cbn [length]. rewrite IH by assumption. reflexivity.
Qed.

Lemma index_entries_nth (ls : list (list ascii)) :
  forall off i l,
    Forall (fun l => strchr l PIPE <> None) ls ->
    nth_error ls i = Some l ->
    exists p,
      strchr l PIPE = Some p /\
      nth_error (index_entries off ls) i =
      Some (mkVerseIndex (off + line_start ls i)
              (firstn (if REF_LEN <=? p then REF_LEN - 1 else p) l)).
Proof.
  induction ls as [|l0 ls IH]; intros off i l P N; [destruct i; discriminate|].
  inversion P as [|? ? P1 P']; subst. cbn [index_entries].
  destruct (strchr l0 PIPE) as [p0|] eqn:E0; [|congruence].
  destruct i as [|i].
  - injection N as <-. exists p0. split; [assumption|].
    cbn [nth_error]. unfold line_start. cbn [firstn corpus_of_lines map concat length].
    rewrite Z.add_0_r. reflexivity.
  - cbn [nth_error] in *.
    destruct (IH (off + Z.of_nat (length l0) + 1)%Z i l P' N) as (p & Ep & En).
    exists p. split; [assumption|]. rewrite En. f_equal. f_equal.
    unfold line_start. cbn [firstn]. rewrite corpus_of_lines_cons, length_app.
    cbn [length]. lia.
Qed.

Lemma ref_of_field (r rest : list ascii) :
  firstn (if REF_LEN <=? length r then REF_LEN - 1 else length r)
         (r ++ PIPE :: rest) = firstn (REF_LEN - 1) r.
Proof.
  destruct (REF_LEN <=? length r) eqn:C.
  - apply Nat.leb_le in C. rewrite firstn_app.
    replace (REF_LEN - 1 - length r) with 0 by lia.
    cbn [firstn]. apply app_nil_r.
  - apply Nat.leb_gt in C. rewrite firstn_app, Nat.sub_diag.
    cbn [firstn]. rewrite app_nil_r, firstn_all.
    symmetry. apply firstn_all2. lia.
Qed.

(** What [build_index] leaves behind on a corpus of whole lines that
    all hold a delimiter. *)
Lemma build_index_lines (app : App) (f : File) (ls : list (list ascii)) :
  vfile app = Some f -> contents f = corpus_of_lines ls ->
  Forall whole_line ls ->
  Forall (fun l => In PIPE (c_str l)) ls ->
  (Z.of_nat (length (contents f)) < 2 ^ 32)%Z ->
  exists rest,
    build_index app =
    (0 <? length ls,
     set_vfile (set_index app (index_entries 0 (firstn MAX_VERSES ls)))
               (Some (mkFile (contents f) rest))).
Proof.
  intros V C W P B.
  assert (P' : Forall (fun l => strchr l PIPE <> None) ls).
  { eapply Forall_impl; [|exact P]. cbn beta. intros l I E.
    apply strchr_none in E. contradiction. }
  unfold build_index. rewrite V.
  unfold storage_file_seek. cbn [unread contents Z.to_nat skipn].
  rewrite C in *.
  pose proof (corpus_of_lines_length ls) as Ln.
  destruct (index_loop_lines ls (S (length (corpus_of_lines ls))) 0 []
              W P' (Z.le_refl 0) ltac:(lia) ltac:(lia)) as [rest R].
  rewrite R. cbn [List.app length]. rewrite Nat.sub_0_r.
  exists rest. f_equal.
  rewrite index_entries_length
    by (apply Forall_take; assumption).
  rewrite length_firstn.
  destruct ls; [reflexivity|]. cbn [length]. unfold MAX_VERSES. reflexivity.
Qed.

Lemma skipn_nth_error {A : Type} (l : list A) :
  forall i x, nth_error l i = Some x -> skipn i l = x :: skipn (S i) l.
Proof.
  induction l as [|a l IH]; intros i x N; [destruct i; discriminate|].
  destruct i as [|i]; [injection N as <-; reflexivity|].
  cbn [nth_error] in N. cbn [skipn]. rewrite (IH i x N). reflexivity.
Qed.

Lemma nth_error_take {A : Type} (l : list A) (i k : nat) :
  i < k -> nth_error (firstn k l) i = nth_error l i.
Proof.
  intros L. rewrite nth_error_firstn. apply Nat.ltb_lt in L. rewrite L.
  reflexivity.
Qed.

Lemma line_at_start (ls : list (list ascii)) (i : nat) (l : list ascii) :
  nth_error ls i = Some l ->
  skipn (Z.to_nat (line_start ls i)) (corpus_of_lines ls) =
  l ++ LF :: corpus_of_lines (skipn (S i) ls).
Proof.
  intros N. rewrite corpus_skipn, (skipn_nth_error ls i l N).
  apply corpus_of_lines_cons.
Qed.

Lemma build_index_entry (app : App) (f : File) (ls : list (list ascii)) :
  vfile app = Some f -> contents f = corpus_of_lines ls ->
  Forall whole_line ls ->
  Forall (fun l => In PIPE (c_str l)) ls ->
  (Z.of_nat (length (contents f)) < 2 ^ 32)%Z ->
  verse_count (snd (build_index app)) = Nat.min (length ls) MAX_VERSES /\
  forall i l,
    i < MAX_VERSES -> nth_error ls i = Some l ->
    exists p,
      strchr l PIPE = Some p /\
      nth_error (index (snd (build_index app))) i =
      Some (mkVerseIndex (line_start ls i)
              (firstn (if REF_LEN <=? p then REF_LEN - 1 else p) l)).
Proof.
  intros V C W P B.
  destruct (build_index_lines app f ls V C W P B) as [rest E].
  assert (P' : Forall (fun l => strchr l PIPE <> None) (firstn MAX_VERSES ls)).
  { apply Forall_take. eapply Forall_impl; [|exact P]. cbn beta.
    intros l I E0. apply strchr_none in E0. contradiction. }
  rewrite E. cbn [snd].
  unfold verse_count. cbn [set_vfile set_index index].
  split.
  - rewrite index_entries_length by assumption.
    rewrite length_firstn. apply Nat.min_comm.
  - intros i l Li N.
    destruct (index_entries_nth (firstn MAX_VERSES ls) 0 i l P'
                ltac:(rewrite nth_error_take by assumption; exact N))
      as (p & Ep & En).
    exists p. split; [assumption|].
    rewrite En, Z.add_0_l, line_start_firstn by lia. reflexivity.
Qed.

(** X12.  On a corpus of whole lines that all hold a delimiter,
    [build_index] makes one entry per line, in order, up to 600: entry
    [i] holds the byte position at which line [i] starts and the first
    23 characters of its reference. *)
Theorem build_index_records (app : App) (f : File) (ls : list (list ascii)) :
  vfile app = Some f -> contents f = corpus_of_lines ls ->
  Forall whole_line ls ->
  Forall (fun l => In PIPE (c_str l)) ls ->
  (Z.of_nat (length (contents f)) < 2 ^ 32)%Z ->
  let app' := snd (build_index app) in
  fst (build_index app) = (0 <? length ls) /\
  verse_count app' = Nat.min (length ls) MAX_VERSES /\
  forall i l,
    i < MAX_VERSES -> nth_error ls i = Some l ->
    exists vi,
      nth_error (index app') i = Some vi /\
      offset vi = line_start ls i /\
      skipn (Z.to_nat (offset vi)) (contents f) =
        l ++ LF :: corpus_of_lines (skipn (S i) ls) /\
      (forall r rest, l = r ++ PIPE :: rest -> field r ->
                 ref vi = firstn (REF_LEN - 1) r).
Proof.
  intros V C W P B.
  destruct (build_index_lines app f ls V C W P B) as [rest E].
  destruct (build_index_entry app f ls V C W P B) as [Hc Hn].
  cbv zeta. split; [rewrite E; reflexivity|]. split; [exact Hc|].
  intros i l Li N.
  destruct (Hn i l Li N) as (p & Ep & En).
  eexists. split; [exact En|]. cbn [offset ref].
  split; [reflexivity|]. split.
  - rewrite C. apply line_at_start. assumption.
  - intros r rest0 -> Fr.
    rewrite (strchr_field r rest0 Fr) in Ep. injection Ep as <-.
    apply ref_of_field.
Qed.

Lemma strchr_found (l : list ascii) :
  strchr l PIPE <> None -> In PIPE (c_str l).
Proof.
  intros N. destruct (in_dec ascii_dec PIPE (c_str l)) as [I|I]; [assumption|].
  apply strchr_none in I. contradiction.
Qed.

Lemma psalm_lines_whole : Forall whole_line psalm_lines.
Proof.
  repeat (apply Forall_cons;
          [split; [discriminate
                  | split; [apply no_eol_ok; reflexivity | vm_compute; lia]]|]).
  apply Forall_nil.
Qed.

Lemma psalm_lines_delimited : Forall (fun l => In PIPE (c_str l)) psalm_lines.
Proof.
  repeat (apply Forall_cons; [apply strchr_found; discriminate|]).
  apply Forall_nil.
Qed.

Lemma build_index_records_witness :
  let app' := snd (build_index (app_with_corpus psalm_file)) in
  fst (build_index (app_with_corpus psalm_file)) = (0 <? length psalm_lines) /\
  verse_count app' = Nat.min (length psalm_lines) MAX_VERSES.
Proof.
  pose proof (build_index_records (app_with_corpus psalm_file)
                (open_file psalm_file) psalm_lines eq_refl eq_refl
                psalm_lines_whole psalm_lines_delimited
                ltac:(vm_compute; reflexivity)) as (H1 & H2 & _).
  split; [exact H1 | exact H2].
Defined.

(** X13.  After [build_index] on such a corpus, [read_verse_text] for
    [i] reads line [i] and nothing else: it returns the text field
    [parse_line] finds in that line, and fails when the line holds one
    delimiter only.  An [idx] at or past the verse count fails. *)
Theorem read_verse_text_line (app : App) (f : File) (ls : list (list ascii))
        (buf_sz : nat) :
  vfile app = Some f -> contents f = corpus_of_lines ls ->
  Forall whole_line ls ->
  Forall (fun l => In PIPE (c_str l)) ls ->
  (Z.of_nat (length (contents f)) < 2 ^ 32)%Z ->
  let app' := snd (build_index app) in
  (forall i l,
     i < MAX_VERSES -> nth_error ls i = Some l ->
     fst (read_verse_text app' (Z.of_nat i) buf_sz) =
     text_of (parse_line l REF_LEN 32 buf_sz)) /\
  (forall idx,
     (Z.of_nat (verse_count app') <= idx)%Z ->
     read_verse_text app' idx buf_sz = (None, app')).
Proof.
  intros V C W P B.
  destruct (build_index_entry app f ls V C W P B) as (Hc & Hn).
  destruct (build_index_lines app f ls V C W P B) as [rest E].
  cbv zeta in *. split.
  - intros i l Li N.
    destruct (Hn i l Li N) as (p & _ & N1).
    pose proof (line_at_start ls i l N) as N3. rewrite <- C in N3.
    assert (Lt : i < length ls) by (apply nth_error_Some; congruence).
    unfold read_verse_text.
    rewrite E in *. cbn [snd] in *.
    cbn [set_vfile vfile] in *.
    destruct (Z.of_nat (verse_count (set_vfile (set_index app
               (index_entries 0 (firstn MAX_VERSES ls)))
               (Some {| contents := contents f; unread := rest |}))) <=? Z.of_nat i)%Z
      eqn:Cmp.
    { apply Z.leb_le in Cmp. rewrite Hc in Cmp. lia. }
    rewrite Nat2Z.id, N1.
    unfold storage_file_seek, read_line. cbn [contents unread offset].
    rewrite N3.
    assert (Wl : whole_line l).
    { rewrite Forall_forall in W. apply W. eapply nth_error_In. exact N. }
    destruct Wl as (W1 & W2 & W3).
    rewrite (read_line_loop_plain l [] _ W2) by (cbn [length]; lia).
    cbn [List.app].
    destruct (parse_line l REF_LEN 32 buf_sz) as [[[r b] t]|]; reflexivity.
  - intros idx Ge. unfold read_verse_text.
    destruct (vfile (snd (build_index app))); [|reflexivity].
    apply Z.leb_le in Ge. rewrite Ge. reflexivity.
Qed.

Lemma read_verse_text_line_witness :
  fst (read_verse_text (snd (build_index (app_with_corpus psalm_file))) 2
         LINE_BUF_LEN) =
  text_of (parse_line (lit "Ps 23:3|Psalms|He restoreth my soul") REF_LEN 32
             LINE_BUF_LEN).
Proof.
  exact (proj1 (read_verse_text_line (app_with_corpus psalm_file)
                  (open_file psalm_file) psalm_lines LINE_BUF_LEN eq_refl eq_refl
                  psalm_lines_whole psalm_lines_delimited
                  ltac:(vm_compute; reflexivity))
               2 (lit "Ps 23:3|Psalms|He restoreth my soul")
               ltac:(unfold MAX_VERSES; lia) eq_refl).
Defined.

Lemma search_loop_lines (ls : list (list ascii)) :
  forall fuel vn found vc needle,
    Forall whole_line ls ->
    length ls < fuel ->
    (0 <= vn)%Z ->
    exists rest,
      search_loop fuel (corpus_of_lines ls) vn found vc needle =
      Some (found ++ firstn (MAX_SEARCH_RESULTS - length found)
                       (matching_ids vn (firstn (Z.to_nat (vc - vn)) ls) needle),
            rest).
Proof.
  induction ls as [|l ls IH]; intros fuel vn found vc needle W F V;
    (destruct fuel as [|fuel]; [cbn [length] in F; lia|]).
  - rewrite firstn_nil. cbn [matching_ids]. rewrite firstn_nil, app_nil_r.
    cbn [search_loop].
    destruct ((vn <? vc)%Z && (length found <? MAX_SEARCH_RESULTS));
      [|exists []; reflexivity].
    exists []. reflexivity.
  - cbn [search_loop].
    destruct ((vn <? vc)%Z && (length found <? MAX_SEARCH_RESULTS)) eqn:C.
    + apply andb_true_iff in C. destruct C as [C1 C2].
      apply Z.ltb_lt in C1. apply Nat.ltb_lt in C2.
      inversion W as [|? ? (W1 & W2 & W3) W']; subst.
      rewrite corpus_of_lines_cons.
      rewrite (read_line_loop_plain l [] _ W2) by (cbn [length]; lia).
      cbn [List.app].
      destruct l as [|a l']; [contradiction|].
      cbn [length] in F.
      destruct (IH fuel (vn + 1)%Z
                   (if icontains (a :: l') needle then found ++ [vn] else found)
                   vc needle W' ltac:(lia) ltac:(lia)) as [rest R].
      exists rest. rewrite R. f_equal. f_equal.
      replace (Z.to_nat (vc - vn)) with (S (Z.to_nat (vc - (vn + 1)))) by lia.
      cbn [firstn matching_ids].
      destruct (icontains (a :: l') needle).
      * rewrite <- app_assoc, length_app. cbn [length List.app].
        replace (MAX_SEARCH_RESULTS - length found)
          with (S (MAX_SEARCH_RESULTS - (length found + 1))) by lia.
        reflexivity.
      * reflexivity.
    + exists (corpus_of_lines (l :: ls)). f_equal. f_equal.
      apply andb_false_iff in C. destruct C as [C|C].
      * apply Z.ltb_ge in C.
        replace (Z.to_nat (vc - vn)) with 0 by lia.
        cbn [firstn matching_ids]. rewrite firstn_nil, app_nil_r. reflexivity.
      * apply Nat.ltb_ge in C.
        replace (MAX_SEARCH_RESULTS - length found) with 0 by lia.
        cbn [firstn]. rewrite app_nil_r. reflexivity.
Qed.

Lemma do_search_matching (app : App) (f : File) (ls : list (list ascii)) :
  vfile app = Some f -> contents f = corpus_of_lines ls ->
  Forall whole_line ls ->
  search_len app <> 0%Z ->
  hits_idx (hits (do_search app)) =
  firstn MAX_SEARCH_RESULTS
         (matching_ids 0 (firstn (verse_count app) ls) (search_buf app)).
Proof.
  intros V C W Sn. unfold do_search, verse_count, set_hits.
  cbn [search_len vfile index search_buf].
  apply Z.eqb_neq in Sn. rewrite Sn, V.
  unfold storage_file_seek. cbn [unread contents Z.to_nat skipn].
  rewrite C.
  pose proof (corpus_of_lines_length ls) as Ln.
  destruct (search_loop_lines ls (S (length (corpus_of_lines ls))) 0 []
              (Z.of_nat (length (index app))) (search_buf app)
              W ltac:(lia) (Z.le_refl 0)) as [rest R].
  rewrite R. unfold set_vfile.
  cbn [hits hits_idx List.app length].
  rewrite Nat.sub_0_r, Z.sub_0_r, Nat2Z.id. reflexivity.
Qed.

(** X14.  On a corpus of whole lines, a search with a non-empty buffer
    returns the ordinals of the lines that contain the query, in file
    order: all of them among the first [verse_count] lines, or the
    first 50 if there are more.  The cursor of the result list is at
    its first entry; index and query are as they were. *)
Theorem do_search_lines (app : App) (f : File) (ls : list (list ascii)) :
  vfile app = Some f -> contents f = corpus_of_lines ls ->
  Forall whole_line ls ->
  search_len app <> 0%Z ->
  hits_idx (hits (do_search app)) =
  firstn MAX_SEARCH_RESULTS
         (matching_ids 0 (firstn (verse_count app) ls) (search_buf app)) /\
  hits_sel (hits (do_search app)) = 0%Z /\
  index (do_search app) = index app /\
  search_buf (do_search app) = search_buf app.
Proof.
  intros V C W Sn. split; [apply (do_search_matching app f ls); assumption|].
  unfold do_search, set_hits. cbn [search_len vfile].
  destruct (search_len app =? 0)%Z; [repeat split|].
  rewrite V.
  destruct (search_loop _ _ _ _ _ _) as [[found rest]|]; repeat split.
Qed.

Lemma do_search_lines_witness :
  hits_idx (hits (do_search (psalm_search (lit "the")))) =
  firstn MAX_SEARCH_RESULTS
         (matching_ids 0 (firstn (verse_count (psalm_search (lit "the"))) psalm_lines)
                       (lit "the")) /\
  hits_idx (hits (do_search (psalm_search (lit "the")))) = [0%Z; 3%Z].
Proof.
  split; [|vm_compute; reflexivity].
  apply (do_search_lines (psalm_search (lit "the")) (mkFile psalm_file [])
           psalm_lines).
  - vm_compute. reflexivity.
  - reflexivity.
  - exact psalm_lines_whole.
  - vm_compute. discriminate.
Defined.

Lemma matching_ids_In (ls : list (list ascii)) (q : list ascii) :
  forall vn id,
    In id (matching_ids vn ls q) <->
    exists i l, id = (vn + Z.of_nat i)%Z /\ nth_error ls i = Some l /\
                icontains l q = true.
Proof.
  induction ls as [|l0 ls IH]; intros vn id.
  - cbn [matching_ids]. split; [intros []|].
    intros (i & l & _ & N & _). destruct i; discriminate.
  - cbn [matching_ids]. split.
    + intros I.
      assert (T : (icontains l0 q = true /\ id = vn) \/
                  In id (matching_ids (vn + 1) ls q)).
      { destruct (icontains l0 q); [|right; exact I].
        destruct I as [<-|I]; [left; split; reflexivity | right; exact I]. }
      destruct T as [[M ->]|T].
      * exists 0, l0. repeat split; [lia | assumption].
      * apply IH in T. destruct T as (i & l & -> & N & M).
        exists (S i), l. repeat split; [lia | assumption | assumption].
    + intros (i & l & -> & N & M). destruct i as [|i].
      * injection N as ->. rewrite M. left. lia.
      * cbn [nth_error] in N.
        assert (T : In (vn + Z.of_nat (S i))%Z (matching_ids (vn + 1) ls q)).
        { apply IH. exists i, l. repeat split; [lia | assumption | assumption]. }
        destruct (icontains l0 q); [right|]; exact T.
Qed.

Lemma firstn_In_or_full {A : Type} (k : nat) (l : list A) (x : A) :
  In x l -> In x (firstn k l) \/ length (firstn k l) = k.
Proof.
  intros I. destruct (Nat.le_gt_cases k (length l)) as [L|L].
  - right. apply firstn_length_le. assumption.
  - left. rewrite firstn_all2 by lia. assumption.
Qed.

Lemma firstn_In {A : Type} (k : nat) (l : list A) (x : A) :
  In x (firstn k l) -> In x l.
Proof.
  intros I. rewrite <- (firstn_skipn k l). apply in_or_app. left. exact I.
Qed.

(** X15.  Index and search agree on a corpus of whole lines that all
    hold a delimiter: after [build_index], every hit of a search names a
    line that contains the query, and the index entry of that number
    points at that very line.  A line that contains the query and is
    indexed is among the hits unless the 50 places are taken. *)
Theorem search_hits_are_indexed (app : App) (f : File) (ls : list (list ascii))
        (q : list ascii) :
  vfile app = Some f -> contents f = corpus_of_lines ls ->
  Forall whole_line ls ->
  Forall (fun l => In PIPE (c_str l)) ls ->
  (Z.of_nat (length (contents f)) < 2 ^ 32)%Z ->
  c_str q <> [] ->
  let found := do_search (set_search (snd (build_index app)) q) in
  Forall (fun id =>
            exists i l vi,
              id = Z.of_nat i /\ nth_error ls i = Some l /\
              icontains l q = true /\
              nth_error (index found) i = Some vi /\
              offset vi = line_start ls i)
         (hits_idx (hits found)) /\
  (forall i l,
     i < MAX_VERSES -> nth_error ls i = Some l -> icontains l q = true ->
     In (Z.of_nat i) (hits_idx (hits found)) \/
     length (hits_idx (hits found)) = MAX_SEARCH_RESULTS).
Proof.
  intros V C W P B Q.
  destruct (build_index_entry app f ls V C W P B) as (Hc & Hn).
  destruct (build_index_lines app f ls V C W P B) as [rest E].
  cbv zeta in *.
  assert (Ix : forall a, index (do_search a) = index a).
  { intros a. unfold do_search, set_hits. cbn [search_len vfile].
    destruct (search_len a =? 0)%Z; [reflexivity|].
    destruct (vfile a); [|reflexivity].
    destruct (search_loop _ _ _ _ _ _) as [[? ?]|]; reflexivity. }
  assert (H : hits_idx (hits (do_search (set_search (snd (build_index app)) q))) =
              firstn MAX_SEARCH_RESULTS
                (matching_ids 0 (firstn (Nat.min (length ls) MAX_VERSES) ls) q)).
  { rewrite <- Hc.
    apply (do_search_matching (set_search (snd (build_index app)) q)
             (mkFile (contents f) rest) ls).
    - rewrite E. reflexivity.
    - exact C.
    - exact W.
    - unfold set_search. cbn [search_len].
      destruct (c_str q); [contradiction | cbn [length]; lia]. }
  rewrite H, Ix. unfold set_search at 1. cbn [index]. split.
  - apply Forall_forall. intros id I. apply firstn_In in I.
    apply matching_ids_In in I. destruct I as (i & l & -> & N & M).
    assert (Li : i < Nat.min (length ls) MAX_VERSES).
    { destruct (Nat.lt_ge_cases i (Nat.min (length ls) MAX_VERSES)) as [L|L];
        [assumption|].
      rewrite nth_error_firstn in N. apply Nat.ltb_ge in L. rewrite L in N.
      discriminate. }
    rewrite nth_error_take in N by assumption.
    destruct (Hn i l ltac:(lia) N) as (p & _ & N1).
    eexists i, l, _. split; [reflexivity|]. split; [assumption|].
    split; [assumption|]. split; [exact N1 | reflexivity].
  - intros i l Li N M. apply firstn_In_or_full.
    apply matching_ids_In. exists i, l.
    assert (Lt : i < length ls) by (apply nth_error_Some; congruence).
    repeat split; [|assumption].
    rewrite nth_error_take by lia. assumption.
Qed.

Lemma search_hits_are_indexed_witness :
  let found := do_search (set_search (snd (build_index (app_with_corpus psalm_file)))
                                     (lit "the")) in
  In 3%Z (hits_idx (hits found)) \/
  length (hits_idx (hits found)) = MAX_SEARCH_RESULTS.
Proof.
  exact (proj2 (search_hits_are_indexed (app_with_corpus psalm_file)
                  (open_file psalm_file) psalm_lines (lit "the") eq_refl eq_refl
                  psalm_lines_whole psalm_lines_delimited
                  ltac:(vm_compute; reflexivity) ltac:(discriminate))
               3 (lit "Ps 23:4|Psalms|Yea, though I walk through the valley")
               ltac:(unfold MAX_VERSES; lia) eq_refl
               ltac:(vm_compute; reflexivity)).
Defined.

(* ================================================================== *)
(** * The generator and the verse of the day *)
(* ================================================================== *)

Lemma lxor_u32 (a b : Z) :
  (0 <= a < 2 ^ 32)%Z -> (0 <= b < 2 ^ 32)%Z -> (0 <= Z.lxor a b < 2 ^ 32)%Z.
Proof.
  intros A B.
  assert (N : (0 <= Z.lxor a b)%Z) by (apply Z.lxor_nonneg; lia).
  split; [assumption|].
  destruct (Z.eq_dec (Z.lxor a b) 0) as [E|E]; [rewrite E; lia|].
  apply Z.log2_lt_pow2; [lia|].
  eapply Z.le_lt_trans; [apply Z.log2_lxor; lia|].
  apply Z.max_lub_lt.
  - destruct (Z.eq_dec a 0) as [->|Na]; [cbn; lia|].
    apply Z.log2_lt_pow2; lia.
  - destruct (Z.eq_dec b 0) as [->|Nb]; [cbn; lia|].
    apply Z.log2_lt_pow2; lia.
Qed.

Lemma u32_range (z : Z) : (0 <= u32 z < 2 ^ 32)%Z.
Proof. unfold u32. apply Z.mod_pos_bound. lia. Qed.

Lemma shiftr_u32 (x k : Z) :
  (0 <= x < 2 ^ 32)%Z -> (0 <= k)%Z -> (0 <= Z.shiftr x k < 2 ^ 32)%Z.
Proof.
  intros X K. rewrite Z.shiftr_div_pow2 by assumption.
  assert (0 < 2 ^ k)%Z by (apply Z.pow_pos_nonneg; lia).
  split; [apply Z.div_pos; lia|].
  apply Z.div_lt_upper_bound; [assumption|]. nia.
Qed.

(** [x ^ (x << k)] vanishes for [x = 0] only: [2^k - 1] is odd. *)
Lemma xorshift_left_zero (x k : Z) :
  (0 <= x < 2 ^ 32)%Z -> (0 < k)%Z -> Z.gcd (2 ^ 32) (2 ^ k - 1) = 1%Z ->
  Z.lxor x (u32 (Z.shiftl x k)) = 0%Z -> x = 0%Z.
Proof.
  intros X K G E. apply Z.lxor_eq in E.
  unfold u32 in E. rewrite Z.shiftl_mul_pow2 in E by lia.
  assert (D : (2 ^ 32 | (2 ^ k - 1) * x)%Z).
  { exists ((x * 2 ^ k) / 2 ^ 32)%Z.
    pose proof (Z.div_mod (x * 2 ^ k) (2 ^ 32) ltac:(lia)) as DM.
    rewrite <- E in DM. lia. }
  apply Z.gauss in D; [|assumption].
  destruct D as [q Q]. destruct (Z.eq_dec q 0) as [->|Nq]; [lia|].
  exfalso. nia.
Qed.

Lemma xorshift_right_zero (x k : Z) :
  (0 <= x < 2 ^ 32)%Z -> (0 < k)%Z ->
  Z.lxor x (Z.shiftr x k) = 0%Z -> x = 0%Z.
Proof.
  intros X K E. apply Z.lxor_eq in E.
  rewrite Z.shiftr_div_pow2 in E by lia.
  destruct (Z.eq_dec x 0) as [|N]; [assumption|exfalso].
  assert (P : (2 <= 2 ^ k)%Z).
  { change 2%Z with (2 ^ 1)%Z at 1. apply Z.pow_le_mono_r; lia. }
  assert (L : (x / 2 ^ k < x)%Z) by (apply Z.div_lt; lia).
  lia.
Qed.

Lemma rng_next_range (s : Z) :
  (0 <= s < 2 ^ 32)%Z -> (0 <= rng_next s < 2 ^ 32)%Z.
Proof.
  intros S. unfold rng_next.
  apply lxor_u32; [|apply u32_range].
  apply lxor_u32; [|apply shiftr_u32; [|lia]];
    apply lxor_u32; solve [assumption | apply u32_range].
Qed.

(** X16.  [rng_next] stays within 32 bits and returns 0 for the state 0
    only: a generator that is not 0 never becomes 0, one that is 0
    stays 0 for ever. *)
Theorem rng_next_zero (s : Z) :
  (0 <= s < 2 ^ 32)%Z ->
  (0 <= rng_next s < 2 ^ 32)%Z /\ (rng_next s = 0%Z <-> s = 0%Z).
Proof.
  intros S. split; [apply rng_next_range; assumption|].
  unfold rng_next.
  set (x1 := Z.lxor s (u32 (Z.shiftl s 13))).
  set (x2 := Z.lxor x1 (Z.shiftr x1 17)).
  assert (R1 : (0 <= x1 < 2 ^ 32)%Z)
    by (apply lxor_u32; [assumption | apply u32_range]).
  assert (R2 : (0 <= x2 < 2 ^ 32)%Z)
    by (apply lxor_u32; [assumption | apply shiftr_u32; [assumption | lia]]).
  split.
  - intros E.
    apply (xorshift_left_zero x2 5 R2 ltac:(lia) eq_refl) in E.
    apply (xorshift_right_zero x1 17 R1 ltac:(lia)) in E.
    apply (xorshift_left_zero s 13 S ltac:(lia) eq_refl) in E.
    exact E.
  - intros ->. reflexivity.
Qed.

Lemma rng_next_zero_witness :
  (0 <= rng_next 2463534242 < 2 ^ 32)%Z /\
  (rng_next 2463534242 = 0%Z <-> 2463534242%Z = 0%Z).
Proof.
  apply rng_next_zero. lia.
Defined.

Lemma random_verse_range (rng vcount : Z) :
  (0 < vcount)%Z -> (0 <= rng < 2 ^ 32)%Z ->
  (0 <= fst (random_verse rng vcount) < vcount)%Z /\
  (0 <= snd (random_verse rng vcount) < 2 ^ 32)%Z.
Proof.
  intros V R. unfold random_verse. cbn [fst snd].
  pose proof (rng_next_range rng R) as X.
  split; [|assumption].
  pose proof (Z.mod_pos_bound (rng_next rng) vcount V) as M.
  unfold u16.
  pose proof (Z.mod_pos_bound (rng_next rng mod vcount) (2 ^ 16) ltac:(lia)).
  pose proof (Z.mod_le (rng_next rng mod vcount) (2 ^ 16) ltac:(lia) ltac:(lia)).
  lia.
Qed.

Lemma settings_save_fields (app : App) :
  index (settings_save app) = index app /\
  daily_verse_idx (settings_save app) = daily_verse_idx app /\
  daily_verse_day (settings_save app) = daily_verse_day app.
Proof.
  unfold settings_save. destruct (sd_writable (storage app)); repeat split.
Qed.

(** X17.  Verse of the day: with a non-empty index the verse chosen is
    always a verse of the index and the day is the tick count in days;
    asked again on the same day, with whatever generator state, the
    choice stays as it is and nothing is written. *)
Theorem menu_daily_stable (app : App) (rng tick tick' : Z) :
  0 < verse_count app ->
  (0 <= daily_verse_idx app)%Z ->
  (0 <= rng < 2 ^ 32)%Z -> (0 <= tick' < 2 ^ 32)%Z ->
  let app' := fst (menu_daily app rng tick tick') in
  (0 <= daily_verse_idx app' < Z.of_nat (verse_count app'))%Z /\
  daily_verse_day app' = (tick / 86400000)%Z /\
  index app' = index app /\
  forall rng2 tick2 tick2',
    (tick2 / 86400000 = tick / 86400000)%Z ->
    menu_daily app' rng2 tick2 tick2' = (app', rng2).
Proof.
  intros V D R T. cbv zeta.
  assert (Inv : (0 <= daily_verse_idx (fst (menu_daily app rng tick tick'))
                 < Z.of_nat (verse_count (fst (menu_daily app rng tick tick'))))%Z /\
                daily_verse_day (fst (menu_daily app rng tick tick')) =
                  (tick / 86400000)%Z /\
                index (fst (menu_daily app rng tick tick')) = index app).
  { unfold menu_daily. change (1000 * 60 * 60 * 24)%Z with 86400000%Z.
    destruct (negb (tick / 86400000 =? daily_verse_day app)%Z ||
              (Z.of_nat (verse_count app) <=? daily_verse_idx app)%Z) eqn:C.
    - destruct (random_verse_range (Z.lxor rng tick') (Z.of_nat (verse_count app))
                  ltac:(lia) ltac:(apply lxor_u32; assumption)) as [Rv _].
      destruct (random_verse (Z.lxor rng tick') (Z.of_nat (verse_count app)))
        as [v rng'].
      cbn [fst] in *. unfold verse_count in *.
      destruct (settings_save_fields
                  (set_daily_verse_day (set_daily_verse_idx app v)
                     (tick / 86400000))) as (E1 & E2 & E3).
      rewrite E1, E2, E3.
      cbn [set_daily_verse_day set_daily_verse_idx index daily_verse_idx
           daily_verse_day].
      repeat split; lia.
    - apply orb_false_iff in C. destruct C as [C1 C2].
      apply negb_false_iff, Z.eqb_eq in C1. apply Z.leb_gt in C2.
      cbn [fst]. repeat split; lia. }
  destruct Inv as (I1 & I2 & I3).
  repeat split; try assumption; try lia.
  intros rng2 tick2 tick2' Same. unfold menu_daily at 1.
  change (1000 * 60 * 60 * 24)%Z with 86400000%Z.
  rewrite Same, I2, Z.eqb_refl.
  destruct (Z.leb_spec (Z.of_nat (verse_count (fst (menu_daily app rng tick tick'))))
              (daily_verse_idx (fst (menu_daily app rng tick tick')))); [lia|].
  reflexivity.
Qed.

Lemma menu_daily_stable_witness :
  let app := snd (build_index (app_with_corpus psalm_file)) in
  let app' := fst (menu_daily app 2463534242 90000000 90000001) in
  (0 <= daily_verse_idx app' < Z.of_nat (verse_count app'))%Z /\
  daily_verse_day app' = (90000000 / 86400000)%Z.
Proof.
  pose proof (menu_daily_stable (snd (build_index (app_with_corpus psalm_file)))
                2463534242 90000000 90000001
                ltac:(vm_compute; lia) ltac:(vm_compute; discriminate)
                ltac:(lia) ltac:(lia)) as (H1 & H2 & _).
  split; [exact H1 | exact H2].
Defined.

(* ================================================================== *)
(** * Bible API: query and URL *)
(* ================================================================== *)

Lemma url_encode_loop_map (src : list ascii) :
  forall room,
    url_encode_loop src room = map plus_for_space (firstn room (c_str src)).
Proof.
  induction src as [|c src IH]; intros room.
  - cbn. rewrite firstn_nil. reflexivity.
  - cbn [url_encode_loop c_str]. destruct (Ascii.eqb c NUL).
    + rewrite firstn_nil. reflexivity.
    + destruct room as [|room]; [reflexivity|].
      cbn [firstn map]. rewrite IH. reflexivity.
Qed.

Lemma plus_for_space_clean (l : list ascii) :
  Forall (fun c => c <> NUL) l ->
  Forall (fun c => c <> SPC /\ c <> NUL) (map plus_for_space l).
Proof.
  intros N. apply Forall_map.
  eapply Forall_impl; [|exact N]. cbn beta.
  intros c Nc. unfold plus_for_space.
  destruct (Ascii.eqb c SPC) eqn:E; [split; discriminate|].
  apply Ascii.eqb_neq in E. split; assumption.
Qed.

Lemma no_space_ok (l : list ascii) :
  forallb (fun c => negb (Ascii.eqb c SPC)) l = true ->
  Forall (fun c => c <> SPC) l.
Proof.
  intros H. apply Forall_forall. intros c I.
  rewrite forallb_forall in H. specialize (H c I).
  apply negb_true_iff, Ascii.eqb_neq in H. assumption.
Qed.

(** X18.  Into a buffer of at least one byte, [api_url_encode] copies
    the C string up to [dst_sz - 1] characters, a plus sign standing for
    every space and every other character unchanged; its result fits the
    buffer with its NUL and holds no space and no NUL.  (A size of 0 is
    outside the statement: [dst_sz - 1] is then [SIZE_MAX] in the source,
    and the copy leaves the buffer.) *)
Theorem api_url_encode_spec (src : list ascii) (dst_sz : nat) :
  1 <= dst_sz ->
  let out := api_url_encode src dst_sz in
  out = map plus_for_space (firstn (dst_sz - 1) (c_str src)) /\
  length out = Nat.min (dst_sz - 1) (length (c_str src)) /\
  length out < dst_sz /\
  Forall (fun c => c <> SPC /\ c <> NUL) out /\
  (Forall (fun c => c <> SPC) (c_str src) -> length (c_str src) < dst_sz ->
   out = c_str src).
Proof.
  intros Hsz. cbv zeta. unfold api_url_encode. rewrite url_encode_loop_map.
  split; [reflexivity|]. split; [rewrite length_map; apply length_firstn|].
  split; [rewrite length_map, length_firstn; lia|].
  split.
  - apply plus_for_space_clean, Forall_take, c_str_no_nul.
  - intros NS L. rewrite firstn_all2 by lia.
    induction (c_str src) as [|c s IH]; [reflexivity|].
    inversion NS as [|? ? N NS']; subst. cbn [map]. unfold plus_for_space at 1.
    apply Ascii.eqb_neq in N. rewrite N. f_equal.
    apply IH; [assumption | cbn [length] in L; lia].
Qed.

Lemma api_url_encode_spec_witness :
  api_url_encode (lit "1 John 4:8") 8 = lit "1+John+" /\
  api_url_encode (lit "1 John 4:8") 96 = lit "1+John+4:8".
Proof.
  destruct (api_url_encode_spec (lit "1 John 4:8") 8 ltac:(lia)) as [E8 _].
  destruct (api_url_encode_spec (lit "1 John 4:8") 96 ltac:(lia)) as [E96 _].
  split; [exact E8 | exact E96].
Defined.

Lemma name_table_ok_true : name_table_ok = true.
Proof. vm_compute. reflexivity. Qed.

Lemma book_name_short (book : Z) :
  (0 <= book < 66)%Z ->
  let b := nth (Z.to_nat book) BIBLE_BOOKS (mkBook [] 0) in
  length (name b) <= 15 /\ c_str (name b) = name b /\ (chapters b <= 150)%Z.
Proof.
  intros B. cbv zeta.
  pose proof name_table_ok_true as T. unfold name_table_ok in T.
  apply andb_true_iff in T. destruct T as [T _].
  apply andb_true_iff in T. destruct T as [T _].
  rewrite forallb_forall in T.
  specialize (T (nth (Z.to_nat book) BIBLE_BOOKS (mkBook [] 0))
                ltac:(apply nth_In; change (length BIBLE_BOOKS) with 66; lia)).
  apply andb_true_iff in T. destruct T as [T T3].
  apply andb_true_iff in T. destruct T as [T1 T2].
  apply Nat.leb_le in T1. apply Z.leb_le in T3.
  split; [assumption|]. split; [|assumption].
  apply c_str_fixed. apply Forall_forall. intros c I.
  rewrite forallb_forall in T2. specialize (T2 c I).
  apply negb_true_iff, Ascii.eqb_neq in T2. assumption.
Qed.

Lemma trans_code_short (sel : Z) :
  (0 <= sel < 9)%Z ->
  let code := nth (Z.to_nat sel) API_TRANSLATIONS [] in
  length code <= 6 /\ c_str code = code /\ Forall (fun c => c <> SPC) code.
Proof.
  intros B. cbv zeta.
  pose proof name_table_ok_true as T. unfold name_table_ok in T.
  apply andb_true_iff in T. destruct T as [T _].
  apply andb_true_iff in T. destruct T as [_ T].
  rewrite forallb_forall in T.
  specialize (T (nth (Z.to_nat sel) API_TRANSLATIONS [])
                ltac:(apply nth_In; change (length API_TRANSLATIONS) with 9; lia)).
  apply andb_true_iff in T. destruct T as [T1 T2].
  apply Nat.leb_le in T1. rewrite forallb_forall in T2.
  split; [assumption|]. split.
  - apply c_str_fixed. apply Forall_forall. intros c I. specialize (T2 c I).
    apply andb_true_iff in T2. destruct T2 as [T2 _].
    apply negb_true_iff, Ascii.eqb_neq in T2. assumption.
  - apply Forall_forall. intros c I. specialize (T2 c I).
    apply andb_true_iff in T2. destruct T2 as [_ T2].
    apply negb_true_iff, Ascii.eqb_neq in T2. assumption.
Qed.

Lemma verse_count_small (book chapter : Z) :
  (book_chapter_verses book chapter <= 176)%Z.
Proof.
  unfold book_chapter_verses.
  pose proof name_table_ok_true as T. unfold name_table_ok in T.
  apply andb_true_iff in T. destruct T as [_ T].
  rewrite forallb_forall in T.
  set (k := Z.to_nat (nth (Z.to_nat book) VERSE_COUNT_OFFSET 0%Z + chapter - 1)).
  destruct (nth_in_or_default k VERSE_COUNTS 0%Z) as [I|E].
  - apply Z.leb_le. apply T. assumption.
  - rewrite E. lia.
Qed.

Lemma utoa_small (n : Z) :
  (0 <= n < 1000)%Z ->
  length (utoa n) <= 3 /\
  Forall (fun c => c <> SPC /\ c <> NUL) (utoa n) /\
  map plus_for_space (utoa n) = utoa n.
Proof.
  intros R.
  destruct (utoa_spec n ltac:(lia)) as (D & _ & _ & _).
  assert (P : Forall (fun c => c <> SPC /\ c <> NUL) (utoa n)).
  { eapply Forall_impl; [|exact D]. cbn beta. intros c Dc.
    destruct (is_digit_plain c Dc) as (N & _ & _ & S & _).
    split; [|assumption]. intros ->. discriminate. }
  split; [|split; [assumption|]].
  - unfold utoa, u32. rewrite Z.mod_small by lia.
    apply utoa_loop_length; [|lia]. change (10 ^ Z.of_nat 3)%Z with 1000%Z. lia.
  - induction (utoa n) as [|c s IH]; [reflexivity|].
    inversion P as [|? ? [N _] P']; subst. inversion D; subst.
    cbn [map]. unfold plus_for_space at 1. apply Ascii.eqb_neq in N.
    rewrite N. f_equal. apply IH; assumption.
Qed.

(** X19.  For every verse the picker can name and every translation,
    the quick look-up sends the whole reference: neither the query
    ["Book C:V"] nor the URL built from it is cut short by its buffer,
    and the URL holds no space. *)
Theorem quick_lookup_url (app : App) :
  valid_picker app ->
  (0 <= api_trans_sel app < Z.of_nat API_TRANS_COUNT)%Z ->
  let book := name (nth (Z.to_nat (api_book_sel app)) BIBLE_BOOKS (mkBook [] 0)) in
  let c := utoa (api_chapter_sel app) in
  let v := utoa (api_verse_sel app) in
  api_quick_query app = book ++ SPC :: c ++ ":"%char :: v /\
  api_request_url (api_quick_query app) (api_trans_sel app) =
    API_BASE_URL ++ (map plus_for_space book ++ PLUS :: c ++ ":"%char :: v)
      ++ lit "?translation="
      ++ nth (Z.to_nat (api_trans_sel app)) API_TRANSLATIONS [] /\
  Forall (fun a => a <> SPC)
         (api_request_url (api_quick_query app) (api_trans_sel app)).
Proof.
  intros (B & C & V) T. cbv zeta.
  change (Z.of_nat BIBLE_BOOKS_COUNT) with 66%Z in B.
  change (Z.of_nat API_TRANS_COUNT) with 9%Z in T.
  destruct (book_name_short _ B) as (N1 & N2 & N3). cbv zeta in N1, N2, N3.
  destruct (trans_code_short _ T) as (T1 & T2 & T3). cbv zeta in T1, T2, T3.
  fold (book_chapters (api_book_sel app)) in N3.
  pose proof (verse_count_small (api_book_sel app) (api_chapter_sel app)) as V3.
  destruct (utoa_small (api_chapter_sel app) ltac:(lia)) as (C1 & C2 & C3).
  destruct (utoa_small (api_verse_sel app) ltac:(lia)) as (V1 & V2 & V4).
  set (book := name (nth (Z.to_nat (api_book_sel app)) BIBLE_BOOKS (mkBook [] 0))) in *.
  set (c := utoa (api_chapter_sel app)) in *.
  set (v := utoa (api_verse_sel app)) in *.
  set (code := nth (Z.to_nat (api_trans_sel app)) API_TRANSLATIONS []) in *.
  assert (Q : api_quick_query app = book ++ SPC :: c ++ ":"%char :: v).
  { unfold api_quick_query, snprintf_str. fold book c v. rewrite N2.
    apply firstn_all2. rewrite length_app. cbn [length].
    rewrite length_app. cbn [length]. lia. }
  assert (NQ : Forall (fun a => a <> NUL) (book ++ SPC :: c ++ ":"%char :: v)).
  { apply Forall_app. split.
    - rewrite <- N2. apply c_str_no_nul.
    - constructor; [discriminate|]. apply Forall_app. split.
      + eapply Forall_impl; [|exact C2]. cbn beta. tauto.
      + constructor; [discriminate|].
        eapply Forall_impl; [|exact V2]. cbn beta. tauto. }
  assert (E : api_url_encode (book ++ SPC :: c ++ ":"%char :: v) 96 =
              map plus_for_space book ++ PLUS :: c ++ ":"%char :: v).
  { unfold api_url_encode. rewrite url_encode_loop_map, (c_str_fixed _ NQ).
    rewrite firstn_all2.
    - rewrite map_app. cbn [map]. rewrite map_app. cbn [map].
      rewrite C3, V4. reflexivity.
    - rewrite length_app. cbn [length]. rewrite length_app. cbn [length]. lia. }
  assert (U : api_request_url (api_quick_query app) (api_trans_sel app) =
              API_BASE_URL ++ (map plus_for_space book ++ PLUS :: c ++ ":"%char :: v)
                ++ lit "?translation=" ++ code).
  { unfold api_request_url, snprintf_str. fold code. rewrite Q, E, T2.
    apply firstn_all2.
    rewrite !length_app. cbn [length]. rewrite length_map, !length_app.
    cbn [length]. change (length API_BASE_URL) with 22.
    change (length (lit "?translation=")) with 13. lia. }
  split; [exact Q|]. split; [exact U|].
  rewrite U. apply Forall_app. split.
  { apply no_space_ok. reflexivity. }
  apply Forall_app. split.
  { rewrite <- E. unfold api_url_encode. rewrite url_encode_loop_map.
    eapply Forall_impl;
      [|apply plus_for_space_clean, Forall_take, c_str_no_nul].
    cbn beta. tauto. }
  apply Forall_app. split; [|assumption].
  apply no_space_ok. reflexivity.
Qed.

Lemma quick_lookup_url_witness :
  api_quick_query genesis_1_1 = lit "Genesis 1:1" /\
  api_request_url (api_quick_query genesis_1_1) 0 =
    lit "https://bible-api.com/Genesis+1:1?translation=web".
Proof.
  pose proof (quick_lookup_url genesis_1_1 genesis_1_1_valid
                ltac:(vm_compute; split; [discriminate | reflexivity]))
    as (H1 & H2 & _).
  split; [exact H1 | exact H2].
Defined.

(* ================================================================== *)
(** * Bible API: reading a string out of the response *)
(* ================================================================== *)

Lemma starts_with_split (pat : list ascii) :
  forall s, starts_with s pat = true <-> exists rest, s = pat ++ rest.
Proof.
  induction pat as [|b pat IH]; intros s.
  - destruct s; cbn [starts_with]; (split; [intros _; eexists; reflexivity | reflexivity]).
  - destruct s as [|a s]; cbn [starts_with].
    + split; [discriminate | intros [rest E]; discriminate].
    + rewrite andb_true_iff, IH. split.
      * intros [E [rest ->]]. apply Ascii.eqb_eq in E. subst. eexists. reflexivity.
      * intros [rest E]. cbn [List.app] in E. injection E as -> ->.
        split; [apply Ascii.eqb_refl | eexists; reflexivity].
Qed.

Lemma strstr_some (s : list ascii) :
  forall pat m, strstr s pat = Some m ->
           exists pre rest, s = pre ++ m /\ m = pat ++ rest.
Proof.
  induction s as [|a s IH]; intros pat m E.
  - cbn [strstr] in E. destruct (starts_with [] pat) eqn:P; [|discriminate].
    injection E as <-. apply starts_with_split in P. destruct P as [rest P].
    exists [], rest. split; [reflexivity | assumption].
  - cbn [strstr] in E. destruct (starts_with (a :: s) pat) eqn:P.
    + injection E as <-. apply starts_with_split in P. destruct P as [rest P].
      exists [], rest. split; [reflexivity | assumption].
    + destruct (IH pat m E) as (pre & rest & -> & R).
      exists (a :: pre), rest. split; [reflexivity | assumption].
Qed.

Lemma strstr_none (s : list ascii) :
  forall pat, strstr s pat = None <->
         forall pre rest, s <> pre ++ pat ++ rest.
Proof.
  induction s as [|a s IH]; intros pat.
  - cbn [strstr]. destruct (starts_with [] pat) eqn:P.
    + split; [discriminate|]. intros N. exfalso.
      apply starts_with_split in P. destruct P as [rest P].
      apply (N [] rest). exact P.
    + split; [|reflexivity]. intros _ pre rest E.
      destruct pre; [|discriminate]. cbn [List.app] in E.
      assert (X : starts_with [] pat = true)
        by (apply starts_with_split; eexists; exact E).
      congruence.
  - cbn [strstr]. destruct (starts_with (a :: s) pat) eqn:P.
    + split; [discriminate|]. intros N. exfalso.
      apply starts_with_split in P. destruct P as [rest P].
      apply (N [] rest). exact P.
    + rewrite IH. split.
      * intros N pre rest E. destruct pre as [|b pre].
        -- cbn [List.app] in E.
           assert (X : starts_with (a :: s) pat = true)
             by (apply starts_with_split; eexists; exact E).
           congruence.
        -- cbn [List.app] in E. injection E as _ E. exact (N pre rest E).
      * intros N pre rest E. apply (N (a :: pre) rest). rewrite E. reflexivity.
Qed.

Lemma find_last_total (pat : list ascii) (fuel : nat) :
  forall p found,
    pat <> [] -> length p < fuel ->
    exists r, find_last fuel p pat found = Some r.
Proof.
  induction fuel as [|fuel IH]; intros p found N L; [lia|].
  cbn [find_last]. destruct (strstr p pat) as [m|] eqn:E.
  - destruct (strstr_some p pat m E) as (pre & rest & -> & ->).
    apply IH; [assumption|].
    rewrite skipn_app, skipn_all, Nat.sub_diag. cbn [List.app skipn].
    rewrite !length_app in L. destruct pat; [contradiction|].
    cbn [length] in L. lia.
  - eexists. reflexivity.
Qed.

Lemma find_last_sound (pat json : list ascii) (fuel : nat) :
  forall p found r,
    find_last fuel p pat found = Some r ->
    (exists pre, json = pre ++ p) ->
    (forall m, found = Some m -> exists pre, json = pre ++ m /\ m = pat ++ p) ->
    match r with
    | None => found = None /\ strstr p pat = None
    | Some m =>
        exists pre rest,
          json = pre ++ pat ++ rest /\ m = pat ++ rest /\ strstr rest pat = None
    end.
Proof.
  induction fuel as [|fuel IH]; intros p found r E S F; [discriminate|].
  cbn [find_last] in E. destruct (strstr p pat) as [m|] eqn:M.
  - destruct (strstr_some p pat m M) as (pre1 & rest1 & -> & ->).
    destruct S as [pre0 S].
    assert (K : skipn (length pat) (pat ++ rest1) = rest1).
    { rewrite skipn_app, skipn_all, Nat.sub_diag. reflexivity. }
    rewrite K in E.
    specialize (IH rest1 (Some (pat ++ rest1)) r E).
    assert (S' : exists pre, json = pre ++ rest1).
    { exists (pre0 ++ pre1 ++ pat). rewrite S, <- !app_assoc. reflexivity. }
    assert (F' : forall m, Some (pat ++ rest1) = Some m ->
                      exists pre, json = pre ++ m /\ m = pat ++ rest1).
    { intros m [= <-]. exists (pre0 ++ pre1). split; [|reflexivity].
      rewrite S, <- app_assoc. reflexivity. }
    specialize (IH S' F'). destruct r as [m|]; [exact IH|].
    destruct IH as [X _]. discriminate.
  - injection E as <-. destruct found as [m|]; [|split; reflexivity].
    destruct (F m eq_refl) as (pre & J & Em).
    exists pre, p. subst m. repeat split; assumption.
Qed.

Lemma json_pattern_not_nil (key : list ascii) : json_pattern key <> [].
Proof. unfold json_pattern, snprintf_str. cbn. discriminate. Qed.

(** X20.  [json_extract_str] reads the value behind an occurrence of
    the key pattern after which the pattern does not occur again; where
    the pattern does not occur at all, or the buffer has fewer than two
    bytes, it fails. *)
Theorem json_extract_last_occurrence (json key : list ascii) (out_sz : nat) :
  (forall text,
     json_extract_str json key out_sz = Some text ->
     exists pre rest,
       c_str json = pre ++ json_pattern key ++ rest /\
       (forall a b, rest <> a ++ json_pattern key ++ b) /\
       text = json_value rest out_sz) /\
  ((forall a b, c_str json <> a ++ json_pattern key ++ b) ->
   json_extract_str json key out_sz = None) /\
  (out_sz < 2 -> json_extract_str json key out_sz = None).
Proof.
  unfold json_extract_str. split; [|split].
  - intros text E. destruct (out_sz <? 2); [discriminate|].
    destruct (find_last (S (length (c_str json))) (c_str json) (json_pattern key) None)
      as [[found|]|] eqn:F; try discriminate.
    pose proof (find_last_sound (json_pattern key) (c_str json) _ _ _ _ F
                  ltac:(exists []; reflexivity)
                  ltac:(intros m; discriminate)) as (pre & rest & J & -> & N).
    exists pre, rest. split; [assumption|]. split; [apply strstr_none; assumption|].
    rewrite skipn_app, skipn_all, Nat.sub_diag in E. cbn [List.app skipn] in E.
    destruct (0 <? length (json_value rest out_sz)); [|discriminate].
    injection E as <-. reflexivity.
  - intros A. destruct (out_sz <? 2); [reflexivity|].
    apply strstr_none in A. cbn [find_last]. rewrite A. reflexivity.
  - intros L. apply Nat.ltb_lt in L. rewrite L. reflexivity.
Qed.

Lemma unescape_fits (s : list ascii) :
  forall out escaped out_sz,
    length out <= out_sz - 1 ->
    Forall (fun c => c <> NUL) s -> Forall (fun c => c <> NUL) out ->
    length (unescape s out escaped out_sz) <= out_sz - 1 /\
    Forall (fun c => c <> NUL) (unescape s out escaped out_sz).
Proof.
  induction s as [|c s IH]; intros out escaped out_sz L Ns No;
    [split; assumption|].
  inversion Ns as [|? ? Nc Ns']; subst.
  cbn [unescape].
  destruct (length out <? out_sz - 1) eqn:Room; cbn [negb];
    [|split; assumption].
  apply Nat.ltb_lt in Room.
  assert (A1 : forall x, x <> NUL ->
                    length (out ++ [x]) <= out_sz - 1 /\
                    Forall (fun c => c <> NUL) (out ++ [x])).
  { intros x Nx. split; [rewrite length_app; cbn [length]; lia|].
    apply Forall_app. split; [assumption | constructor; [assumption | constructor]]. }
  destruct escaped.
  - destruct (Ascii.eqb c "n" || Ascii.eqb c "r").
    { destruct (A1 SPC ltac:(discriminate)). apply IH; assumption. }
    destruct (Ascii.eqb c QUOTE).
    { destruct (A1 QUOTE ltac:(discriminate)). apply IH; assumption. }
    destruct (Ascii.eqb c BACKSLASH).
    { destruct (A1 BACKSLASH ltac:(discriminate)). apply IH; assumption. }
    destruct (length out <? out_sz - 2) eqn:Two; [|apply IH; assumption].
    apply Nat.ltb_lt in Two. apply IH; try assumption.
    + rewrite length_app. cbn [length]. lia.
    + apply Forall_app. split; [assumption|].
      constructor; [discriminate|]. constructor; [assumption | constructor].
  - destruct (Ascii.eqb c BACKSLASH); [apply IH; assumption|].
    destruct (Ascii.eqb c QUOTE); [split; assumption|].
    destruct (A1 c Nc). apply IH; assumption.
Qed.

Lemma drop_blanks_spec (r : list ascii) :
  length (drop_blanks r) <= length r /\
  (forall c, In c (drop_blanks r) -> In c r) /\
  match drop_blanks r with
  | c :: _ => is_blank c = false
  | [] => True
  end.
Proof.
  induction r as [|c r (I1 & I2 & I3)].
  { cbn [drop_blanks length]. split; [lia|]. split; [intros c I; exact I | exact I]. }
  cbn [drop_blanks]. destruct (is_blank c) eqn:B.
  - split; [cbn [length]; lia|]. split; [|assumption].
    intros x I. right. apply I2. assumption.
  - split; [lia|]. split; [intros x I; exact I | exact B].
Qed.

Lemma trim_end_spec (out : list ascii) :
  length (trim_end out) <= length out /\
  (forall c, In c (trim_end out) -> In c out) /\
  (trim_end out <> [] -> is_blank (last (trim_end out) NUL) = false).
Proof.
  unfold trim_end.
  destruct (drop_blanks_spec (rev out)) as (D1 & D2 & D3).
  rewrite length_rev in *. split; [assumption|]. split.
  - intros c I. apply in_rev in I. apply D2 in I. apply in_rev. assumption.
  - intros _. destruct (drop_blanks (rev out)) as [|c r]; [reflexivity|].
    cbn [rev]. rewrite last_last. assumption.
Qed.

(** X21.  A value [json_extract_str] returns is not empty, fits the
    buffer with its NUL, holds no NUL and does not end in a space, a
    line feed or a carriage return. *)
Theorem json_extract_fits (json key : list ascii) (out_sz : nat) (text : list ascii) :
  json_extract_str json key out_sz = Some text ->
  1 <= length text <= out_sz - 1 /\
  Forall (fun c => c <> NUL) text /\
  is_blank (last text NUL) = false.
Proof.
  unfold json_extract_str. intros E.
  destruct (out_sz <? 2); [discriminate|].
  destruct (find_last (S (length (c_str json))) (c_str json) (json_pattern key) None)
    as [[found|]|] eqn:F; try discriminate.
  pose proof (find_last_sound (json_pattern key) (c_str json) _ _ _ _ F
                ltac:(exists []; reflexivity)
                ltac:(intros m; discriminate)) as (pre & start & J & -> & _).
  rewrite skipn_app, skipn_all, Nat.sub_diag in E. cbn [List.app skipn] in E.
  destruct (0 <? length (json_value start out_sz)) eqn:P; [|discriminate].
  injection E as <-. apply Nat.ltb_lt in P.
  assert (Ns : Forall (fun c => c <> NUL) start).
  { pose proof (c_str_no_nul json) as N. rewrite J in N.
    apply Forall_app in N. destruct N as [_ N].
    apply Forall_app in N. destruct N as [_ N]. exact N. }
  destruct (unescape_fits start [] false out_sz ltac:(cbn [length]; lia) Ns
              (Forall_nil _)) as [U1 U2].
  unfold json_value in *.
  destruct (trim_end_spec (unescape start [] false out_sz)) as (T1 & T2 & T3).
  split; [lia|]. split.
  - apply Forall_forall. intros c I. rewrite Forall_forall in U2.
    apply U2, T2, I.
  - apply T3. intros Z0. rewrite Z0 in P. cbn [length] in P. lia.
Qed.

Lemma text_response_value :
  json_extract_str text_response (lit "text") 512 = Some (lit "In the beginning").
Proof. vm_compute. reflexivity. Qed.

Lemma json_extract_fits_witness :
  1 <= length (lit "In the beginning") <= 512 - 1 /\
  Forall (fun c => c <> NUL) (lit "In the beginning") /\
  is_blank (last (lit "In the beginning") NUL) = false.
Proof.
  exact (json_extract_fits text_response (lit "text") 512 (lit "In the beginning")
           text_response_value).
Defined.

Lemma unescape_plain (v : list ascii) :
  forall out post out_sz,
    Forall (fun c => c <> QUOTE /\ c <> BACKSLASH) v ->
    unescape (v ++ QUOTE :: post) out false out_sz =
    out ++ firstn (out_sz - 1 - length out) v.
Proof.
  induction v as [|c v IH]; intros out post out_sz P.
  - cbn [List.app unescape]. rewrite firstn_nil, app_nil_r.
    destruct (negb (length out <? out_sz - 1)); reflexivity.
  - inversion P as [|? ? [Nq Nb] P']; subst.
    cbn [List.app unescape].
    destruct (length out <? out_sz - 1) eqn:Room; cbn [negb].
    + apply Nat.ltb_lt in Room.
      apply Ascii.eqb_neq in Nq. apply Ascii.eqb_neq in Nb. rewrite Nq, Nb.
      rewrite (IH _ post out_sz P'), <- app_assoc, length_app. cbn [length List.app].
      replace (out_sz - 1 - length out) with (S (out_sz - 1 - (length out + 1)))
        by lia.
      reflexivity.
    + apply Nat.ltb_ge in Room.
      replace (out_sz - 1 - length out) with 0 by lia.
      cbn [firstn]. rewrite app_nil_r. reflexivity.
Qed.

Lemma find_last_once (pat s pre rest : list ascii) :
  pat <> [] ->
  s = pre ++ pat ++ rest ->
  (forall a b, s = a ++ pat ++ b -> a = pre) ->
  find_last (S (length s)) s pat None = Some (Some (pat ++ rest)).
Proof.
  intros N E U.
  assert (F : strstr s pat = Some (pat ++ rest)).
  { destruct (strstr s pat) as [m|] eqn:M.
    - destruct (strstr_some s pat m M) as (pre' & rest' & E1 & E2).
      subst m. pose proof (U pre' rest' E1) as ->.
      rewrite E in E1. apply app_inv_head in E1. congruence.
    - exfalso. rewrite strstr_none in M. exact (M pre rest E). }
  assert (G : strstr rest pat = None).
  { apply strstr_none. intros a b R.
    assert (X : pre ++ pat ++ a = pre).
    { apply (U (pre ++ pat ++ a) b). rewrite E, R, <- !app_assoc. reflexivity. }
    apply (f_equal (@length ascii)) in X. rewrite !length_app in X.
    destruct pat; [contradiction | cbn [length] in X; lia]. }
  cbn [find_last]. rewrite F.
  rewrite skipn_app, skipn_all, Nat.sub_diag. cbn [List.app skipn].
  destruct (length s) as [|n] eqn:L.
  - exfalso. rewrite E, !length_app in L.
    destruct pat; [contradiction | cbn [length] in L; lia].
  - cbn [find_last]. rewrite G. reflexivity.
Qed.

(** X22.  Where the key pattern occurs once in the response and the
    value behind it has no quote and no backslash before its closing
    quote, [json_extract_str] returns that value, cut to the buffer and
    without trailing blanks; it fails if nothing is left of it. *)
Theorem json_extract_plain (json key pre v post : list ascii) (out_sz : nat) :
  2 <= out_sz ->
  c_str json = pre ++ json_pattern key ++ v ++ QUOTE :: post ->
  (forall a b, c_str json = a ++ json_pattern key ++ b -> a = pre) ->
  Forall (fun c => c <> QUOTE /\ c <> BACKSLASH) v ->
  json_extract_str json key out_sz =
  match trim_end (firstn (out_sz - 1) v) with
  | [] => None
  | t => Some t
  end.
Proof.
  intros S E U P. unfold json_extract_str.
  destruct (Nat.ltb_spec out_sz 2) as [L|_]; [lia|].
  rewrite (find_last_once (json_pattern key) (c_str json) pre (v ++ QUOTE :: post)
             (json_pattern_not_nil key) E U).
  rewrite skipn_app, skipn_all, Nat.sub_diag. cbn [List.app skipn].
  unfold json_value. rewrite (unescape_plain v [] post out_sz P).
  cbn [List.app length]. rewrite Nat.sub_0_r.
  destruct (trim_end (firstn (out_sz - 1) v)); reflexivity.
Qed.

Lemma strstr_first (pat : list ascii) (a : list ascii) :
  forall b, exists m,
    strstr (a ++ pat ++ b) pat = Some m /\ length (pat ++ b) <= length m.
Proof.
  induction a as [|c a IH]; intros b.
  - cbn [List.app].
    assert (P : starts_with (pat ++ b) pat = true)
      by (apply starts_with_split; eexists; reflexivity).
    exists (pat ++ b). split; [|lia].
    destruct (pat ++ b) as [|x l] eqn:E; cbn [strstr]; rewrite P; reflexivity.
  - cbn [List.app strstr].
    destruct (starts_with (c :: a ++ pat ++ b) pat).
    + eexists. split; [reflexivity|]. cbn [length]. rewrite !length_app. lia.
    + apply IH.
Qed.

Lemma occurs_once_check (s pat pre rest : list ascii) :
  pat <> [] ->
  s = pre ++ pat ++ rest ->
  strstr s pat = Some (pat ++ rest) ->
  strstr (skipn 1 (pat ++ rest)) pat = None ->
  forall a b, s = a ++ pat ++ b -> a = pre.
Proof.
  intros N E F G a b Ea.
  assert (Len : length pre + length rest = length a + length b).
  { pose proof (f_equal (@length ascii) E) as L1.
    pose proof (f_equal (@length ascii) Ea) as L2.
    rewrite !length_app in L1, L2. lia. }
  rewrite E in Ea. apply app_eq_app in Ea. destruct Ea as [l [[E1 E2]|[E1 E2]]].
  - (* pre = a ++ l *)
    destruct (strstr_first pat a b) as (m & M & Lm).
    assert (S0 : s = a ++ pat ++ b).
    { rewrite E, E1, <- app_assoc, E2. reflexivity. }
    rewrite <- S0, F in M. injection M as <-.
    destruct l as [|c l]; [rewrite app_nil_r in E1; congruence|].
    exfalso. rewrite E1, !length_app in *. cbn [length] in *. lia.
  - (* a = pre ++ l *)
    destruct l as [|c l]; [rewrite app_nil_r in E1; assumption|].
    exfalso. rewrite E2 in G. cbn [List.app skipn] in G.
    rewrite strstr_none in G. exact (G l b eq_refl).
Qed.

Lemma json_extract_plain_witness :
  json_extract_str text_response (lit "text") 512 =
  match trim_end (firstn (512 - 1) (lit "In the beginning  ")) with
  | [] => None
  | t => Some t
  end.
Proof.
  apply (json_extract_plain text_response (lit "text") (lit "{")
           (lit "In the beginning  ") (lit "}") 512).
  - lia.
  - reflexivity.
  - apply (occurs_once_check _ _ (lit "{")
             (lit "In the beginning  " ++ QUOTE :: lit "}")).
    + apply json_pattern_not_nil.
    + reflexivity.
    + vm_compute. reflexivity.
    + vm_compute. reflexivity.
  - repeat (apply Forall_cons; [split; discriminate|]). apply Forall_nil.
Defined.

(* ================================================================== *)
(** * The keyboard: typing, deleting, suggesting, moving *)
(* ================================================================== *)

Lemma kb_pages_ok_true : kb_pages_ok = true.
Proof. vm_compute. reflexivity. Qed.

Lemma kb_key_one_character (page : Z) (caps : bool) (row col : nat) :
  row < 3 -> col < 13 -> one_character (kb_key_bytes page caps row col) = true.
Proof.
  intros R C.
  assert (P : exists page', In page' [0; 1; 2]%Z /\
                            kb_key_bytes page caps row col =
                            kb_key_bytes page' caps row col).
  { unfold kb_key_bytes.
    destruct (page =? 0)%Z eqn:P0.
    - exists 0%Z. split; [left; reflexivity | reflexivity].
    - destruct (page =? 1)%Z eqn:P1.
      + exists 1%Z. split; [right; left; reflexivity | reflexivity].
      + exists 2%Z. split; [right; right; left; reflexivity | reflexivity]. }
  destruct P as (page' & Ip & ->).
  pose proof kb_pages_ok_true as T. unfold kb_pages_ok in T.
  rewrite forallb_forall in T. specialize (T page' Ip).
  rewrite forallb_forall in T.
  specialize (T caps ltac:(destruct caps; [right; left|left]; reflexivity)).
  rewrite forallb_forall in T.
  specialize (T row ltac:(apply in_seq; lia)).
  rewrite forallb_forall in T.
  exact (T col ltac:(apply in_seq; lia)).
Qed.

Lemma drop_continuation_app (conts rest : list ascii) (lead : ascii) :
  forallb is_continuation conts = true -> is_continuation lead = false ->
  drop_continuation (rev conts ++ lead :: rest) = lead :: rest.
Proof.
  intros C L.
  assert (R : forallb is_continuation (rev conts) = true).
  { rewrite forallb_forall in *. intros x I. apply C, in_rev, I. }
  clear C. induction (rev conts) as [|c r IH].
  - cbn [List.app drop_continuation]. rewrite L. reflexivity.
  - cbn [forallb] in R. apply andb_true_iff in R. destruct R as [R1 R2].
    cbn [List.app drop_continuation]. rewrite R1. apply IH. assumption.
Qed.

Lemma typed_all (app : App) :
  search_len app = Z.of_nat (length (search_buf app)) ->
  typed app = search_buf app.
Proof.
  intros E. unfold typed. rewrite E, Nat2Z.id. apply firstn_all.
Qed.

(** X23.  Back-space takes back a key press: after any key of the three
    keyboard pages has added its bytes to the buffer, be it one byte or
    a UTF-8 sequence of two or three, [search_buf_backspace] leaves the
    buffer and its length as they were before the key. *)
Theorem backspace_undoes_key (app : App) (page : Z) (caps : bool) (row col : nat) :
  row < 3 -> col < 13 ->
  search_len app = Z.of_nat (length (search_buf app)) ->
  let app' := type_key app (kb_key_bytes page caps row col) in
  app' = app \/
  (search_buf app' = search_buf app ++ kb_key_bytes page caps row col /\
   search_len app' = Z.of_nat (length (search_buf app')) /\
   search_buf_backspace app' = app).
Proof.
  intros R C L. cbv zeta.
  pose proof (kb_key_one_character page caps row col R C) as O.
  destruct (kb_key_bytes page caps row col) as [|lead conts]; [left; reflexivity|].
  cbn [one_character] in O. apply andb_true_iff in O. destruct O as [O1 O2].
  apply negb_true_iff in O1.
  unfold type_key.
  destruct (negb (Ascii.eqb lead SPC) &&
            (search_len app + Z.of_nat (length (lead :: conts))
             <? Z.of_nat MAX_SEARCH_LEN - 1)%Z); [right | left; reflexivity].
  rewrite (typed_all app L).
  set (app' := set_search_buf app (search_buf app ++ lead :: conts)
                 (search_len app + Z.of_nat (length (lead :: conts)))).
  assert (L' : search_len app' = Z.of_nat (length (search_buf app'))).
  { unfold app'. cbn [set_search_buf search_len search_buf].
    rewrite length_app, L. lia. }
  split; [reflexivity|]. split; [exact L'|].
  unfold search_buf_backspace. rewrite (typed_all app' L').
  destruct (Z.eqb_spec (search_len app') 0) as [E|_].
  { exfalso. unfold app' in E. cbn [set_search_buf search_len length] in E. lia. }
  unfold app'. cbn [set_search_buf search_buf].
  rewrite rev_app_distr. cbn [rev]. rewrite <- app_assoc. cbn [List.app].
  rewrite (drop_continuation_app conts (rev (search_buf app)) lead O2 O1).
  rewrite rev_involutive, length_rev, <- L.
  unfold set_search_buf. cbn [storage index vfiles vfile_sel vfile hits bmarks
    font_choice daily_verse_idx daily_verse_day api_trans_sel api_menu_sel
    api_menu_scroll api_book_sel api_chapter_sel api_verse_sel].
  destruct app; reflexivity.
Qed.

Lemma backspace_undoes_key_witness :
  let app := set_search (startup_app blank_storage []) (lit "gr") in
  let app' := type_key app (kb_key_bytes 2 false 0 5) in
  app' = app \/
  (search_buf app' = search_buf app ++ kb_key_bytes 2 false 0 5 /\
   search_len app' = Z.of_nat (length (search_buf app')) /\
   search_buf_backspace app' = app).
Proof.
  apply (backspace_undoes_key (set_search (startup_app blank_storage []) (lit "gr"))
           2 false 0 5); [lia | lia | reflexivity].
Defined.

Lemma ci_match_prefix (text : list ascii) :
  forall nm,
    ci_match text nm = true <->
    length text <= length nm /\
    map to_lower (firstn (length text) nm) = map to_lower text.
Proof.
  induction text as [|t text IH]; intros nm.
  - cbn. split; [intros _; split; [lia | reflexivity] | reflexivity].
  - destruct nm as [|n nm]; cbn [ci_match length firstn map].
    + split; [discriminate | intros [L _]; lia].
    + destruct (Ascii.eqb (to_lower t) (to_lower n)) eqn:E.
      * apply Ascii.eqb_eq in E. split.
        -- intros H. apply IH in H. destruct H as [L M].
           split; [lia|]. rewrite E, M. reflexivity.
        -- intros [L M]. injection M as _ M. apply IH. split; [lia | assumption].
      * apply Ascii.eqb_neq in E. split; [discriminate|].
        intros [_ M]. injection M as M _. congruence.
Qed.

Lemma find_first {A : Type} (f : A -> bool) (l : list A) (x : A) :
  find f l = Some x ->
  exists before after,
    l = before ++ x :: after /\ f x = true /\
    Forall (fun y => f y = false) before.
Proof.
  induction l as [|a l IH]; [discriminate|].
  cbn [find]. destruct (f a) eqn:Fa.
  - intros [= <-]. exists [], l. repeat split; [assumption | constructor].
  - intros E. destruct (IH E) as (before & after & -> & Fx & Fb).
    exists (a :: before), after. repeat split; [assumption|].
    constructor; assumption.
Qed.

Lemma nth_last_char (l : list ascii) :
  nth (length l - 1) l NUL = last l NUL.
Proof.
  induction l as [|a l IH]; [reflexivity|].
  destruct l as [|b l]; [reflexivity|].
  replace (length (a :: b :: l) - 1) with (S (length (b :: l) - 1))
    by (cbn [length]; lia).
  exact IH.
Qed.

Lemma book_name_plain (b : BibleBook) :
  In b BIBLE_BOOKS ->
  c_str (name b) = name b /\ firstn 23 (name b) = name b.
Proof.
  intros I.
  pose proof name_table_ok_true as T. unfold name_table_ok in T.
  apply andb_true_iff in T. destruct T as [T _].
  apply andb_true_iff in T. destruct T as [T _].
  rewrite forallb_forall in T. specialize (T b I).
  apply andb_true_iff in T. destruct T as [T _].
  apply andb_true_iff in T. destruct T as [T1 T2].
  apply Nat.leb_le in T1. split; [|apply firstn_all2; lia].
  apply c_str_fixed. apply Forall_forall. intros c Ic.
  rewrite forallb_forall in T2.
  specialize (T2 c Ic). apply negb_true_iff, Ascii.eqb_neq in T2. assumption.
Qed.

Lemma find_at {A : Type} (f : A -> bool) (before after : list A) (x : A) :
  Forall (fun y => f y = false) before -> f x = true ->
  find f (before ++ x :: after) = Some x.
Proof.
  intros Fb Fx. induction Fb as [|y before Fy _ IH]; cbn [List.app find].
  - rewrite Fx. reflexivity.
  - rewrite Fy. exact IH.
Qed.

(** The test of the suggestion loop on a book of the table: its name
    begins with the typed text, up to ASCII case. *)
Lemma suggestion_test (app : App) (b : BibleBook) :
  search_len app = Z.of_nat (length (search_buf app)) ->
  In b BIBLE_BOOKS ->
  negb (Z.of_nat (length (c_str (name b))) <? search_len app)%Z &&
  ci_match (search_buf app) (name b) = true <->
  length (search_buf app) <= length (name b) /\
  map to_lower (firstn (length (search_buf app)) (name b)) =
  map to_lower (search_buf app).
Proof.
  intros L I. destruct (book_name_plain b I) as [P _]. rewrite P, L.
  rewrite andb_true_iff, negb_true_iff, Z.ltb_ge, ci_match_prefix.
  split.
  - intros [_ H]. exact H.
  - intros [H1 H2]. split; [lia|]. split; assumption.
Qed.

(** X24.  While a reference is typed in the verse look-up, the buffer
    not empty and its last byte not a space, the book suggested is the
    first book, in the order of the table, whose name begins with the
    typed text up to ASCII case: whenever some book does, a book is
    suggested, and the one suggested is the first such.  Nothing is
    suggested when no book begins so, outside the verse look-up, for an
    empty buffer, or when the last byte typed is a space. *)
Theorem kb_suggestion_first_match (app : App) (active : bool) :
  search_len app = Z.of_nat (length (search_buf app)) ->
  let text := search_buf app in
  let begins nm :=
    length text <= length nm /\
    map to_lower (firstn (length text) nm) = map to_lower text in
  let s := kb_update_suggestion active app in
  (s <> [] ->
   exists before b after,
     BIBLE_BOOKS = before ++ b :: after /\ s = name b /\ begins (name b) /\
     Forall (fun b' => ~ begins (name b')) before) /\
  (active = false \/ text = [] \/ last text NUL = SPC -> s = []) /\
  (active = true -> text <> [] -> last text NUL <> SPC ->
   forall before b after,
     BIBLE_BOOKS = before ++ b :: after -> begins (name b) ->
     Forall (fun b' => ~ begins (name b')) before ->
     s = name b) /\
  (active = true -> text <> [] -> last text NUL <> SPC ->
   forall b, In b BIBLE_BOOKS -> begins (name b) -> s <> []) /\
  (Forall (fun b => ~ begins (name b)) BIBLE_BOOKS -> s = []).
Proof.
  intros L. cbv zeta. unfold kb_update_suggestion.
  rewrite (typed_all app L).
  replace (Z.to_nat (search_len app - 1)) with (length (search_buf app) - 1) by lia.
  rewrite nth_last_char.
  assert (Hlen : search_buf app <> [] -> (search_len app =? 0)%Z = false).
  { intros N. apply Z.eqb_neq. rewrite L.
    destruct (search_buf app); [contradiction | cbn [length]; lia]. }
  split; [|split; [|split; [|split]]].
  - intros N.
    destruct (negb active); [contradiction|].
    destruct (search_len app =? 0)%Z; [contradiction|].
    destruct (Ascii.eqb (last (search_buf app) NUL) SPC); [contradiction|].
    destruct (find _ BIBLE_BOOKS) as [b|] eqn:F; [|contradiction].
    destruct (find_first _ _ _ F) as (before & after & E & M & Fb).
    exists before, b, after. split; [assumption|].
    destruct (book_name_plain b ltac:(rewrite E; apply in_elt)) as [P1 P2].
    split; [rewrite P1; exact P2|].
    split.
    + apply (suggestion_test app b L); [rewrite E; apply in_elt | exact M].
    + apply Forall_forall. intros b' I' Bg.
      rewrite Forall_forall in Fb. specialize (Fb b' I').
      apply (suggestion_test app b' L) in Bg;
        [congruence | rewrite E; apply in_or_app; left; assumption].
  - intros [->|[E|E]].
    + reflexivity.
    + destruct (negb active); [reflexivity|].
      rewrite L, E. reflexivity.
    + destruct (negb active); [reflexivity|].
      destruct (search_len app =? 0)%Z; [reflexivity|].
      rewrite E. reflexivity.
  - intros -> N Sp before b after E Bg Fb.
    cbn [negb]. rewrite (Hlen N).
    apply Ascii.eqb_neq in Sp. rewrite Sp.
    assert (I : In b BIBLE_BOOKS) by (rewrite E; apply in_elt).
    rewrite E at 1. rewrite find_at.
    + destruct (book_name_plain b I) as [P1 P2]. rewrite P1. exact P2.
    + apply Forall_forall. intros b' I'.
      rewrite Forall_forall in Fb. specialize (Fb b' I').
      destruct (_ && _) eqn:T; [|reflexivity].
      exfalso. apply Fb. apply (suggestion_test app b' L); [|exact T].
      rewrite E. apply in_or_app. left. assumption.
    + apply (suggestion_test app b L); assumption.
  - intros -> N Sp b I Bg.
    cbn [negb]. rewrite (Hlen N).
    apply Ascii.eqb_neq in Sp. rewrite Sp.
    destruct (find _ BIBLE_BOOKS) as [b'|] eqn:F.
    + destruct (find_first _ _ _ F) as (before & after & E & M & _).
      assert (I' : In b' BIBLE_BOOKS) by (rewrite E; apply in_elt).
      destruct (book_name_plain b' I') as [P1 P2]. rewrite P1, P2.
      apply (suggestion_test app b' L I') in M. destruct M as [M _].
      intros Z. rewrite Z in M. cbn [length] in M.
      destruct (search_buf app); [contradiction | cbn [length] in M; lia].
    + exfalso. pose proof (find_none _ _ F _ I) as Fn.
      apply (suggestion_test app b L I) in Bg. congruence.
  - intros No.
    destruct (negb active); [reflexivity|].
    destruct (search_len app =? 0)%Z; [reflexivity|].
    destruct (Ascii.eqb (last (search_buf app) NUL) SPC); [reflexivity|].
    destruct (find _ BIBLE_BOOKS) as [b|] eqn:F; [|reflexivity].
    exfalso. apply find_some in F. destruct F as [I M].
    rewrite Forall_forall in No. apply (No b I).
    apply (suggestion_test app b L I). exact M.
Qed.

Lemma kb_suggestion_first_match_witness :
  kb_update_suggestion true (set_search (startup_app blank_storage []) (lit "jo"))
  = lit "Joshua".
Proof.
  destruct (kb_suggestion_first_match
              (set_search (startup_app blank_storage []) (lit "jo")) true eq_refl)
    as (_ & _ & First & _).
  apply (First eq_refl ltac:(discriminate) ltac:(discriminate)
               (firstn 5 BIBLE_BOOKS) (nth 5 BIBLE_BOOKS (mkBook [] 0))
               (skipn 6 BIBLE_BOOKS)).
  - reflexivity.
  - split; [vm_compute; lia | reflexivity].
  - repeat (apply Forall_cons; [intros [_ H]; discriminate H|]).
    apply Forall_nil.
Defined.

Lemma kb_moves_ok_true : kb_moves_ok = true.
Proof. vm_compute. reflexivity. Qed.

(** X25.  The arrow keys never take the keyboard cursor off the keys:
    from one of the 3 x 13 character keys or one of the five buttons
    below them, Up, Down, Left and Right lead to such a key again, so
    that the key tables are read within their bounds. *)
Theorem kb_move_on_keyboard (row col : Z) (key : InputKey) :
  on_keyboard row col = true ->
  on_keyboard (fst (kb_move row col key)) (snd (kb_move row col key)) = true.
Proof.
  intros O.
  assert (R : In row (map Z.of_nat (seq 0 4)) /\ In col (map Z.of_nat (seq 0 13))).
  { unfold on_keyboard, KB_NROWS, KB_NCOLS in O.
    assert (B : (0 <= row < 4 /\ 0 <= col < 13)%Z).
    { apply orb_true_iff in O. destruct O as [O|O].
      - repeat (apply andb_true_iff in O; destruct O as [O ?]). lia.
      - repeat (apply andb_true_iff in O; destruct O as [O ?]). lia. }
    split; apply in_map_iff.
    - exists (Z.to_nat row). split; [lia | apply in_seq; lia].
    - exists (Z.to_nat col). split; [lia | apply in_seq; lia]. }
  destruct R as [Ir Ic].
  pose proof kb_moves_ok_true as T. unfold kb_moves_ok in T.
  rewrite forallb_forall in T. specialize (T row Ir).
  rewrite forallb_forall in T. specialize (T col Ic).
  rewrite O in T. cbn [negb orb] in T.
  rewrite forallb_forall in T.
  specialize (T key ltac:(destruct key; cbn; tauto)).
  destruct (kb_move row col key) as [r c]. exact T.
Qed.

Lemma kb_move_on_keyboard_witness :
  on_keyboard (fst (kb_move 2 12 InputKeyDown)) (snd (kb_move 2 12 InputKeyDown))
  = true.
Proof.
  apply kb_move_on_keyboard. reflexivity.
Defined.

(* ================================================================== *)
(** * The verse browser and the scroll bar *)
(* ================================================================== *)

Lemma u16_small (z : Z) : (0 <= z < 2 ^ 16)%Z -> u16 z = z.
Proof. intros R. unfold u16. apply Z.mod_small. assumption. Qed.

(** X26.  Browsing keeps the selection inside the index and on screen:
    from a state in which the selected verse exists and is one of the
    five rows shown, each arrow key leads to such a state again; the
    state in which the browser opens is one. *)
Theorem on_browse_keeps_selection (total : Z) (b : Browse) (key : InputKey) :
  (0 < total < 2 ^ 16)%Z ->
  browse_ok total b ->
  browse_ok total (on_browse total b key) /\ browse_ok total (mkBrowse 0 0).
Proof.
  intros T (B1 & B2 & B3 & B4). unfold browse_ok, VISIBLE_LINES in *.
  split; [|cbn [browse_sel browse_scroll]; lia].
  destruct b as [sel scroll]. cbn [browse_sel browse_scroll] in *.
  destruct key; unfold on_browse, VISIBLE_LINES; cbn [browse_sel browse_scroll].
  - destruct (Z.ltb_spec 0 sel); cbn [browse_sel browse_scroll]; [|lia].
    rewrite (u16_small (sel - 1)) by lia.
    destruct (Z.ltb_spec (sel - 1) scroll); lia.
  - destruct (Z.ltb_spec sel (total - 1)); cbn [browse_sel browse_scroll]; [|lia].
    rewrite (u16_small (sel + 1)) by lia.
    destruct (Z.leb_spec (scroll + 5) (sel + 1)); [|lia].
    rewrite u16_small by lia. lia.
  - destruct (Z.ltb_spec 5 sel).
    + rewrite (u16_small (sel - 5)) by lia.
      destruct (Z.ltb_spec (sel - 5) scroll); lia.
    + destruct (Z.ltb_spec 0 scroll); lia.
  - destruct (Z.ltb_spec (sel + 5) total).
    + rewrite (u16_small (sel + 5)) by lia.
      destruct (Z.leb_spec (scroll + 5) (sel + 5)); [|lia].
      rewrite u16_small by lia. lia.
    + rewrite (u16_small (total - 1)) by lia.
      destruct (Z.leb_spec (scroll + 5) (total - 1)); [|lia].
      rewrite u16_small by lia. lia.
Qed.

Lemma on_browse_keeps_selection_witness :
  browse_ok 600 (on_browse 600 (mkBrowse 0 0) InputKeyRight) /\
  browse_ok 600 (mkBrowse 0 0).
Proof.
  apply on_browse_keeps_selection; [lia|].
  unfold browse_ok, VISIBLE_LINES. cbn [browse_sel browse_scroll]. lia.
Defined.

Lemma scrollbar_thumb_bounds (pos total vis : Z) :
  (0 < vis < 2 ^ 8)%Z -> (vis < total < 2 ^ 16)%Z ->
  (0 <= pos <= total - vis)%Z ->
  exists ty th,
    scrollbar_thumb pos total vis = Some (ty, th) /\
    (3 <= th)%Z /\ (HDR_H + 1 <= ty)%Z /\ (ty + th <= SCREEN_H - 1)%Z.
Proof.
  intros V T P. unfold scrollbar_thumb, SCREEN_H, HDR_H.
  destruct (Z.leb_spec total vis); [lia|].
  change (u8 (64 - 12 - 2)) with 50%Z.
  assert (H1 : (0 <= 50 * vis / total < 50)%Z).
  { split; [apply Z.div_pos; lia|]. apply Z.div_lt_upper_bound; lia. }
  assert (E1 : u8 (50 * vis / total) = (50 * vis / total)%Z).
  { unfold u8. apply Z.mod_small. lia. }
  rewrite E1.
  set (th := if (50 * vis / total <? 3)%Z then 3%Z else (50 * vis / total)%Z).
  assert (Th : (3 <= th < 50)%Z).
  { unfold th. destruct (Z.ltb_spec (50 * vis / total) 3); lia. }
  assert (H2 : (0 <= (50 - th) * pos < 2 ^ 32)%Z) by nia.
  assert (E2 : u32 ((50 - th) * pos) = ((50 - th) * pos)%Z).
  { unfold u32. apply Z.mod_small. assumption. }
  rewrite E2.
  assert (H3 : (0 <= (50 - th) * pos / (total - vis) <= 50 - th)%Z).
  { split; [apply Z.div_pos; lia|].
    apply Z.div_le_upper_bound; [lia|]. nia. }
  assert (E3 : u8 ((50 - th) * pos / (total - vis)) =
               ((50 - th) * pos / (total - vis))%Z).
  { unfold u8. apply Z.mod_small. lia. }
  rewrite E3.
  assert (E4 : u8 (12 + 1 + (50 - th) * pos / (total - vis)) =
               (12 + 1 + (50 - th) * pos / (total - vis))%Z).
  { unfold u8. apply Z.mod_small. lia. }
  rewrite E4.
  eexists. eexists. split; [reflexivity|]. lia.
Qed.

(** X27.  The scroll bar: nothing is drawn for a list that fits the
    window; for a longer list and a scroll position that is 0 or leaves
    the window inside the list, the thumb is at least 3 pixels high,
    begins at or below the top of the track and ends at or above its
    bottom. *)
Theorem scrollbar_thumb_in_track (pos total vis : Z) :
  (0 < vis < 2 ^ 8)%Z -> (0 <= total < 2 ^ 16)%Z ->
  (0 <= pos)%Z -> (pos = 0 \/ pos + vis <= total)%Z ->
  match scrollbar_thumb pos total vis with
  | None => (total <= vis)%Z
  | Some (ty, th) =>
      (vis < total)%Z /\
      (3 <= th)%Z /\ (HDR_H + 1 <= ty)%Z /\ (ty + th <= SCREEN_H - 1)%Z
  end.
Proof.
  intros V T P0 P1.
  destruct (Z.le_gt_cases total vis) as [Le|Gt].
  - unfold scrollbar_thumb. apply Z.leb_le in Le. rewrite Le.
    apply Z.leb_le. assumption.
  - destruct (scrollbar_thumb_bounds pos total vis V ltac:(lia) ltac:(lia))
      as (ty & th & E & B).
    rewrite E. split; [lia | exact B].
Qed.

Lemma scrollbar_thumb_in_track_witness :
  match scrollbar_thumb 595 600 5 with
  | None => (600 <= 5)%Z
  | Some (ty, th) =>
      (5 < 600)%Z /\
      (3 <= th)%Z /\ (HDR_H + 1 <= ty)%Z /\ (ty + th <= SCREEN_H - 1)%Z
  end.
Proof.
  apply scrollbar_thumb_in_track; lia.
Defined.

(* ================================================================== *)
(** * Finding the corpora and starting up *)
(* ================================================================== *)

Lemma strrchr_absent (s : list ascii) :
  Forall (fun c => c <> SLASH) s -> strrchr s SLASH = None.
Proof.
  induction s as [|a s IH]; intros F; [reflexivity|].
  inversion F as [|? ? Na F']; subst. cbn [strrchr].
  destruct (Ascii.eqb a NUL); [reflexivity|].
  rewrite (IH F'). apply Ascii.eqb_neq in Na. rewrite Na. reflexivity.
Qed.

Lemma strrchr_last (pre fname : list ascii) :
  Forall (fun c => c <> NUL) pre ->
  Forall (fun c => c <> SLASH) fname ->
  strrchr (pre ++ SLASH :: fname) SLASH = Some (length pre).
Proof.
  intros Np Nf. induction pre as [|a pre IH].
  - cbn [List.app strrchr length]. rewrite (strrchr_absent fname Nf).
    reflexivity.
  - inversion Np as [|? ? Na Np']; subst.
    cbn [List.app strrchr length]. apply Ascii.eqb_neq in Na. rewrite Na.
    rewrite (IH Np'). reflexivity.
Qed.

Lemma basename_in_data_dir (fname : list ascii) :
  Forall (fun c => c <> SLASH) fname -> Forall (fun c => c <> NUL) fname ->
  basename (DATA_DIR ++ SLASH :: fname) = fname.
Proof.
  intros Ns Nn. unfold basename.
  rewrite (strrchr_last DATA_DIR fname); [|
    apply Forall_forall; intros c I E; subst c; vm_compute in I;
    repeat (destruct I as [I|I]; [discriminate|]); exact I | assumption].
  replace (S (length DATA_DIR)) with (length (DATA_DIR ++ [SLASH]))
    by (rewrite length_app; cbn [length]; lia).
  replace (DATA_DIR ++ SLASH :: fname) with ((DATA_DIR ++ [SLASH]) ++ fname)
    by (rewrite <- app_assoc; reflexivity).
  rewrite skipn_app, skipn_all, Nat.sub_diag. cbn [List.app skipn].
  apply c_str_fixed. assumption.
Qed.

Lemma listed_name_ok (l fname : list ascii) :
  listed_name fname = true -> length l <= 23 ->
  listed_as (mkVerseFile l (DATA_DIR ++ SLASH :: fname)) fname.
Proof.
  unfold listed_name. intros H Ll.
  apply andb_true_iff in H. destruct H as [H H4].
  apply andb_true_iff in H. destruct H as [H H3].
  apply andb_true_iff in H. destruct H as [H1 H2].
  apply bytes_eqb_eq in H2. apply bytes_eqb_eq in H3. apply Nat.leb_le in H4.
  assert (F : Forall (fun c => c <> SLASH /\ c <> NUL /\ c <> CR /\ c <> LF) fname).
  { apply Forall_forall. intros c I. rewrite forallb_forall in H1.
    specialize (H1 c I).
    apply andb_true_iff in H1. destruct H1 as [H1 D].
    apply andb_true_iff in H1. destruct H1 as [H1 C].
    apply andb_true_iff in H1. destruct H1 as [A B].
    apply negb_true_iff, Ascii.eqb_neq in A.
    apply negb_true_iff, Ascii.eqb_neq in B.
    apply negb_true_iff, Ascii.eqb_neq in C.
    apply negb_true_iff, Ascii.eqb_neq in D. tauto. }
  unfold listed_as, corpus_name. cbn [path label].
  split; [reflexivity|]. split.
  { apply basename_in_data_dir; eapply Forall_impl; try exact F; cbn beta; tauto. }
  split; [assumption|]. split; [assumption|].
  split; [|split; assumption].
  split; [|lia]. eapply Forall_impl; [|exact F]. cbn beta. tauto.
Qed.

Lemma known_path_en :
  firstn 95 (c_str (DATA_DIR ++ lit "/verses_en.txt")) =
  DATA_DIR ++ SLASH :: lit "verses_en.txt".
Proof. vm_compute. reflexivity. Qed.

Lemma known_path_esv :
  firstn 95 (c_str (DATA_DIR ++ lit "/verses_esv.txt")) =
  DATA_DIR ++ SLASH :: lit "verses_esv.txt".
Proof. vm_compute. reflexivity. Qed.

Lemma known_path_de :
  firstn 95 (c_str (DATA_DIR ++ lit "/verses_de.txt")) =
  DATA_DIR ++ SLASH :: lit "verses_de.txt".
Proof. vm_compute. reflexivity. Qed.

Lemma firstn_le_23 (l : list ascii) : length (firstn 23 l) <= 23.
Proof. apply firstn_le_length. Qed.

Lemma known_loop_listed (card : Card) :
  let files := known_loop card KNOWN_FILES [] in
  length files <= 3 /\
  Forall (fun vf => exists fname, listed_as vf fname /\ is_known fname = true) files /\
  NoDup (map corpus_name files).
Proof.
  assert (En : listed_as (mkVerseFile (firstn 23 (c_str (lit "KJV (English)")))
                            (firstn 95 (c_str (DATA_DIR ++ lit "/verses_en.txt"))))
                         (lit "verses_en.txt")).
  { rewrite known_path_en. apply listed_name_ok; [vm_compute; reflexivity|].
    apply firstn_le_23. }
  assert (Es : listed_as (mkVerseFile (firstn 23 (c_str (lit "ESV (English)")))
                            (firstn 95 (c_str (DATA_DIR ++ lit "/verses_esv.txt"))))
                         (lit "verses_esv.txt")).
  { rewrite known_path_esv. apply listed_name_ok; [vm_compute; reflexivity|].
    apply firstn_le_23. }
  assert (De : listed_as (mkVerseFile (firstn 23 (c_str (lit "Luther 1912 (DE)")))
                            (firstn 95 (c_str (DATA_DIR ++ lit "/verses_de.txt"))))
                         (lit "verses_de.txt")).
  { rewrite known_path_de. apply listed_name_ok; [vm_compute; reflexivity|].
    apply firstn_le_23. }
  assert (K1 : is_known (lit "verses_en.txt") = true) by (vm_compute; reflexivity).
  assert (K2 : is_known (lit "verses_esv.txt") = true) by (vm_compute; reflexivity).
  assert (K3 : is_known (lit "verses_de.txt") = true) by (vm_compute; reflexivity).
  assert (D12 : lit "verses_en.txt" <> lit "verses_esv.txt") by discriminate.
  assert (D13 : lit "verses_en.txt" <> lit "verses_de.txt") by discriminate.
  assert (D23 : lit "verses_esv.txt" <> lit "verses_de.txt") by discriminate.
  pose proof (proj1 (proj2 En)) as N1.
  pose proof (proj1 (proj2 Es)) as N2.
  pose proof (proj1 (proj2 De)) as N3.
  cbv zeta. unfold KNOWN_FILES.
  cbn [known_loop length Nat.leb].
  set (v1 := mkVerseFile (firstn 23 (c_str (lit "KJV (English)")))
               (firstn 95 (c_str (DATA_DIR ++ lit "/verses_en.txt")))) in *.
  set (v2 := mkVerseFile (firstn 23 (c_str (lit "ESV (English)")))
               (firstn 95 (c_str (DATA_DIR ++ lit "/verses_esv.txt")))) in *.
  set (v3 := mkVerseFile (firstn 23 (c_str (lit "Luther 1912 (DE)")))
               (firstn 95 (c_str (DATA_DIR ++ lit "/verses_de.txt")))) in *.
  set (n1 := lit "verses_en.txt") in *.
  set (n2 := lit "verses_esv.txt") in *.
  set (n3 := lit "verses_de.txt") in *.
  set (p1 := DATA_DIR ++ lit "/verses_en.txt").
  set (p2 := DATA_DIR ++ lit "/verses_esv.txt").
  set (p3 := DATA_DIR ++ lit "/verses_de.txt").
  clearbody v1 v2 v3 n1 n2 n3 p1 p2 p3.
  assert (O1 : exists fname, listed_as v1 fname /\ is_known fname = true)
    by (exists n1; split; assumption).
  assert (O2 : exists fname, listed_as v2 fname /\ is_known fname = true)
    by (exists n2; split; assumption).
  assert (O3 : exists fname, listed_as v3 fname /\ is_known fname = true)
    by (exists n3; split; assumption).
  destruct (corpus_at card p1); destruct (corpus_at card p2);
    destruct (corpus_at card p3);
    cbn [known_loop length Nat.leb List.app map];
    (split; [lia|]);
    (split;
     [ repeat (apply Forall_cons; [assumption|]); apply Forall_nil
     | rewrite ?N1, ?N2, ?N3;
       repeat (apply NoDup_cons; [cbn [In]; intuition congruence|]);
       apply NoDup_nil ]).
Qed.

Lemma NoDup_snoc {A : Type} (l : list A) (x : A) :
  NoDup l -> ~ In x l -> NoDup (l ++ [x]).
Proof.
  intros N I. induction l as [|a l IH]; cbn [List.app].
  - constructor; [intros [] | constructor].
  - inversion N as [|? ? Na Nl]; subst. constructor.
    + intros J. apply in_app_or in J. destruct J as [J|[J|[]]].
      * contradiction.
      * subst. apply I. left. reflexivity.
    + apply IH; [assumption|]. intros J. apply I. right. assumption.
Qed.

Lemma dir_loop_listed (entries : list DirEntry) :
  forall files,
    well_named entries ->
    length files <= 8 ->
    Forall (fun vf => exists fname, listed_as vf fname) files ->
    NoDup (map corpus_name files) ->
    (forall e, In e entries -> is_known (c_str (entry_name e)) = false ->
          ~ In (c_str (entry_name e)) (map corpus_name files)) ->
    length (dir_loop entries files) <= 8 /\
    Forall (fun vf => exists fname, listed_as vf fname) (dir_loop entries files) /\
    NoDup (map corpus_name (dir_loop entries files)).
Proof.
  induction entries as [|e rest IH]; intros files [W D] L F N H.
  - cbn [dir_loop]. repeat split; assumption.
  - inversion W as [|? ? [W1 W2] W']; subst.
    cbn [map] in D. inversion D as [|? ? D1 D']; subst.
    assert (Skip : length (dir_loop rest files) <= 8 /\
                   Forall (fun vf => exists fname, listed_as vf fname)
                          (dir_loop rest files) /\
                   NoDup (map corpus_name (dir_loop rest files))).
    { apply IH; try assumption; [split; assumption|].
      intros e' I'. apply H. right. assumption. }
    cbn [dir_loop]. set (fname := c_str (entry_name e)) in *.
    destruct (is_directory e); [exact Skip|].
    destruct (bytes_eqb (firstn 7 fname) (lit "verses_")) eqn:C1;
      cbn [negb]; [|exact Skip].
    destruct (length fname <? 11) eqn:C2; [exact Skip|].
    destruct (str_eq (skipn (length fname - 4) fname) (lit ".txt")) eqn:C3;
      cbn [negb]; [|exact Skip].
    destruct (str_eq fname (lit "verses_en.txt")) eqn:K1; [exact Skip|].
    destruct (str_eq fname (lit "verses_esv.txt")) eqn:K2; [exact Skip|].
    destruct (str_eq fname (lit "verses_de.txt")) eqn:K3; [exact Skip|].
    destruct (8 <=? length files) eqn:C4; [repeat split; assumption|].
    apply Nat.leb_gt in C4.
    assert (Nn : Forall (fun c => c <> NUL) fname) by apply c_str_no_nul.
    assert (Ln : listed_name fname = true).
    { unfold listed_name. rewrite C1.
      apply Nat.leb_le in W1. rewrite W1.
      assert (T : bytes_eqb (skipn (length fname - 4) fname) (lit ".txt") = true).
      { unfold str_eq in C3.
        rewrite (c_str_fixed (skipn (length fname - 4) fname)) in C3
          by (apply (Forall_firstn_skipn _ (length fname - 4) fname Nn)).
        exact C3. }
      rewrite T, !andb_true_r.
      apply forallb_forall. intros c I.
      rewrite Forall_forall in W2, Nn.
      destruct (W2 c I) as (A & B & C). specialize (Nn c I).
      apply Ascii.eqb_neq in A. apply Ascii.eqb_neq in B.
      apply Ascii.eqb_neq in C. apply Ascii.eqb_neq in Nn.
      rewrite A, B, C, Nn. reflexivity. }
    set (lbl := snprintf_str 24 _).
    assert (Pth : snprintf_str 96 (DATA_DIR ++ SLASH :: fname) =
                  DATA_DIR ++ SLASH :: fname).
    { unfold snprintf_str. apply firstn_all2.
      rewrite length_app. cbn [length]. change (length DATA_DIR) with 27. lia. }
    rewrite Pth.
    assert (Ls : listed_as (mkVerseFile lbl (DATA_DIR ++ SLASH :: fname)) fname).
    { apply listed_name_ok; [assumption|].
      unfold lbl, snprintf_str. apply firstn_le_length. }
    assert (Kn : is_known fname = false).
    { unfold is_known. rewrite K1, K2, K3. reflexivity. }
    apply IH.
    + split; assumption.
    + rewrite length_app. cbn [length]. lia.
    + apply Forall_app. split; [assumption|].
      constructor; [exists fname; assumption | constructor].
    + rewrite map_app. cbn [map]. rewrite (proj1 (proj2 Ls)).
      apply NoDup_snoc; [assumption|].
      apply H; [left; reflexivity | assumption].
    + intros e' I' K' J. rewrite map_app in J. cbn [map] in J.
      rewrite (proj1 (proj2 Ls)) in J.
      apply in_app_or in J. destruct J as [J|[J|[]]].
      * revert J. apply H; [right; assumption | assumption].
      * apply D1. rewrite J. apply in_map_iff. exists e'. split; [reflexivity | assumption].
Qed.

(** X28.  [discover_verse_files] offers at most eight corpora, each a
    file of the data directory with a name of the form [verses_*.txt],
    and no name twice, given that the directory lists names as a file
    system has them (at most 63 bytes, without [/], all different):
    every name can be written to the settings file and found again. *)
Theorem discover_verse_files_listed (card : Card) (app : App) :
  (forall entries, data_dir card = Some entries -> well_named entries) ->
  let app' := discover_verse_files card app in
  vfile_count app' <= 8 /\
  Forall (fun vf => exists fname, listed_as vf fname) (vfiles app') /\
  NoDup (map corpus_name (vfiles app')).
Proof.
  intros W. cbv zeta. unfold discover_verse_files, vfile_count.
  cbn [set_vfiles vfiles].
  destruct (known_loop_listed card) as (K1 & K2 & K3). cbv zeta in K1, K2, K3.
  assert (K2' : Forall (fun vf => exists fname, listed_as vf fname)
                       (known_loop card KNOWN_FILES [])).
  { eapply Forall_impl; [|exact K2]. cbn beta.
    intros vf (fname & Lf & _). exists fname. assumption. }
  destruct (data_dir card) as [entries|] eqn:E.
  - apply dir_loop_listed; try assumption; [apply W; reflexivity | lia |].
    intros e _ Ke J. apply in_map_iff in J. destruct J as (vf & Ev & Iv).
    rewrite Forall_forall in K2. destruct (K2 vf Iv) as (fname & Lf & Kf).
    rewrite (proj1 (proj2 Lf)) in Ev. congruence.
  - repeat split; [lia | assumption | assumption].
Qed.

Lemma two_corpora_well_named :
  forall entries, data_dir two_corpora_card = Some entries -> well_named entries.
Proof.
  intros entries [= <-]. split.
  - repeat (apply Forall_cons;
            [split; [vm_compute; lia
                    | repeat (apply Forall_cons; [repeat split; discriminate|]);
                      apply Forall_nil]|]).
    apply Forall_nil.
  - cbn [map entry_name].
    repeat (apply NoDup_cons; [cbn [In]; intuition discriminate|]).
    apply NoDup_nil.
Qed.

Lemma discover_verse_files_listed_witness :
  let app' := discover_verse_files two_corpora_card (startup_app blank_storage []) in
  vfile_count app' <= 8 /\
  Forall (fun vf => exists fname, listed_as vf fname) (vfiles app') /\
  NoDup (map corpus_name (vfiles app')).
Proof.
  apply discover_verse_files_listed. exact two_corpora_well_named.
Defined.

Lemma dir_loop_count (entries : list DirEntry) :
  forall files, length files <= 8 -> length (dir_loop entries files) <= 8.
Proof.
  induction entries as [|e rest IH]; intros files L; [assumption|].
  cbn [dir_loop].
  destruct (is_directory e); [apply IH; assumption|].
  destruct (negb (bytes_eqb _ _)); [apply IH; assumption|].
  destruct (_ <? 11); [apply IH; assumption|].
  destruct (negb (str_eq _ _)); [apply IH; assumption|].
  destruct (str_eq _ (lit "verses_en.txt")); [apply IH; assumption|].
  destruct (str_eq _ (lit "verses_esv.txt")); [apply IH; assumption|].
  destruct (str_eq _ (lit "verses_de.txt")); [apply IH; assumption|].
  destruct (8 <=? length files) eqn:C; [assumption|].
  apply Nat.leb_gt in C. apply IH. rewrite length_app. cbn [length]. lia.
Qed.

Lemma known_loop_count (card : Card) (known : list (list ascii * list ascii)) :
  forall files, length files <= 8 -> length (known_loop card known files) <= 8.
Proof.
  induction known as [|[p l] rest IH]; intros files L; [assumption|].
  cbn [known_loop].
  destruct (8 <=? length files) eqn:C; [assumption|].
  apply Nat.leb_gt in C. apply IH.
  destruct (corpus_at card p); [|lia].
  rewrite length_app. cbn [length]. lia.
Qed.

Lemma discover_count (card : Card) (app : App) :
  vfile_count (discover_verse_files card app) <= 8.
Proof.
  unfold discover_verse_files, vfile_count. cbn [set_vfiles vfiles].
  pose proof (known_loop_count card KNOWN_FILES [] ltac:(cbn [length]; lia)) as K.
  destruct (data_dir card); [apply dir_loop_count|]; assumption.
Qed.

Lemma build_index_result (app : App) :
  let r := build_index app in
  vfiles (snd r) = vfiles app /\ vfile_sel (snd r) = vfile_sel app /\
  storage (snd r) = storage app /\
  (fst r = true ->
   1 <= verse_count (snd r) <= MAX_VERSES /\
   exists f rest, vfile app = Some f /\
                  vfile (snd r) = Some (mkFile (contents f) rest)).
Proof.
  cbv zeta. unfold build_index.
  destruct (vfile app) as [f|] eqn:V;
    [|cbn [fst snd set_index vfiles vfile_sel storage];
      repeat split; discriminate].
  destruct (index_loop _ _ _ _) as [[idx rest]|] eqn:E;
    [|cbn [fst snd set_index vfiles vfile_sel storage];
      repeat split; discriminate].
  cbn [fst snd]. unfold set_vfile, set_index, verse_count.
  cbn [vfiles vfile_sel storage index vfile].
  split; [reflexivity|]. split; [reflexivity|]. split; [reflexivity|].
  intros H. apply Nat.ltb_lt in H.
  pose proof (index_loop_count _ _ _ _ _ E ltac:(cbn [length]; lia)) as C.
  cbn [fst] in C.
  split; [lia|]. exists f, rest. split; reflexivity.
Qed.

Lemma bmarks_load_fields (app : App) :
  index (bmarks_load app) = index app /\
  vfiles (bmarks_load app) = vfiles app /\
  vfile_sel (bmarks_load app) = vfile_sel app /\
  vfile (bmarks_load app) = vfile app /\
  length (bm_idx (bmarks (bmarks_load app))) <= MAX_BOOKMARKS /\
  Forall (fun v => (0 <= v < Z.of_nat (verse_count app))%Z)
         (bm_idx (bmarks (bmarks_load app))).
Proof.
  unfold bmarks_load.
  destruct (bm_file (storage app)) as [data|].
  - destruct (bmarks_loop_valid data [] [] (Z.of_nat (verse_count app))
                (Forall_nil _) ltac:(unfold MAX_BOOKMARKS; simpl; lia)) as [V L].
    cbn [set_bmarks bmarks bm_idx index vfiles vfile_sel vfile].
    repeat split; [assumption|].
    eapply Forall_impl; [|exact V]. cbn beta. intros v Hv. exact (proj1 Hv).
  - cbn [set_bmarks bmarks bm_idx index vfiles vfile_sel vfile length].
    repeat split; [unfold MAX_BOOKMARKS; lia | constructor].
Qed.

(** X29.  When the application reaches its main menu, the state is
    ready for every screen: a corpus is open, it is the file of the
    selected entry of the table of at most eight, its index has
    between 1 and 600 verses, and at most 75 bookmarks are loaded, each
    one a verse of that index. *)
Theorem startup_ready (card : Card) (st : Storage) (app : App) :
  startup card st = (true, app) ->
  1 <= verse_count app <= MAX_VERSES /\
  (0 <= vfile_sel app < Z.of_nat (vfile_count app))%Z /\
  vfile_count app <= 8 /\
  (exists data rest,
     corpus_at card
       (c_str (path (nth (Z.to_nat (vfile_sel app)) (vfiles app) empty_vfile)))
     = Some data /\
     vfile app = Some (mkFile data rest)) /\
  length (bm_idx (bmarks app)) <= MAX_BOOKMARKS /\
  Forall (fun v => (0 <= v < Z.of_nat (verse_count app))%Z) (bm_idx (bmarks app)).
Proof.
  unfold startup. intros E.
  set (a1 := discover_verse_files card (startup_app st [])) in *.
  pose proof (discover_count card (startup_app st [])) as C8. fold a1 in C8.
  destruct (vfile_count a1 =? 0) eqn:C0; [discriminate|].
  apply Nat.eqb_neq in C0.
  pose proof (settings_load_loaded a1) as Ld.
  set (a2 := settings_load a1) in *.
  destruct Ld as [_ _ Lv _ _ _ _ _ Ls _ _ _ _ _ _].
  assert (S0 : vfile_sel a1 = 0%Z) by reflexivity.
  assert (Sel : (0 <= vfile_sel a2 < Z.of_nat (vfile_count a2))%Z).
  { unfold vfile_count in *. rewrite Lv. destruct Ls as [Ls|Ls]; lia. }
  assert (Cnt : vfile_count a2 <= 8) by (unfold vfile_count in *; rewrite Lv; lia).
  unfold open_verse_file in E.
  change (vfile_count (set_vfile a2 None)) with (vfile_count a2) in E.
  change (vfile_sel (set_vfile a2 None)) with (vfile_sel a2) in E.
  change (vfiles (set_vfile a2 None)) with (vfiles a2) in E.
  destruct (vfile_count a2 =? 0); [discriminate|].
  destruct (corpus_at card _) as [data|] eqn:Cd; [|discriminate].
  set (a3 := set_vfile (set_vfile a2 None) (Some (open_file data))) in *.
  destruct (build_index_result a3) as (B1 & B2 & _ & B4). cbv zeta in *.
  destruct (build_index a3) as [ok a4]. cbn [fst snd] in *.
  destruct ok; [|discriminate]. injection E as <-.
  destruct (B4 eq_refl) as (Vc & f & rest & Vf & Vf').
  destruct (bmarks_load_fields a4) as (F1 & F2 & F3 & F4 & F5 & F6).
  unfold verse_count, vfile_count in *. rewrite F1, F2, F3, F4, B1, B2.
  change (vfiles a3) with (vfiles a2). change (vfile_sel a3) with (vfile_sel a2).
  repeat split; try assumption; try lia.
  exists data, rest. split; [exact Cd|].
  rewrite Vf'. change (vfile a3) with (Some (open_file data)) in Vf.
  injection Vf as <-. reflexivity.
Qed.

Lemma startup_ready_witness :
  let app := snd (startup two_corpora_card blank_storage) in
  1 <= verse_count app <= MAX_VERSES /\
  (0 <= vfile_sel app < Z.of_nat (vfile_count app))%Z /\
  vfile_count app <= 8.
Proof.
  pose proof (startup_ready two_corpora_card blank_storage
                (snd (startup two_corpora_card blank_storage))
                ltac:(vm_compute; reflexivity)) as (H1 & H2 & H3 & _).
  repeat split; solve [apply H1 | apply H2 | apply H3].
Defined.

(* ================================================================== *)
(** * The reading view *)
(* ================================================================== *)










